(** * Sprite Sheet Tile Picker: viewport, grid geometry and hit testing

    A shallow embedding of the Vue components of the tile picker
    ([ImageViewer.vue], [App.vue], [ImageUploader.vue], [GridSettings.vue])
    together with the properties of the grid-addressing engine.

    Numbers.  JavaScript has a single [number] type.  The embedding splits
    it by use:
    - quantities that are integers by construction ([naturalWidth],
      [clientWidth], the grid inputs produced by [parseInt] and the clamp
      of [GridSettings.handleInput], everything that comes out of
      [Math.floor], a [MouseEvent.button]) are [Z];
    - every other number (scale, offsets, pointer coordinates, cell sizes)
      is an exact rational [Q].
    Arithmetic on [Q] is exact: IEEE-754 rounding is not modelled.  A
    division by zero, which JavaScript answers with an infinity or NaN,
    is answered by [Q] with [0]; the statements below that divide say
    when the divisor is not zero.  The two quotients of [resetView]
    divide by the natural size of the image, which is zero for an image
    without extent: they are modelled with their infinities and NaN.

    The page.  The handlers read the size and the position of the
    container and of the canvas from the document each time they run.
    The state holds the elements as the document has them; a change of
    layout between two handlers is an event of its own ([Page]). *)

From Stdlib Require Import ZArith QArith Qround Qminmax.
From Stdlib Require Import List String Ascii Bool Lia Lqa.
Import ListNotations.

Set Implicit Arguments.

(** ** JavaScript primitives used by the components *)

Module JS.

Local Open Scope Q_scope.

(** [Math.floor] *)
Definition Math_floor (x : Q) : Z := Qfloor x.

(** [a < b], [a >= b] on numbers *)
Definition lt (a b : Q) : bool := negb (Qle_bool b a).
Definition ge (a b : Q) : bool := Qle_bool b a.
Definition gt (a b : Q) : bool := lt b a.

(** [Math.min], [Math.max] *)
Definition Math_min (a b : Q) : Q := Qmin a b.
Definition Math_max (a b : Q) : Q := Qmax a b.

(** [n || d] on an integer-valued number: [0] is the only falsy value
    an integer can take. *)
Definition or_else (n d : Z) : Z := if (n =? 0)%Z then d else n.

(** [a % b] on integers: the remainder has the sign of the dividend. *)
Definition rem (a b : Z) : Z := Z.rem a b.

(** A quotient as JavaScript answers it where the divisor may be zero: a
    number, an infinity, or NaN for [0 / 0]. *)
Inductive Quotient :=
| Finite (q : Q)
| PlusInfinity
| MinusInfinity
| NotANumber.

(** [a / b], for a divisor that is a number and not [-0] *)
Definition divide (a b : Q) : Quotient :=
  if Qeq_bool b 0 then
    if Qeq_bool a 0 then NotANumber
    else if lt 0 a then PlusInfinity else MinusInfinity
  else Finite (a / b).

(** [Math.min(a, b)] on quotients: NaN wins, then the smaller one. *)
Definition Math_min_quotient (a b : Quotient) : Quotient :=
  match a, b with
  | NotANumber, _ | _, NotANumber => NotANumber
  | MinusInfinity, _ | _, MinusInfinity => MinusInfinity
  | PlusInfinity, c | c, PlusInfinity => c
  | Finite x, Finite y => Finite (Qmin x y)
  end.

End JS.

(** ** ImageViewer.vue *)

Module ImageViewer.

Import JS.
Local Open Scope Q_scope.

(** *** Data *)

Inductive GridMode := Size | Count.

Record Tile := mkTile { index : Z; row : Z; col : Z }.

Record Props := mkProps {
  imageUrl : string;
  gridX : Z;
  gridY : Z;
  gridMode : GridMode;
  showNumbers : bool;
  selectedTile : option Tile
}.

Record HTMLImageElement := mkImage {
  naturalWidth : Z;
  naturalHeight : Z
}.

Record DOMRect := mkRect {
  rect_left : Q;
  rect_top : Q;
  rect_width : Q;
  rect_height : Q
}.

(** The container [div]: its client box and its bounding rectangle, as
    the document has them when a handler reads them. *)
Record HTMLDivElement := mkDiv {
  clientWidth : Z;
  clientHeight : Z;
  div_rect : DOMRect
}.

(** The canvas: its bounding rectangle and whether [getContext('2d')]
    answers a context. *)
Record HTMLCanvasElement := mkCanvas {
  canvas_rect : DOMRect;
  has_context2d : bool
}.

(** The refs of the component's setup scope, with the props it was given
    and the one [window] property [draw] reads. *)
Record Viewer := mkViewer {
  props : Props;
  devicePixelRatio : Q;
  containerRef : option HTMLDivElement;
  canvasRef : option HTMLCanvasElement;
  image : option HTMLImageElement;
  imageLoaded : bool;
  scale : Q;
  offsetX : Q;
  offsetY : Q;
  isPanning : bool;
  lastMouseX : Q;
  lastMouseY : Q;
  hoveredTile : option Z
}.

Definition MIN_SCALE : Q := 1 # 10.
Definition MAX_SCALE : Q := 10.

(** *** Computed properties *)

(** [image.value?.naturalWidth || 0] *)
Definition imageWidth (v : Viewer) : Z :=
  match image v with
  | Some img => or_else (naturalWidth img) 0
  | None => 0
  end%Z.

Definition imageHeight (v : Viewer) : Z :=
  match image v with
  | Some img => or_else (naturalHeight img) 0
  | None => 0
  end%Z.

Definition cellWidth (v : Viewer) : Q :=
  match gridMode (props v) with
  | Size => inject_Z (gridX (props v))
  | Count => inject_Z (imageWidth v) / inject_Z (gridX (props v))
  end.

Definition cellHeight (v : Viewer) : Q :=
  match gridMode (props v) with
  | Size => inject_Z (gridY (props v))
  | Count => inject_Z (imageHeight v) / inject_Z (gridY (props v))
  end.

Definition colCount (v : Viewer) : Z :=
  match gridMode (props v) with
  | Size =>
      or_else
        (Math_floor (inject_Z (imageWidth v) / inject_Z (gridX (props v)))) 1
  | Count => gridX (props v)
  end.

Definition rowCount (v : Viewer) : Z :=
  match gridMode (props v) with
  | Size =>
      or_else
        (Math_floor (inject_Z (imageHeight v) / inject_Z (gridY (props v)))) 1
  | Count => gridY (props v)
  end.

Definition totalCells (v : Viewer) : Z := (colCount v * rowCount v)%Z.

(** *** Field updates *)

Definition set_image (i : option HTMLImageElement) (v : Viewer) : Viewer :=
  mkViewer (props v) (devicePixelRatio v) (containerRef v) (canvasRef v)
    i (imageLoaded v) (scale v) (offsetX v) (offsetY v)
    (isPanning v) (lastMouseX v) (lastMouseY v) (hoveredTile v).

Definition set_imageLoaded (b : bool) (v : Viewer) : Viewer :=
  mkViewer (props v) (devicePixelRatio v) (containerRef v) (canvasRef v)
    (image v) b (scale v) (offsetX v) (offsetY v)
    (isPanning v) (lastMouseX v) (lastMouseY v) (hoveredTile v).

Definition set_scale (s : Q) (v : Viewer) : Viewer :=
  mkViewer (props v) (devicePixelRatio v) (containerRef v) (canvasRef v)
    (image v) (imageLoaded v) s (offsetX v) (offsetY v)
    (isPanning v) (lastMouseX v) (lastMouseY v) (hoveredTile v).

Definition set_offsetX (x : Q) (v : Viewer) : Viewer :=
  mkViewer (props v) (devicePixelRatio v) (containerRef v) (canvasRef v)
    (image v) (imageLoaded v) (scale v) x (offsetY v)
    (isPanning v) (lastMouseX v) (lastMouseY v) (hoveredTile v).

Definition set_offsetY (y : Q) (v : Viewer) : Viewer :=
  mkViewer (props v) (devicePixelRatio v) (containerRef v) (canvasRef v)
    (image v) (imageLoaded v) (scale v) (offsetX v) y
    (isPanning v) (lastMouseX v) (lastMouseY v) (hoveredTile v).

Definition set_isPanning (b : bool) (v : Viewer) : Viewer :=
  mkViewer (props v) (devicePixelRatio v) (containerRef v) (canvasRef v)
    (image v) (imageLoaded v) (scale v) (offsetX v) (offsetY v)
    b (lastMouseX v) (lastMouseY v) (hoveredTile v).

Definition set_lastMouseX (x : Q) (v : Viewer) : Viewer :=
  mkViewer (props v) (devicePixelRatio v) (containerRef v) (canvasRef v)
    (image v) (imageLoaded v) (scale v) (offsetX v) (offsetY v)
    (isPanning v) x (lastMouseY v) (hoveredTile v).

Definition set_lastMouseY (y : Q) (v : Viewer) : Viewer :=
  mkViewer (props v) (devicePixelRatio v) (containerRef v) (canvasRef v)
    (image v) (imageLoaded v) (scale v) (offsetX v) (offsetY v)
    (isPanning v) (lastMouseX v) y (hoveredTile v).

Definition set_hoveredTile (h : option Z) (v : Viewer) : Viewer :=
  mkViewer (props v) (devicePixelRatio v) (containerRef v) (canvasRef v)
    (image v) (imageLoaded v) (scale v) (offsetX v) (offsetY v)
    (isPanning v) (lastMouseX v) (lastMouseY v) h.

Definition set_props (p : Props) (v : Viewer) : Viewer :=
  mkViewer p (devicePixelRatio v) (containerRef v) (canvasRef v)
    (image v) (imageLoaded v) (scale v) (offsetX v) (offsetY v)
    (isPanning v) (lastMouseX v) (lastMouseY v) (hoveredTile v).

(** *** Tile addressing

    The two conversions the component computes inline: the index of a
    cell in [getTileAtPosition], and the cell of an index where [draw]
    paints the hovered tile. *)

(** [row * colCount.value + col] *)
Definition rowColToIndex (r c cols : Z) : Z := (r * cols + c)%Z.

(** [Math.floor(index / colCount.value)], [index % colCount.value] *)
Definition indexToRowCol (i cols : Z) : Z * Z :=
  (Math_floor (inject_Z i / inject_Z cols), rem i cols).

(** *** What the component does to the outside *)

Inductive CanvasOp :=
| CanvasSize (w h : Q)            (* canvas.width, canvas.height *)
| CanvasStyleSize (w h : Q)       (* canvas.style.width, .height, in px *)
| CtxScale (sx sy : Q)
| CtxTranslate (x y : Q)
| CtxSave
| CtxRestore
| FillStyle (s : string)
| StrokeStyle (s : string)
| LineWidth (w : Q)
| FillRect (x y w h : Q)
| StrokeRect (x y w h : Q)
| ImageSmoothingEnabled (b : bool)
| DrawImage (img : HTMLImageElement) (x y : Q)
| BeginPath
| MoveTo (x y : Q)
| LineTo (x y : Q)
| Stroke
| Font (px : Q)                   (* `bold ${px}px monospace` *)
| TextAlign (s : string)
| TextBaseline (s : string)
| StrokeText (n : Z) (x y : Q)    (* the text is String(n) *)
| FillText (n : Z) (x y : Q).

Definition Frame := list CanvasOp.

Inductive Effect :=
| PreventDefault
| RequestImage (url : string)     (* new Image(), img.src = url *)
| Draw (f : Frame)
| Emit_tile_click (t : Tile).

(** *** Loops *)

(** [for (let i = from; i < n; i += step)]: the values [i] takes.  The
    fuel bounds the number of iterations. *)
Fixpoint for_loop (fuel : nat) (i n step : Z) : list Z :=
  match fuel with
  | O => []
  | S fuel' =>
      if (i <? n)%Z then i :: for_loop fuel' (i + step) n step else []
  end.

(** With [step >= 1], [n] iterations are never exceeded from [0]. *)
Definition for_range (n step : Z) : list Z :=
  for_loop (Z.to_nat n) 0 n step.

(** [len] consecutive integers from [from]: what a loop with step 1
    runs through. *)
Fixpoint count_up (from : Z) (len : nat) : list Z :=
  match len with
  | O => []
  | S len' => from :: count_up (from + 1) len'
  end.

(** *** resetView *)

(** The two quotients divide by the image's natural size, which is zero
    for an image without extent; [Math.min] then sees an infinity or NaN.
    An infinite quotient that is not the minimum has no effect.  When the
    minimum itself is [-Infinity] or NaN the refs would hold a value that
    is not a number, which the state cannot: the state is then left as it
    was.  What is stated below of the view after a reset is stated for
    an image with extent, where both quotients are numbers. *)
Definition resetView (v : Viewer) : Viewer :=
  match containerRef v, image v with
  | Some container, Some img =>
      let containerWidth := inject_Z (clientWidth container) in
      let containerHeight := inject_Z (clientHeight container) in
      let imgWidth := inject_Z (naturalWidth img) in
      let imgHeight := inject_Z (naturalHeight img) in
      let scaleX := divide (containerWidth - 40) imgWidth in
      let scaleY := divide (containerHeight - 40) imgHeight in
      match Math_min_quotient (Math_min_quotient scaleX scaleY) (Finite 1) with
      | Finite fitted =>
          let v1 := set_scale fitted v in
          let v2 :=
            set_offsetX ((containerWidth - imgWidth * scale v1) / 2) v1 in
          set_offsetY ((containerHeight - imgHeight * scale v2) / 2) v2
      | _ => v
      end
  | _, _ => v
  end.

(** *** draw *)

Definition background : string := "#1a1a2e".
Definition checker_light : string := "#2a2a3e".
Definition grid_stroke : string := "rgba(233, 69, 96, 0.6)".
Definition hover_fill : string := "rgba(233, 69, 96, 0.2)".
Definition selected_fill : string := "rgba(233, 69, 96, 0.4)".
Definition selected_stroke : string := "#e94560".
Definition label_shadow : string := "rgba(0, 0, 0, 0.8)".
Definition label_selected : string := "#fff".
Definition label_fill : string := "rgba(255, 255, 255, 0.9)".

Definition checkSize : Z := 10.

(** The checkerboard: [x] and [y] are multiples of [checkSize], so the
    two quotients are integers. *)
Definition draw_checkerboard (v : Viewer) : Frame :=
  flat_map (fun y =>
    flat_map (fun x =>
      [ FillStyle
          (if (rem (x / checkSize + y / checkSize) 2 =? 0)%Z
           then checker_light else background);
        FillRect (inject_Z x) (inject_Z y)
                 (inject_Z checkSize) (inject_Z checkSize) ])
      (for_range (imageWidth v) checkSize))
    (for_range (imageHeight v) checkSize).

Definition draw_grid (v : Viewer) : Frame :=
  [ StrokeStyle grid_stroke; LineWidth (1 / scale v) ]
  ++ flat_map (fun i =>
       let x := inject_Z i * cellWidth v in
       [ BeginPath; MoveTo x 0; LineTo x (inject_Z (imageHeight v)); Stroke ])
       (for_range (colCount v + 1) 1)
  ++ flat_map (fun j =>
       let y := inject_Z j * cellHeight v in
       [ BeginPath; MoveTo 0 y; LineTo (inject_Z (imageWidth v)) y; Stroke ])
       (for_range (rowCount v + 1) 1).

Definition draw_hovered (v : Viewer) : Frame :=
  match hoveredTile v with
  | Some hovered =>
      let col := rem hovered (colCount v) in
      let row := Math_floor (inject_Z hovered / inject_Z (colCount v)) in
      [ FillStyle hover_fill;
        FillRect (inject_Z col * cellWidth v) (inject_Z row * cellHeight v)
                 (cellWidth v) (cellHeight v) ]
  | None => []
  end.

Definition draw_selected (v : Viewer) : Frame :=
  match selectedTile (props v) with
  | Some t =>
      let x := inject_Z (col t) * cellWidth v in
      let y := inject_Z (row t) * cellHeight v in
      [ FillStyle selected_fill;
        FillRect x y (cellWidth v) (cellHeight v);
        StrokeStyle selected_stroke;
        LineWidth (2 / scale v);
        StrokeRect x y (cellWidth v) (cellHeight v) ]
  | None => []
  end.

(** [props.selectedTile?.index === index] *)
Definition is_selected_index (v : Viewer) (i : Z) : bool :=
  match selectedTile (props v) with
  | Some t => (index t =? i)%Z
  | None => false
  end.

(** The inner label loop over the columns of one row; [index] is the
    running counter, returned as it stands after the row. *)
Fixpoint draw_label_row (v : Viewer) (row : Z) (cols : list Z) (index : Z)
  : Frame * Z :=
  match cols with
  | [] => ([], index)
  | col :: cols' =>
      let x := inject_Z col * cellWidth v + cellWidth v / 2 in
      let y := inject_Z row * cellHeight v + cellHeight v / 2 in
      let ops :=
        [ StrokeStyle label_shadow;
          LineWidth (3 / scale v);
          StrokeText index x y;
          FillStyle (if is_selected_index v index
                     then label_selected else label_fill);
          FillText index x y ] in
      let (rest, index') := draw_label_row v row cols' (index + 1)%Z in
      (ops ++ rest, index')
  end.

Fixpoint draw_label_rows (v : Viewer) (rows : list Z) (index : Z)
  : Frame * Z :=
  match rows with
  | [] => ([], index)
  | row :: rows' =>
      let (ops, index1) :=
        draw_label_row v row (for_range (colCount v) 1) index in
      let (rest, index2) := draw_label_rows v rows' index1 in
      (ops ++ rest, index2)
  end.

Definition draw_numbers (v : Viewer) : Frame :=
  if showNumbers (props v) then
    let fontSize :=
      Math_max 8 (Math_min 14
        (Math_min (cellWidth v) (cellHeight v) * (2 # 5))) in
    [ Font fontSize; TextAlign "center"; TextBaseline "middle" ]
    ++ fst (draw_label_rows v (for_range (rowCount v) 1) 0)
  else [].

Definition draw (v : Viewer) : Frame :=
  match canvasRef v, image v, containerRef v with
  | Some canvas, Some img, Some container =>
      if has_context2d canvas then
        let dpr :=
          if Qeq_bool (devicePixelRatio v) 0 then 1 else devicePixelRatio v in
        let rect := div_rect container in
        [ CanvasSize (rect_width rect * dpr) (rect_height rect * dpr);
          CanvasStyleSize (rect_width rect) (rect_height rect);
          CtxScale dpr dpr;
          FillStyle background;
          FillRect 0 0 (rect_width rect) (rect_height rect);
          CtxSave;
          CtxTranslate (offsetX v) (offsetY v);
          CtxScale (scale v) (scale v) ]
        ++ draw_checkerboard v
        ++ [ ImageSmoothingEnabled false; DrawImage img 0 0 ]
        ++ draw_grid v
        ++ draw_hovered v
        ++ draw_selected v
        ++ draw_numbers v
        ++ [ CtxRestore ]
      else []
  | _, _, _ => []
  end.

(** *** Image loading *)

Definition loadImage (v : Viewer) : Viewer * list Effect :=
  (v, [RequestImage (imageUrl (props v))]).

(** The [onload] callback installed by [loadImage]. *)
Definition img_onload (img : HTMLImageElement) (v : Viewer)
  : Viewer * list Effect :=
  let v1 := set_image (Some img) v in
  let v2 := set_imageLoaded true v1 in
  let v3 := resetView v2 in
  (v3, [Draw (draw v3)]).

(** *** Coordinates and hit testing *)

Record Point := mkPoint { px : Q; py : Q }.

Definition screenToImage (v : Viewer) (screenX screenY : Q) : Point :=
  match canvasRef v with
  | None => mkPoint 0 0
  | Some canvas =>
      let rect := canvas_rect canvas in
      let x := (screenX - rect_left rect - offsetX v) / scale v in
      let y := (screenY - rect_top rect - offsetY v) / scale v in
      mkPoint x y
  end.

Definition getTileAtPosition (v : Viewer) (imgX imgY : Q) : option Tile :=
  if lt imgX 0 || lt imgY 0
     || ge imgX (inject_Z (imageWidth v))
     || ge imgY (inject_Z (imageHeight v))
  then None
  else
    let col := Math_floor (imgX / cellWidth v) in
    let row := Math_floor (imgY / cellHeight v) in
    if (col >=? colCount v)%Z || (row >=? rowCount v)%Z
    then None
    else
      let index := rowColToIndex row col (colCount v) in
      Some (mkTile index row col).

(** The hit test of a pointer position: the composition the pointer
    handlers compute. *)
Definition hitTest (v : Viewer) (clientX clientY : Q) : option Tile :=
  let imgPos := screenToImage v clientX clientY in
  getTileAtPosition v (px imgPos) (py imgPos).

(** *** Events *)

Record WheelEvent := mkWheel {
  wheel_clientX : Q;
  wheel_clientY : Q;
  deltaY : Q
}.

(** The fields of the event that tell a press apart: the handlers read
    the first four; the other modifier keys are on the event and are not
    read. *)
Record MouseEvent := mkMouse {
  button : Z;
  shiftKey : bool;
  clientX : Q;
  clientY : Q;
  ctrlKey : bool;
  altKey : bool;
  metaKey : bool
}.

(** *** Handlers *)

Definition handleWheel (e : WheelEvent) (v : Viewer) : Viewer * list Effect :=
  match canvasRef v with
  | None => (v, [PreventDefault])
  | Some canvas =>
      let rect := canvas_rect canvas in
      let mouseX := wheel_clientX e - rect_left rect in
      let mouseY := wheel_clientY e - rect_top rect in
      let zoomFactor := if gt (deltaY e) 0 then 9 # 10 else 11 # 10 in
      let newScale :=
        Math_max MIN_SCALE (Math_min MAX_SCALE (scale v * zoomFactor)) in
      let scaleRatio := newScale / scale v in
      let v1 := set_offsetX (mouseX - (mouseX - offsetX v) * scaleRatio) v in
      let v2 := set_offsetY (mouseY - (mouseY - offsetY v1) * scaleRatio) v1 in
      let v3 := set_scale newScale v2 in
      (v3, [PreventDefault; Draw (draw v3)])
  end.

Definition handleMouseDown (e : MouseEvent) (v : Viewer)
  : Viewer * list Effect :=
  if (button e =? 1)%Z || ((button e =? 0)%Z && shiftKey e) then
    let v1 := set_isPanning true v in
    let v2 := set_lastMouseX (clientX e) v1 in
    let v3 := set_lastMouseY (clientY e) v2 in
    (v3, [PreventDefault])
  else (v, []).

Definition option_Z_eqb (a b : option Z) : bool :=
  match a, b with
  | Some x, Some y => (x =? y)%Z
  | None, None => true
  | _, _ => false
  end.

Definition handleMouseMove (e : MouseEvent) (v : Viewer)
  : Viewer * list Effect :=
  if isPanning v then
    let dx := clientX e - lastMouseX v in
    let dy := clientY e - lastMouseY v in
    let v1 := set_offsetX (offsetX v + dx) v in
    let v2 := set_offsetY (offsetY v1 + dy) v1 in
    let v3 := set_lastMouseX (clientX e) v2 in
    let v4 := set_lastMouseY (clientY e) v3 in
    (v4, [Draw (draw v4)])
  else
    let imgPos := screenToImage v (clientX e) (clientY e) in
    let tile := getTileAtPosition v (px imgPos) (py imgPos) in
    let newHovered := option_map index tile in
    if negb (option_Z_eqb newHovered (hoveredTile v)) then
      let v1 := set_hoveredTile newHovered v in
      (v1, [Draw (draw v1)])
    else (v, []).

Definition handleMouseUp (e : MouseEvent) (v : Viewer)
  : Viewer * list Effect :=
  if isPanning v then (set_isPanning false v, [])
  else if (button e =? 0)%Z && negb (shiftKey e) then
    let imgPos := screenToImage v (clientX e) (clientY e) in
    match getTileAtPosition v (px imgPos) (py imgPos) with
    | Some tile => (v, [Emit_tile_click tile])
    | None => (v, [])
    end
  else (v, []).

Definition handleMouseLeave (v : Viewer) : Viewer * list Effect :=
  let v1 := set_isPanning false v in
  match hoveredTile v1 with
  | Some _ =>
      let v2 := set_hoveredTile None v1 in
      (v2, [Draw (draw v2)])
  | None => (v1, [])
  end.

Definition zoomIn (v : Viewer) : Viewer * list Effect :=
  match containerRef v with
  | None => (v, [])
  | Some container =>
      let centerX := inject_Z (clientWidth container) / 2 in
      let centerY := inject_Z (clientHeight container) / 2 in
      let newScale := Math_min MAX_SCALE (scale v * (5 # 4)) in
      let scaleRatio := newScale / scale v in
      let v1 := set_offsetX (centerX - (centerX - offsetX v) * scaleRatio) v in
      let v2 := set_offsetY (centerY - (centerY - offsetY v1) * scaleRatio) v1 in
      let v3 := set_scale newScale v2 in
      (v3, [Draw (draw v3)])
  end.

Definition zoomOut (v : Viewer) : Viewer * list Effect :=
  match containerRef v with
  | None => (v, [])
  | Some container =>
      let centerX := inject_Z (clientWidth container) / 2 in
      let centerY := inject_Z (clientHeight container) / 2 in
      let newScale := Math_max MIN_SCALE (scale v * (4 # 5)) in
      let scaleRatio := newScale / scale v in
      let v1 := set_offsetX (centerX - (centerX - offsetX v) * scaleRatio) v in
      let v2 := set_offsetY (centerY - (centerY - offsetY v1) * scaleRatio) v1 in
      let v3 := set_scale newScale v2 in
      (v3, [Draw (draw v3)])
  end.

Definition handleResize (v : Viewer) : Viewer * list Effect :=
  (v, [Draw (draw v)]).

(** The [watch] on [props.imageUrl]. *)
Definition watch_imageUrl (v : Viewer) : Viewer * list Effect :=
  loadImage (set_imageLoaded false v).

(** The [watch] on the grid inputs, [showNumbers] and [selectedTile]. *)
Definition watch_grid (v : Viewer) : Viewer * list Effect :=
  (v, [Draw (draw v)]).

(** [onMounted] *)
Definition onMounted (v : Viewer) : Viewer * list Effect := loadImage v.

(** *** The component as a transition system *)

(** The component as [setup] leaves it, given its props and the elements
    its template refs resolve to. *)
Definition setup (p : Props) (dpr : Q)
    (container : option HTMLDivElement) (canvas : option HTMLCanvasElement)
  : Viewer :=
  mkViewer p dpr container canvas None false 1 0 0 false 0 0 None.

Inductive Input :=
| Wheel (e : WheelEvent)
| MouseDown (e : MouseEvent)
| MouseMove (e : MouseEvent)
| MouseUp (e : MouseEvent)
| MouseLeave
| ClickZoomIn
| ClickZoomOut
| ClickResetView
| Resize
| ImageLoaded (img : HTMLImageElement)   (* the pending [onload] fires *)
| ImageUrlChanged (url : string)         (* the parent passes a new url *)
| GridChanged (x y : Z) (m : GridMode) (numbers : bool)
              (sel : option Tile)        (* the parent passes new inputs *)
| SelectionChanged (sel : option Tile).  (* the parent assigns the
                                            selection: a new object, or
                                            null *)

Definition GridMode_eqb (a b : GridMode) : bool :=
  match a, b with
  | Size, Size | Count, Count => true
  | _, _ => false
  end.

Definition Tile_eqb (a b : Tile) : bool :=
  (index a =? index b)%Z && (row a =? row b)%Z && (col a =? col b)%Z.

Definition option_Tile_eqb (a b : option Tile) : bool :=
  match a, b with
  | Some x, Some y => Tile_eqb x y
  | None, None => true
  | _, _ => false
  end.

(** The sources of the second [watch] are what they were: the watcher
    does not run.  The selected tile handed over by [GridChanged] is the
    object the viewer already has when it equals it; a new object comes
    with [SelectionChanged]. *)
Definition grid_sources_same (p q : Props) : bool :=
  (gridX p =? gridX q)%Z && (gridY p =? gridY q)%Z
  && GridMode_eqb (gridMode p) (gridMode q)
  && Bool.eqb (showNumbers p) (showNumbers q)
  && option_Tile_eqb (selectedTile p) (selectedTile q).

(** A watcher runs only when a value it watches has changed. *)
Definition step (i : Input) (v : Viewer) : Viewer * list Effect :=
  match i with
  | Wheel e => handleWheel e v
  | MouseDown e => handleMouseDown e v
  | MouseMove e => handleMouseMove e v
  | MouseUp e => handleMouseUp e v
  | MouseLeave => handleMouseLeave v
  | ClickZoomIn => zoomIn v
  | ClickZoomOut => zoomOut v
  | ClickResetView => (resetView v, [])
  | Resize => handleResize v
  | ImageLoaded img => img_onload img v
  | ImageUrlChanged url =>
      let p := props v in
      if String.eqb url (imageUrl p) then (v, [])
      else
        watch_imageUrl
          (set_props (mkProps url (gridX p) (gridY p) (gridMode p)
                              (showNumbers p) (selectedTile p)) v)
  | GridChanged x y m numbers sel =>
      let v1 :=
        set_props (mkProps (imageUrl (props v)) x y m numbers sel) v in
      if grid_sources_same (props v) (props v1) then (v1, [])
      else watch_grid v1
  | SelectionChanged sel =>
      let p := props v in
      let v1 :=
        set_props (mkProps (imageUrl p) (gridX p) (gridY p) (gridMode p)
                           (showNumbers p) sel) v in
      match selectedTile p, sel with
      | None, None => (v1, [])
      | _, _ => watch_grid v1
      end
  end.

Fixpoint run (inputs : list Input) (v : Viewer) : Viewer * list Effect :=
  match inputs with
  | [] => (v, [])
  | i :: inputs' =>
      let (v1, out1) := step i v in
      let (v2, out2) := run inputs' v1 in
      (v2, out1 ++ out2)
  end.

(** The states a mounted component can be in. *)
Definition reachable (v : Viewer) : Prop :=
  exists p dpr container canvas inputs,
    v = fst (run inputs (setup p dpr container canvas)).

(** The frames an effect list paints. *)
Definition frames (out : list Effect) : list Frame :=
  flat_map (fun e => match e with Draw f => [f] | _ => [] end) out.

(** The labels a frame writes: number and position of every [fillText]. *)
Definition fill_texts (f : Frame) : list (Z * Q * Q) :=
  flat_map (fun op => match op with FillText n x y => [(n, x, y)] | _ => [] end) f.

(** The tile selections an effect list emits. *)
Definition emitted (out : list Effect) : list Tile :=
  flat_map (fun e => match e with Emit_tile_click t => [t] | _ => [] end) out.

End ImageViewer.

(** ** The viewer on its page *)

Module Page.

Import ImageViewer.

(** The handlers read the geometry of the container and of the canvas
    from the document each time they run, and the document changes it
    without telling the component: the window is resized, the page is
    laid out anew or scrolled.  [Relayout] is such a change; the
    [resize] listener, which only repaints, is the input [Resize]. *)
Inductive Event :=
| Handle (i : Input)
| Relayout (container : option HTMLDivElement)
           (canvas : option HTMLCanvasElement).

Definition relayout (container : option HTMLDivElement)
    (canvas : option HTMLCanvasElement) (v : Viewer) : Viewer :=
  mkViewer (props v) (devicePixelRatio v) container canvas
    (image v) (imageLoaded v) (scale v) (offsetX v) (offsetY v)
    (isPanning v) (lastMouseX v) (lastMouseY v) (hoveredTile v).

Definition step (e : Event) (v : Viewer) : Viewer * list Effect :=
  match e with
  | Handle i => ImageViewer.step i v
  | Relayout container canvas => (relayout container canvas v, [])
  end.

Fixpoint run (events : list Event) (v : Viewer) : Viewer * list Effect :=
  match events with
  | [] => (v, [])
  | e :: events' =>
      let (v1, out1) := step e v in
      let (v2, out2) := run events' v1 in
      (v2, out1 ++ out2)
  end.

(** The events that install a new image. *)
Definition loads (e : Event) : bool :=
  match e with
  | Handle (ImageLoaded _) => true
  | _ => false
  end.

(** The events that change the layout. *)
Definition lays_out (e : Event) : bool :=
  match e with
  | Relayout _ _ => true
  | _ => false
  end.

End Page.

(** ** Files handed over by the browser *)

Module Browser.

Record File := mkFile {
  file_name : string;
  file_type : string;
  blob_url : string     (* what URL.createObjectURL answers for the file *)
}.

Definition createObjectURL (f : File) : string := blob_url f.

(** [s.startsWith(p)] *)
Definition startsWith (s p : string) : bool := String.prefix p s.

End Browser.

(** ** ImageUploader.vue *)

Module ImageUploader.

Import Browser.

Inductive Effect :=
| Emit_image_loaded (url name : string)
| ClearInput.                            (* target.value = '' *)

(** [files] is [target.files], absent or a list. *)
Definition handleFileChange (files : option (list File)) : list Effect :=
  match files with
  | Some (file :: _) =>
      if startsWith (file_type file) "image/" then
        [Emit_image_loaded (createObjectURL file) (file_name file); ClearInput]
      else [ClearInput]
  | _ => [ClearInput]
  end.

End ImageUploader.

(** ** GridSettings.vue *)

Module GridSettings.

Import ImageViewer.
Local Open Scope Z_scope.

Inductive Axis := AxisX | AxisY.

Record Models := mkModels {
  m_gridX : Z;
  m_gridY : Z;
  m_gridMode : GridMode
}.

(** [parsed] is what [parseInt(target.value)] answers: an integer, or
    nothing for NaN. *)
Definition handleInput (parsed : option Z) (axis : Axis) (m : Models)
  : Models :=
  let value := match parsed with Some n => JS.or_else n 1 | None => 1 end in
  let maxVal := match m_gridMode m with Size => 512 | Count => 256 end in
  let clampedValue := Z.max 1 (Z.min maxVal value) in
  match axis with
  | AxisX => mkModels clampedValue (m_gridY m) (m_gridMode m)
  | AxisY => mkModels (m_gridX m) clampedValue (m_gridMode m)
  end.

Definition toggleMode (m : Models) : Models :=
  mkModels (m_gridX m) (m_gridY m)
    (match m_gridMode m with Size => Count | Count => Size end).

End GridSettings.

(** ** App.vue *)

Module App.

Import Browser.
Local Open Scope Z_scope.

Record AppState := mkApp {
  imageUrl : option string;
  gridX : Z;
  gridY : Z;
  gridMode : ImageViewer.GridMode;
  showNumbers : bool;
  selectedTile : option ImageViewer.Tile;
  imageName : string;
  isDragging : bool;
  dragCounter : Z
}.

Definition init : AppState :=
  mkApp None 16 16 ImageViewer.Size false None "spritesheet" false 0.

(** The characters [[^/.]] of the extension pattern. *)
Definition ext_char (c : ascii) : bool :=
  negb (Ascii.eqb c "/" || Ascii.eqb c ".").

Fixpoint all_ext_chars (s : string) : bool :=
  match s with
  | EmptyString => true
  | String c r => ext_char c && all_ext_chars r
  end.

(** [name.replace(/\.[^/.]+$/, '')]: the leftmost dot that is followed,
    up to the end, by one or more characters other than [/] and [.], is
    cut off with what follows it. *)
Fixpoint strip_extension (name : string) : string :=
  match name with
  | EmptyString => EmptyString
  | String c r =>
      if Ascii.eqb c "." && negb (String.eqb r "") && all_ext_chars r
      then EmptyString
      else String c (strip_extension r)
  end.

(** [s || d] on strings: the empty string is falsy. *)
Definition or_else (s d : string) : string :=
  if String.eqb s "" then d else s.

Definition handleImageLoad (url name : string) (a : AppState) : AppState :=
  mkApp (Some url) (gridX a) (gridY a) (gridMode a) (showNumbers a)
    None
    (or_else (strip_extension name) "spritesheet")
    (isDragging a) (dragCounter a).

Definition handleTileClick (tile : ImageViewer.Tile) (a : AppState)
  : AppState :=
  mkApp (imageUrl a) (gridX a) (gridY a) (gridMode a) (showNumbers a)
    (Some tile) (imageName a) (isDragging a) (dragCounter a).

Definition set_drag (dragging : bool) (counter : Z) (a : AppState)
  : AppState :=
  mkApp (imageUrl a) (gridX a) (gridY a) (gridMode a) (showNumbers a)
    (selectedTile a) (imageName a) dragging counter.

Definition handleDragEnter (a : AppState) : AppState :=
  set_drag true (dragCounter a + 1) a.

Definition handleDragOver (a : AppState) : AppState := a.

Definition handleDragLeave (a : AppState) : AppState :=
  let counter := (dragCounter a - 1)%Z in
  set_drag (if (counter =? 0)%Z then false else isDragging a) counter a.

(** [files] is [e.dataTransfer?.files]. *)
Definition handleDrop (files : option (list File)) (a : AppState)
  : AppState :=
  let a1 := set_drag false 0 a in
  match files with
  | Some (file :: _) =>
      if startsWith (file_type file) "image/" then
        handleImageLoad (createObjectURL file) (file_name file) a1
      else a1
  | _ => a1
  end.

(** [@image-loaded="handleImageLoad"]: what the uploader emits reaches
    the load handler. *)
Fixpoint on_uploader (out : list ImageUploader.Effect) (a : AppState)
  : AppState :=
  match out with
  | [] => a
  | ImageUploader.Emit_image_loaded url name :: out' =>
      on_uploader out' (handleImageLoad url name a)
  | ImageUploader.ClearInput :: out' => on_uploader out' a
  end.

(** A change of the upload control's file input. *)
Definition on_file_change (files : option (list File)) (a : AppState)
  : AppState :=
  on_uploader (ImageUploader.handleFileChange files) a.

(** The three [v-model] bindings of [GridSettings]. *)
Definition grid_models (a : AppState) : GridSettings.Models :=
  GridSettings.mkModels (gridX a) (gridY a) (gridMode a).

Definition update_grid (m : GridSettings.Models) (a : AppState) : AppState :=
  mkApp (imageUrl a) (GridSettings.m_gridX m) (GridSettings.m_gridY m)
    (GridSettings.m_gridMode m) (showNumbers a) (selectedTile a)
    (imageName a) (isDragging a) (dragCounter a).

Definition on_grid_input (parsed : option Z) (axis : GridSettings.Axis)
    (a : AppState) : AppState :=
  update_grid (GridSettings.handleInput parsed axis (grid_models a)) a.

Definition on_toggle_mode (a : AppState) : AppState :=
  update_grid (GridSettings.toggleMode (grid_models a)) a.

(** [@click="showNumbers = !showNumbers"] *)
Definition on_toggle_numbers (a : AppState) : AppState :=
  mkApp (imageUrl a) (gridX a) (gridY a) (gridMode a)
    (negb (showNumbers a)) (selectedTile a)
    (imageName a) (isDragging a) (dragCounter a).

(** The props of the [ImageViewer], which is rendered only when there
    is an image url. *)
Definition viewer_props (a : AppState) : option ImageViewer.Props :=
  match imageUrl a with
  | Some url =>
      if String.eqb url "" then None
      else Some (ImageViewer.mkProps url (gridX a) (gridY a) (gridMode a)
                   (showNumbers a) (selectedTile a))
  | None => None
  end.

End App.

(** ** The viewport operations in the words of the design *)

Module Design.

Import ImageViewer.
Local Open Scope Q_scope.

(** [clamp(x, lo, hi)] *)
Definition clamp (x lo hi : Q) : Q := Qmax lo (Qmin hi x).

(** [toImageSpace]: [x = (screenX - offsetX) / scale]. *)
Definition toImageSpace (v : Viewer) (screenX screenY : Q) : Q * Q :=
  ((screenX - offsetX v) / scale v, (screenY - offsetY v) / scale v).

(** The render-time transform, image to screen: scale, then translate
    by the offset. *)
Definition toScreenSpace (v : Viewer) (x y : Q) : Q * Q :=
  (x * scale v + offsetX v, y * scale v + offsetY v).

(** [v'] is [v] after [zoomAt(px, py, f)]. *)
Definition zoomAt (px py f : Q) (v v' : Viewer) : Prop :=
  scale v' == clamp (scale v * f) MIN_SCALE MAX_SCALE /\
  offsetX v' == px - (px - offsetX v) * (scale v' / scale v) /\
  offsetY v' == py - (py - offsetY v) * (scale v' / scale v).

(** The image-space point under the screen point [(px, py)] in [v] is
    at [(px, py)] again in [v']. *)
Definition anchored (px py : Q) (v v' : Viewer) : Prop :=
  let p := toImageSpace v px py in
  let q := toScreenSpace v' (fst p) (snd p) in
  fst q == px /\ snd q == py /\
  fst (toImageSpace v' px py) == fst p /\
  snd (toImageSpace v' px py) == snd p.

(** Scale and offsets of [v'] are those of [v]. *)
Definition same_view (v v' : Viewer) : Prop :=
  scale v' == scale v /\ offsetX v' == offsetX v /\ offsetY v' == offsetY v.

(** The viewport invariant. *)
Definition scale_in_bounds (v : Viewer) : Prop :=
  MIN_SCALE <= scale v /\ scale v <= MAX_SCALE.

(** The inputs that run the fit-to-container reset. *)
Definition fits (i : Input) : bool :=
  match i with
  | ClickResetView | ImageLoaded _ => true
  | _ => false
  end.

(** [fitToContainer]'s scale:
    [min((containerWidth - padding) / imageWidth,
         (containerHeight - padding) / imageHeight, 1.0)]. *)
Definition fit_scale (containerWidth containerHeight imageWidth imageHeight
                      padding : Q) : Q :=
  Qmin (Qmin ((containerWidth - padding) / imageWidth)
             ((containerHeight - padding) / imageHeight)) 1.

(** A frame holds the hover highlight: it selects the highlight's fill. *)
Definition is_hover_fill (op : CanvasOp) : bool :=
  match op with
  | FillStyle s => String.eqb s hover_fill
  | _ => false
  end.

Definition paints_hover (f : Frame) : bool := existsb is_hover_fill f.

(** Nothing [draw] needs is missing: it paints a frame. *)
Definition draws (v : Viewer) : Prop :=
  exists canvas img container,
    canvasRef v = Some canvas /\ has_context2d canvas = true /\
    image v = Some img /\ containerRef v = Some container.

(** The press that starts a pan, as [handleMouseDown] tests it: the
    auxiliary button (code 1), or the primary button (code 0) with Shift
    held. *)
Definition pan_intent (e : MouseEvent) : Prop :=
  button e = 1%Z \/ (button e = 0%Z /\ shiftKey e = true).

(** A modifier key is held. *)
Definition modifier_held (e : MouseEvent) : bool :=
  shiftKey e || ctrlKey e || altKey e || metaKey e.

(** The pan-intent press in the words of the design: the secondary
    button (code 2), or the primary button with a modifier key held. *)
Definition stated_pan_intent (e : MouseEvent) : Prop :=
  button e = 2%Z \/ (button e = 0%Z /\ modifier_held e = true).

(** A release that qualifies for a selection: the primary button,
    Shift not held. *)
Definition plain_primary (e : MouseEvent) : Prop :=
  button e = 0%Z /\ shiftKey e = false.

End Design.

(** ** Sample sessions *)

Module Samples.

Import ImageViewer.
Local Open Scope Q_scope.

(** A 256 x 256 sheet, loaded, in an 800 x 600 container. *)
Definition sheet_256 (m : GridMode) (x y : Z) : Viewer :=
  mkViewer (mkProps "blob:sheet" x y m false None) 1
    (Some (mkDiv 800 600 (mkRect 0 0 800 600)))
    (Some (mkCanvas (mkRect 0 0 800 600) true))
    (Some (mkImage 256 256)) true 1 0 0 false 0 0 None.

(** A sheet whose image has no extent. *)
Definition empty_sheet (m : GridMode) (x y : Z) : Viewer :=
  mkViewer (mkProps "blob:empty" x y m false None) 1
    (Some (mkDiv 800 600 (mkRect 0 0 800 600)))
    (Some (mkCanvas (mkRect 0 0 800 600) true))
    (Some (mkImage 0 0)) true 1 0 0 false 0 0 None.

(** A 100 x 100 sheet cut into cells of 10 x 10, shown at twice its
    size, the image origin at (20, 30) of a canvas whose corner is at
    (5, 7) of the page. *)
Definition sheet_100 : Viewer :=
  mkViewer (mkProps "blob:sheet" 10 10 Size false None) 1
    (Some (mkDiv 800 600 (mkRect 5 7 800 600)))
    (Some (mkCanvas (mkRect 5 7 800 600) true))
    (Some (mkImage 100 100)) true 2 20 30 false 0 0 None.

(** A sheet of 8192 x 8192 pixels arrives in an 800 x 600 container. *)
Definition large_sheet_session : list Input :=
  [ ImageLoaded (mkImage 8192 8192) ].

Definition mounted : Viewer :=
  setup (mkProps "blob:sheet" 16 16 Size false None) 1
    (Some (mkDiv 800 600 (mkRect 0 0 800 600)))
    (Some (mkCanvas (mkRect 0 0 800 600) true)).

(** A 256 x 256 sheet loads; the pointer comes to rest over the first
    tile; a pan starts with Shift and the primary button and the
    pointer moves on. *)
Definition hover_then_pan : list Input :=
  [ ImageLoaded (mkImage 256 256);
    MouseMove (mkMouse 0 false 280 180 false false false);
    MouseDown (mkMouse 0 true 280 180 false false false);
    MouseMove (mkMouse 0 true 290 185 false false false) ].

(** The 100 x 100 sheet in the middle of a pan, the first tile hovered. *)
Definition panning_over_tile : Viewer :=
  mkViewer (mkProps "blob:sheet" 10 10 Size false None) 1
    (Some (mkDiv 800 600 (mkRect 5 7 800 600)))
    (Some (mkCanvas (mkRect 5 7 800 600) true))
    (Some (mkImage 100 100)) true 2 20 30 true 30 40 (Some 0%Z).

(** A sprite sheet dropped on the page, and a text file. *)
Definition hero_png : Browser.File :=
  Browser.mkFile "hero.walk.png" "image/png" "blob:hero".

Definition notes_txt : Browser.File :=
  Browser.mkFile "notes.txt" "text/plain" "blob:notes".

(** The application with an image and the tile (0, 1) selected. *)
Definition app_with_selection : App.AppState :=
  App.mkApp (Some "blob:old"%string) 16 16 Size false
    (Some (mkTile 1 0 1)) "old" false 0.

End Samples.

(** ** What a frame shows *)

Module Observations.

Import ImageViewer.
Local Open Scope Q_scope.

(** One stroked segment, as [draw] paints a grid line. *)
Definition stroke_segment (seg : (Q * Q) * (Q * Q)) : Frame :=
  [ BeginPath;
    MoveTo (fst (fst seg)) (snd (fst seg));
    LineTo (fst (snd seg)) (snd (snd seg));
    Stroke ].

(** The vertical line at column boundary [i] and the horizontal line at
    row boundary [j], across the image. *)
Definition vertical_line (v : Viewer) (i : Z) : (Q * Q) * (Q * Q) :=
  ((inject_Z i * cellWidth v, 0),
   (inject_Z i * cellWidth v, inject_Z (imageHeight v))).

Definition horizontal_line (v : Viewer) (j : Z) : (Q * Q) * (Q * Q) :=
  ((0, inject_Z j * cellHeight v),
   (inject_Z (imageWidth v), inject_Z j * cellHeight v)).

(** The rectangles a frame fills. *)
Definition fill_rects (f : Frame) : list (Q * Q * Q * Q) :=
  flat_map (fun op => match op with
                      | FillRect x y w h => [(x, y, w, h)]
                      | _ => []
                      end) f.

(** A full pan gesture: a press, pointer moves, a release. *)
Definition pan_gesture (press : MouseEvent) (moves : list MouseEvent)
    (release : MouseEvent) : list Input :=
  MouseDown press :: map MouseMove moves ++ [MouseUp release].

(** The inputs by which the parent replaces the props. *)
Definition from_parent (i : Input) : bool :=
  match i with
  | ImageUrlChanged _ | GridChanged _ _ _ _ _ | SelectionChanged _ => true
  | _ => false
  end.

(** The pointer releases among the inputs. *)
Definition is_release (i : Input) : bool :=
  match i with
  | MouseUp _ => true
  | _ => false
  end.

(** An image with extent: width and height are at least 1. *)
Definition proper_image (img : HTMLImageElement) : bool :=
  (1 <=? naturalWidth img)%Z && (1 <=? naturalHeight img)%Z.

(** The input loads no image without extent. *)
Definition loads_proper_image (i : Input) : bool :=
  match i with
  | ImageLoaded img => proper_image img
  | _ => true
  end.

(** The event loads no image without extent; a change of layout is any. *)
Definition event_loads_proper_image (e : Page.Event) : bool :=
  match e with
  | Page.Handle i => loads_proper_image i
  | Page.Relayout _ _ => true
  end.

(** A wheel tick, the window shrinks to 400 x 300, a zoom button. *)
Definition zoom_resize_zoom : list Page.Event :=
  [ Page.Handle (Wheel (mkWheel 45 37 (-1)));
    Page.Relayout (Some (mkDiv 400 300 (mkRect 0 0 400 300)))
                  (Some (mkCanvas (mkRect 0 0 400 300) true));
    Page.Handle Resize;
    Page.Handle ClickZoomIn ].

(** The inputs that install a new image. *)
Definition loads (i : Input) : bool :=
  match i with
  | ImageLoaded _ => true
  | _ => false
  end.

(** The application after a sprite sheet was dropped on the fresh page. *)
Definition app_after_drop : App.AppState :=
  App.handleDrop (Some [Samples.hero_png]) App.init.

(** The rectangles a frame fills, each with the fill style in force when
    it is filled; [cur] is the style in force at the start. *)
Fixpoint styled_rects (cur : string) (f : Frame)
  : list (string * (Q * Q * Q * Q)) :=
  match f with
  | [] => []
  | FillStyle s :: rest => styled_rects s rest
  | FillRect x y w h :: rest => (cur, (x, y, w, h)) :: styled_rects cur rest
  | _ :: rest => styled_rects cur rest
  end.

(** The numbers a frame writes with [fillText], each with the fill style
    in force. *)
Fixpoint styled_texts (cur : string) (f : Frame) : list (string * Z) :=
  match f with
  | [] => []
  | FillStyle s :: rest => styled_texts s rest
  | FillText n _ _ :: rest => (cur, n) :: styled_texts cur rest
  | _ :: rest => styled_texts cur rest
  end.

(** The fill style in force after a frame. *)
Fixpoint style_after (cur : string) (f : Frame) : string :=
  match f with
  | [] => cur
  | FillStyle s :: rest => style_after s rest
  | _ :: rest => style_after cur rest
  end.

(** The square of the checkerboard in column [i] and row [j]. *)
Definition check_square (i j : Z) : string * (Q * Q * Q * Q) :=
  (if (JS.rem (i + j) 2 =? 0)%Z then checker_light else background,
   (inject_Z (checkSize * i), inject_Z (checkSize * j),
    inject_Z checkSize, inject_Z checkSize)).

(** The number of steps of [step] it takes to cover [n]. *)
Definition steps_to_cover (n step : Z) : nat :=
  Z.to_nat ((n + step - 1) / step).

(** The 100 x 100 sheet with labels on and tile 1 selected. *)
Definition numbered_sheet : Viewer :=
  mkViewer (mkProps "blob:sheet" 10 10 Size true (Some (mkTile 1 0 1))) 1
    (Some (mkDiv 800 600 (mkRect 5 7 800 600)))
    (Some (mkCanvas (mkRect 5 7 800 600) true))
    (Some (mkImage 100 100)) true 2 20 30 false 0 0 None.

End Observations.

(** ** The application as a transition system *)

Module Session.

Import Browser.
Local Open Scope Z_scope.

Inductive Input :=
| DragEnter
| DragOver
| DragLeave
| Drop (files : option (list File))
| FileChange (files : option (list File))
| GridInput (parsed : option Z) (axis : GridSettings.Axis)
| ToggleMode
| ToggleNumbers
| TileClick (tile : ImageViewer.Tile).

Definition step (i : Input) (a : App.AppState) : App.AppState :=
  match i with
  | DragEnter => App.handleDragEnter a
  | DragOver => App.handleDragOver a
  | DragLeave => App.handleDragLeave a
  | Drop files => App.handleDrop files a
  | FileChange files => App.on_file_change files a
  | GridInput parsed axis => App.on_grid_input parsed axis a
  | ToggleMode => App.on_toggle_mode a
  | ToggleNumbers => App.on_toggle_numbers a
  | TileClick tile => App.handleTileClick tile a
  end.

Definition run (inputs : list Input) (a : App.AppState) : App.AppState :=
  fold_left (fun a i => step i a) inputs a.

(** The states the application can be in. *)
Definition reachable (a : App.AppState) : Prop :=
  exists inputs, a = run inputs App.init.

(** The grid inputs are within what the settings control admits. *)
Definition grid_in_range (a : App.AppState) : Prop :=
  1 <= App.gridX a <= 512 /\ 1 <= App.gridY a <= 512.

(** The drag overlay is shown exactly while a drag is over the page. *)
Definition drag_consistent (a : App.AppState) : Prop :=
  0 <= App.dragCounter a /\
  (App.isDragging a = true <-> 0 < App.dragCounter a).

(** An enter is never followed by more leaves than there were enters. *)
Fixpoint nested (depth : Z) (inputs : list Input) : bool :=
  match inputs with
  | [] => true
  | DragEnter :: rest => nested (depth + 1) rest
  | DragLeave :: rest => (0 <? depth) && nested (depth - 1) rest
  | Drop _ :: rest => nested 0 rest
  | _ :: rest => nested depth rest
  end.

(** The first file of a file list is an image. *)
Definition offers_image (files : option (list File)) : bool :=
  match files with
  | Some (file :: _) => startsWith (file_type file) "image/"
  | _ => false
  end.

End Session.

(** * Properties *)

Import JS ImageViewer Design Samples.
Local Open Scope Q_scope.

(** ** Arithmetic of the primitives *)

Section Primitives.

Lemma lt_spec a b : lt a b = true <-> a < b.
Proof.
  unfold lt. rewrite negb_true_iff.
  split; intro H.
  - apply Qnot_le_lt. intro L. apply Qle_bool_iff in L. congruence.
  - destruct (Qle_bool b a) eqn:E; [|reflexivity].
    apply Qle_bool_iff in E. exfalso. apply (Qlt_not_le _ _ H E).
Qed.

Lemma ge_spec a b : ge a b = true <-> b <= a.
Proof. unfold ge. apply Qle_bool_iff. Qed.

Lemma lt_false a b : lt a b = false <-> b <= a.
Proof. unfold lt. rewrite negb_false_iff. apply Qle_bool_iff. Qed.

Lemma ge_false a b : ge a b = false <-> a < b.
Proof.
  unfold ge. split; intro H.
  - apply Qnot_le_lt. intro L. apply Qle_bool_iff in L. congruence.
  - destruct (Qle_bool b a) eqn:E; [|reflexivity].
    apply Qle_bool_iff in E. exfalso. apply (Qlt_not_le _ _ H E).
Qed.

Lemma gt_spec a b : gt a b = true <-> b < a.
Proof. unfold gt. apply lt_spec. Qed.

Lemma gt_false a b : gt a b = false <-> a <= b.
Proof. unfold gt. apply lt_false. Qed.

(** [Math.floor] of a quotient of two integers is integer division. *)
Lemma floor_div (n m : Z) :
  Math_floor (inject_Z n / inject_Z m) = (n / m)%Z.
Proof. unfold Math_floor. symmetry. apply Zdiv_Qdiv. Qed.

Lemma floor_bounds (x : Q) :
  inject_Z (Math_floor x) <= x /\ x < inject_Z (Math_floor x + 1).
Proof. split; [apply Qfloor_le | apply Qlt_floor]. Qed.

(** The floor is the only integer [k] with [k <= x < k + 1]. *)
Lemma floor_unique (x : Q) (k : Z) :
  inject_Z k <= x -> x < inject_Z (k + 1) -> Math_floor x = k.
Proof.
  intros Hl Hu. destruct (floor_bounds x) as [Fl Fu].
  assert (A : inject_Z k < inject_Z (Math_floor x + 1))
    by (eapply Qle_lt_trans; eauto).
  assert (B : inject_Z (Math_floor x) < inject_Z (k + 1))
    by (eapply Qle_lt_trans; eauto).
  rewrite <- Zlt_Qlt in A, B. lia.
Qed.

Lemma or_else_max (n : Z) : (0 <= n)%Z -> or_else n 1 = Z.max 1 n.
Proof. unfold or_else. intro H. destruct (Z.eqb_spec n 0); lia. Qed.

Lemma or_else_zero (n : Z) : or_else n 0 = n.
Proof. unfold or_else. destruct (Z.eqb_spec n 0); congruence. Qed.

Lemma inject_Z_plus_1 (k : Z) : inject_Z (k + 1) == inject_Z k + 1.
Proof. rewrite inject_Z_plus. reflexivity. Qed.

End Primitives.

(** ** Grid geometry *)

Section Geometry.

Variable v : Viewer.

Let W := imageWidth v.
Let H := imageHeight v.
Let x := gridX (props v).
Let y := gridY (props v).

Lemma imageWidth_natural img :
  image v = Some img -> imageWidth v = naturalWidth img.
Proof. unfold imageWidth. intros ->. apply or_else_zero. Qed.

Lemma imageHeight_natural img :
  image v = Some img -> imageHeight v = naturalHeight img.
Proof. unfold imageHeight. intros ->. apply or_else_zero. Qed.

Lemma colCount_size :
  gridMode (props v) = Size -> colCount v = or_else (W / x) 1.
Proof. unfold colCount. intros ->. now rewrite floor_div. Qed.

Lemma rowCount_size :
  gridMode (props v) = Size -> rowCount v = or_else (H / y) 1.
Proof. unfold rowCount. intros ->. now rewrite floor_div. Qed.

(** Counts are positive and cells have a positive size as soon as the
    image and the configuration are. *)
Lemma colCount_pos : (1 <= W)%Z -> (1 <= x)%Z -> (1 <= colCount v)%Z.
Proof.
  intros HW Hx. unfold colCount. fold x W.
  destruct (gridMode (props v)); [|exact Hx].
  rewrite floor_div, or_else_max by (apply Z.div_pos; lia). lia.
Qed.

Lemma rowCount_pos : (1 <= H)%Z -> (1 <= y)%Z -> (1 <= rowCount v)%Z.
Proof.
  intros HH Hy. unfold rowCount. fold y H.
  destruct (gridMode (props v)); [|exact Hy].
  rewrite floor_div, or_else_max by (apply Z.div_pos; lia). lia.
Qed.

Lemma cellWidth_pos : (1 <= W)%Z -> (1 <= x)%Z -> 0 < cellWidth v.
Proof.
  intros HW Hx. unfold cellWidth. fold x W.
  assert (0 < inject_Z x) by (change 0 with (inject_Z 0); rewrite <- Zlt_Qlt; lia).
  assert (0 < inject_Z W) by (change 0 with (inject_Z 0); rewrite <- Zlt_Qlt; lia).
  destruct (gridMode (props v)); [assumption|].
  apply Qlt_shift_div_l; [assumption|]. now rewrite Qmult_0_l.
Qed.

Lemma cellHeight_pos : (1 <= H)%Z -> (1 <= y)%Z -> 0 < cellHeight v.
Proof.
  intros HH Hy. unfold cellHeight. fold y H.
  assert (0 < inject_Z y) by (change 0 with (inject_Z 0); rewrite <- Zlt_Qlt; lia).
  assert (0 < inject_Z H) by (change 0 with (inject_Z 0); rewrite <- Zlt_Qlt; lia).
  destruct (gridMode (props v)); [assumption|].
  apply Qlt_shift_div_l; [assumption|]. now rewrite Qmult_0_l.
Qed.

End Geometry.

(** C3.  For an image of width and height at least 1 and grid inputs at
    least 1, the derived geometry is: in SIZE mode the cells have the
    configured size and the counts are [max(1, floor(image / size))]; in
    COUNT mode the counts are the configured ones and the cells measure
    [image / count]. *)
Theorem geometry_spec (v : Viewer) (img : HTMLImageElement) :
  image v = Some img ->
  (1 <= naturalWidth img)%Z -> (1 <= naturalHeight img)%Z ->
  (1 <= gridX (props v))%Z -> (1 <= gridY (props v))%Z ->
  let imageW := inject_Z (naturalWidth img) in
  let imageH := inject_Z (naturalHeight img) in
  let x := inject_Z (gridX (props v)) in
  let y := inject_Z (gridY (props v)) in
  match gridMode (props v) with
  | Size =>
      cellWidth v = x /\ cellHeight v = y /\
      colCount v = Z.max 1 (Math_floor (imageW / x)) /\
      rowCount v = Z.max 1 (Math_floor (imageH / y))
  | Count =>
      colCount v = gridX (props v) /\ rowCount v = gridY (props v) /\
      cellWidth v = imageW / inject_Z (colCount v) /\
      cellHeight v = imageH / inject_Z (rowCount v)
  end.
Proof.
  intros Himg HW HH Hx Hy. cbv zeta.
  unfold cellWidth, cellHeight, colCount, rowCount.
  rewrite (imageWidth_natural v Himg), (imageHeight_natural v Himg).
  destruct (gridMode (props v)).
  - rewrite !floor_div.
    rewrite !or_else_max by (apply Z.div_pos; lia).
    repeat split; reflexivity.
  - repeat split; reflexivity.
Qed.

Lemma geometry_spec_witness :
  (1 <= naturalWidth (mkImage 256 256))%Z /\
  (1 <= gridX (props (sheet_256 Size 32 32)))%Z /\
  cellWidth (sheet_256 Size 32 32) = 32 /\
  colCount (sheet_256 Size 32 32) = 8%Z /\
  rowCount (sheet_256 Size 32 32) = 8%Z.
Proof.
  assert (L : (1 <= 256)%Z /\ (1 <= 32)%Z) by lia.
  destruct L as [L256 L32].
  pose proof (@geometry_spec (sheet_256 Size 32 32) (mkImage 256 256)
                eq_refl L256 L256 L32 L32) as S.
  cbv zeta in S. simpl gridMode in S.
  destruct S as (Sw & _ & Sc & Sr).
  split; [exact L256|]. split; [exact L32|].
  split; [|split].
  - rewrite Sw. reflexivity.
  - rewrite Sc. reflexivity.
  - rewrite Sr. reflexivity.
Defined.

(** On an image without extent the two modes part: SIZE mode keeps the
    configured cell and falls back on one column, COUNT mode keeps the
    configured count and has cells of no extent. *)
Section ZeroImage.

Variable v : Viewer.

Lemma zero_width_size :
  imageWidth v = 0%Z -> gridMode (props v) = Size ->
  colCount v = 1%Z /\ cellWidth v = inject_Z (gridX (props v)).
Proof.
  intros HW Hm. unfold colCount, cellWidth. rewrite Hm, HW.
  rewrite floor_div. split; reflexivity.
Qed.

Lemma zero_height_size :
  imageHeight v = 0%Z -> gridMode (props v) = Size ->
  rowCount v = 1%Z /\ cellHeight v = inject_Z (gridY (props v)).
Proof.
  intros HH Hm. unfold rowCount, cellHeight. rewrite Hm, HH.
  rewrite floor_div. split; reflexivity.
Qed.

Lemma zero_width_count :
  imageWidth v = 0%Z -> gridMode (props v) = Count ->
  colCount v = gridX (props v) /\ cellWidth v == 0.
Proof.
  intros HW Hm. unfold colCount, cellWidth. rewrite Hm, HW.
  split; [reflexivity|]. unfold Qdiv. apply Qmult_0_l.
Qed.

Lemma zero_height_count :
  imageHeight v = 0%Z -> gridMode (props v) = Count ->
  rowCount v = gridY (props v) /\ cellHeight v == 0.
Proof.
  intros HH Hm. unfold rowCount, cellHeight. rewrite Hm, HH.
  split; [reflexivity|]. unfold Qdiv. apply Qmult_0_l.
Qed.

End ZeroImage.

(** C6, as the component computes it.  With grid inputs at least 1 the
    geometry of an image with a zero dimension is defined (every computed
    property is a total function), and along a dimension of extent zero:
    in SIZE mode there is one column (one row), of the configured cell
    size, which is not zero; in COUNT mode there is the configured number
    of columns (rows), of cells of extent zero. *)
Theorem zero_image_geometry (v : Viewer) :
  (1 <= gridX (props v))%Z -> (1 <= gridY (props v))%Z ->
  (imageWidth v = 0%Z ->
     match gridMode (props v) with
     | Size => colCount v = 1%Z /\
               cellWidth v = inject_Z (gridX (props v)) /\ 0 < cellWidth v
     | Count => colCount v = gridX (props v) /\ cellWidth v == 0
     end) /\
  (imageHeight v = 0%Z ->
     match gridMode (props v) with
     | Size => rowCount v = 1%Z /\
               cellHeight v = inject_Z (gridY (props v)) /\ 0 < cellHeight v
     | Count => rowCount v = gridY (props v) /\ cellHeight v == 0
     end).
Proof.
  intros Hx Hy. split; intro Hz; destruct (gridMode (props v)) eqn:Hm.
  - destruct (zero_width_size v Hz Hm) as [Hc Hcw]. rewrite Hcw.
    repeat split; try assumption.
    change 0 with (inject_Z 0). rewrite <- Zlt_Qlt. lia.
  - apply zero_width_count; assumption.
  - destruct (zero_height_size v Hz Hm) as [Hr Hch]. rewrite Hch.
    repeat split; try assumption.
    change 0 with (inject_Z 0). rewrite <- Zlt_Qlt. lia.
  - apply zero_height_count; assumption.
Qed.

Lemma zero_image_geometry_witness :
  (1 <= gridX (props (empty_sheet Count 4 3)))%Z /\
  imageWidth (empty_sheet Count 4 3) = 0%Z /\
  colCount (empty_sheet Count 4 3) = 4%Z /\
  cellWidth (empty_sheet Count 4 3) == 0.
Proof.
  assert (L : (1 <= 4)%Z /\ (1 <= 3)%Z) by lia.
  destruct L as [L4 L3].
  destruct (@zero_image_geometry (empty_sheet Count 4 3) L4 L3) as (G & _).
  specialize (G eq_refl). simpl gridMode in G. destruct G as (Gc & Gw).
  split; [exact L4|]. split; [reflexivity|].
  split; [exact Gc|exact Gw].
Defined.

(** C6 as stated fails in both modes: in SIZE mode the cells keep the
    configured size, in COUNT mode the counts keep the configured
    value. *)
Lemma zero_image_counterexample :
  (* SIZE mode, 16 x 16 cells *)
  (imageWidth (empty_sheet Size 16 16) = 0%Z /\
   imageHeight (empty_sheet Size 16 16) = 0%Z /\
   cellWidth (empty_sheet Size 16 16) = 16 /\
   ~ cellWidth (empty_sheet Size 16 16) == 0) /\
  (* COUNT mode, 4 x 3 cells *)
  (imageWidth (empty_sheet Count 4 3) = 0%Z /\
   imageHeight (empty_sheet Count 4 3) = 0%Z /\
   colCount (empty_sheet Count 4 3) = 4%Z /\
   rowCount (empty_sheet Count 4 3) = 3%Z /\
   colCount (empty_sheet Count 4 3) <> 1%Z).
Proof.
  split.
  - repeat split; try reflexivity. intro E. discriminate E.
  - repeat split; try reflexivity. intro E. discriminate E.
Qed.

(** ** Tile addressing *)

Section Addressing.

Variable cols : Z.
Hypothesis cols_pos : (1 <= cols)%Z.

Lemma indexToRowCol_div_mod (i : Z) :
  (0 <= i)%Z -> indexToRowCol i cols = ((i / cols)%Z, (i mod cols)%Z).
Proof.
  intro Hi. unfold indexToRowCol, rem.
  rewrite floor_div, Z.rem_mod_nonneg by lia. reflexivity.
Qed.

Lemma rowColToIndex_nonneg (r c : Z) :
  (0 <= r)%Z -> (0 <= c)%Z -> (0 <= rowColToIndex r c cols)%Z.
Proof. unfold rowColToIndex. nia. Qed.

Lemma rowColToIndex_bound (rows r c : Z) :
  (0 <= r < rows)%Z -> (0 <= c < cols)%Z ->
  (rowColToIndex r c cols < cols * rows)%Z.
Proof. unfold rowColToIndex. nia. Qed.

Lemma index_round_trip (r c : Z) :
  (0 <= r)%Z -> (0 <= c < cols)%Z ->
  indexToRowCol (rowColToIndex r c cols) cols = (r, c).
Proof.
  intros Hr Hc.
  rewrite indexToRowCol_div_mod by (apply rowColToIndex_nonneg; lia).
  unfold rowColToIndex. f_equal.
  - symmetry. apply Z.div_unique with (r := c); lia.
  - symmetry. apply Z.mod_unique with (q := r); lia.
Qed.

Lemma rowCol_round_trip (rows i : Z) :
  (0 <= i < cols * rows)%Z ->
  let rc := indexToRowCol i cols in
  (0 <= fst rc < rows)%Z /\ (0 <= snd rc < cols)%Z /\
  rowColToIndex (fst rc) (snd rc) cols = i.
Proof.
  intros Hi. rewrite indexToRowCol_div_mod by lia. cbn [fst snd].
  pose proof (Z.div_mod i cols ltac:(lia)) as E.
  pose proof (Z.mod_pos_bound i cols ltac:(lia)) as M.
  assert (0 <= i / cols)%Z by (apply Z.div_pos; lia).
  assert (i / cols < rows)%Z by (apply Z.div_lt_upper_bound; lia).
  unfold rowColToIndex. repeat split; lia.
Qed.

Lemma rowColToIndex_injective (r c r' c' : Z) :
  (0 <= r)%Z -> (0 <= c < cols)%Z -> (0 <= r')%Z -> (0 <= c' < cols)%Z ->
  rowColToIndex r c cols = rowColToIndex r' c' cols -> r = r' /\ c = c'.
Proof.
  intros Hr Hc Hr' Hc' E.
  pose proof (index_round_trip Hr Hc) as A.
  pose proof (index_round_trip Hr' Hc') as B.
  rewrite E in A. rewrite A in B. inversion B. auto.
Qed.

End Addressing.

(** The two conversions are the ones the component computes: a hit
    carries [rowColToIndex], the hover rectangle is placed by
    [indexToRowCol]. *)
Lemma getTileAtPosition_index (v : Viewer) (x y : Q) (t : Tile) :
  getTileAtPosition v x y = Some t ->
  index t = rowColToIndex (row t) (col t) (colCount v).
Proof.
  unfold getTileAtPosition.
  destruct (_ || _ || _ || _); [discriminate|].
  destruct (_ || _); [discriminate|].
  intro E. inversion E. reflexivity.
Qed.

Lemma draw_hovered_rect (v : Viewer) (i : Z) :
  hoveredTile v = Some i ->
  let rc := indexToRowCol i (colCount v) in
  draw_hovered v =
    [ FillStyle hover_fill;
      FillRect (inject_Z (snd rc) * cellWidth v)
               (inject_Z (fst rc) * cellHeight v)
               (cellWidth v) (cellHeight v) ].
Proof. unfold draw_hovered. intros ->. reflexivity. Qed.

(** ** The loops of [draw] *)

Section Loops.

Lemma for_loop_count_up (fuel : nat) (i n : Z) :
  (Z.to_nat (n - i) <= fuel)%nat ->
  for_loop fuel i n 1 = count_up i (Z.to_nat (n - i)).
Proof.
  revert i. induction fuel as [|fuel IH]; intros i Hf.
  - replace (Z.to_nat (n - i)) with O by lia. reflexivity.
  - cbn [for_loop]. destruct (Z.ltb_spec i n) as [Hlt|Hge].
    + replace (Z.to_nat (n - i)) with (S (Z.to_nat (n - (i + 1)))) by lia.
      cbn [count_up]. f_equal. apply IH. lia.
    + replace (Z.to_nat (n - i)) with O by lia. reflexivity.
Qed.

Lemma for_range_count_up (n : Z) :
  for_range n 1 = count_up 0 (Z.to_nat n).
Proof.
  unfold for_range. rewrite for_loop_count_up by lia.
  now rewrite Z.sub_0_r.
Qed.

Lemma count_up_length (from : Z) (len : nat) :
  List.length (count_up from len) = len.
Proof.
  revert from. induction len as [|len IH]; intro from; cbn; [|rewrite IH];
    reflexivity.
Qed.

Lemma count_up_In (from : Z) (len : nat) (i : Z) :
  In i (count_up from len) <-> (from <= i < from + Z.of_nat len)%Z.
Proof.
  revert from. induction len as [|len IH]; intro from; cbn [count_up In].
  - lia.
  - rewrite IH. lia.
Qed.

Lemma count_up_NoDup (from : Z) (len : nat) : NoDup (count_up from len).
Proof.
  revert from. induction len as [|len IH]; intro from; cbn [count_up].
  - constructor.
  - constructor; [|apply IH]. rewrite count_up_In. lia.
Qed.

Lemma count_up_app (from : Z) (a b : nat) :
  count_up from (a + b) = count_up from a ++ count_up (from + Z.of_nat a) b.
Proof.
  revert from. induction a as [|a IH]; intro from.
  - cbn. now rewrite Z.add_0_r.
  - cbn [Nat.add count_up app]. f_equal. rewrite IH. do 2 f_equal. lia.
Qed.

Lemma count_up_shift (b from : Z) (len : nat) :
  map (fun c => (b + c)%Z) (count_up from len) = count_up (b + from) len.
Proof.
  revert from. induction len as [|len IH]; intro from; [reflexivity|].
  cbn [count_up map]. f_equal. rewrite IH. f_equal. lia.
Qed.

End Loops.

(** ** The index labels *)

Section Labels.

Variable v : Viewer.

Let label_x (c : Z) : Q := inject_Z c * cellWidth v + cellWidth v / 2.
Let label_y (r : Z) : Q := inject_Z r * cellHeight v + cellHeight v / 2.

Lemma fill_texts_app (f g : Frame) :
  fill_texts (f ++ g) = fill_texts f ++ fill_texts g.
Proof. unfold fill_texts. apply flat_map_app. Qed.

(** One row: the counter advances by one per column. *)
Lemma draw_label_row_texts (r c0 : Z) (k : nat) (i0 : Z) :
  fill_texts (fst (draw_label_row v r (count_up c0 k) i0))
    = map (fun c => ((i0 + (c - c0))%Z, label_x c, label_y r)) (count_up c0 k)
  /\ snd (draw_label_row v r (count_up c0 k) i0) = (i0 + Z.of_nat k)%Z.
Proof.
  revert c0 i0. induction k as [|k IH]; intros c0 i0.
  - cbn. split; [reflexivity|lia].
  - cbn [count_up draw_label_row].
    destruct (IH (c0 + 1)%Z (i0 + 1)%Z) as [IHt IHs].
    destruct (draw_label_row v r (count_up (c0 + 1) k) (i0 + 1)) as [rest i1].
    cbn [fst snd] in *. split; [|lia].
    cbn [app fill_texts flat_map map]. fold (fill_texts rest).
    rewrite IHt. f_equal.
    + replace (i0 + (c0 - c0))%Z with i0 by lia. reflexivity.
    + apply map_ext. intro c.
      replace (i0 + 1 + (c - (c0 + 1)))%Z with (i0 + (c - c0))%Z by lia.
      reflexivity.
Qed.

(** All rows: the counter enters row [r] at [r * cols]. *)
Lemma draw_label_rows_texts (cols : nat) (r0 : Z) (k : nat) :
  colCount v = Z.of_nat cols ->
  fill_texts (fst (draw_label_rows v (count_up r0 k) (r0 * colCount v)))
    = flat_map (fun r =>
        map (fun c => (rowColToIndex r c (colCount v), label_x c, label_y r))
            (count_up 0 cols))
        (count_up r0 k).
Proof.
  intro Hc. revert r0. induction k as [|k IH]; intro r0.
  - reflexivity.
  - cbn [count_up draw_label_rows flat_map].
    rewrite for_range_count_up, Hc, Nat2Z.id.
    destruct (draw_label_row_texts r0 0 cols (r0 * Z.of_nat cols)) as [Rt Rs].
    destruct (draw_label_row v r0 (count_up 0 cols) (r0 * Z.of_nat cols))
      as [ops i1].
    cbn [fst snd] in Rt, Rs. subst i1.
    specialize (IH (r0 + 1)%Z). rewrite Hc in IH.
    replace ((r0 + 1) * Z.of_nat cols)%Z
      with (r0 * Z.of_nat cols + Z.of_nat cols)%Z in IH by lia.
    destruct (draw_label_rows v (count_up (r0 + 1) k)
                (r0 * Z.of_nat cols + Z.of_nat cols)) as [rest i2].
    cbn [fst] in *. rewrite fill_texts_app, Rt, IH. f_equal.
    apply map_ext. intro c. unfold rowColToIndex.
    replace (c - 0)%Z with c by lia. reflexivity.
Qed.

(** With labels on, [draw] numbers the cells row by row: the cell in
    row [r] and column [c] carries [rowColToIndex r c]. *)
Lemma draw_numbers_texts :
  showNumbers (props v) = true -> (0 <= colCount v)%Z ->
  fill_texts (draw_numbers v)
    = flat_map (fun r =>
        map (fun c => (rowColToIndex r c (colCount v), label_x c, label_y r))
            (count_up 0 (Z.to_nat (colCount v))))
        (count_up 0 (Z.to_nat (rowCount v))).
Proof.
  intros Hn Hc. unfold draw_numbers. rewrite Hn.
  rewrite fill_texts_app. cbn [fill_texts flat_map app].
  fold (fill_texts (fst (draw_label_rows v (for_range (rowCount v) 1) 0))).
  rewrite for_range_count_up.
  pose proof (@draw_label_rows_texts (Z.to_nat (colCount v)) 0
                (Z.to_nat (rowCount v))) as L.
  rewrite Z.mul_0_l in L. apply L. lia.
Qed.

(** The numbers written are [0, 1, ..., colCount * rowCount - 1], in
    this order. *)
Lemma draw_numbers_indices :
  showNumbers (props v) = true ->
  (0 <= colCount v)%Z -> (0 <= rowCount v)%Z ->
  map (fun t => fst (fst t)) (fill_texts (draw_numbers v))
    = count_up 0 (Z.to_nat (totalCells v)).
Proof.
  intros Hn Hc Hr. rewrite draw_numbers_texts by assumption.
  unfold totalCells.
  replace (Z.to_nat (colCount v * rowCount v))
    with (Z.to_nat (rowCount v) * Z.to_nat (colCount v))%nat by lia.
  set (cols := Z.to_nat (colCount v)).
  assert (Ec : colCount v = Z.of_nat cols) by (subst cols; lia).
  rewrite Ec. clear Ec.
  generalize (Z.to_nat (rowCount v)) as rows. intro rows.
  assert (G : forall r0,
    map (fun t : Z * Q * Q => fst (fst t))
      (flat_map (fun r =>
         map (fun c => (rowColToIndex r c (Z.of_nat cols), label_x c, label_y r))
             (count_up 0 cols))
         (count_up r0 rows))
    = count_up (r0 * Z.of_nat cols) (rows * cols)).
  { induction rows as [|rows IH]; intro r0; [reflexivity|].
    cbn [count_up flat_map Nat.mul]. rewrite map_app, IH, count_up_app.
    f_equal.
    - rewrite map_map. cbn [fst]. unfold rowColToIndex.
      rewrite count_up_shift. now rewrite Z.add_0_r.
    - f_equal. lia. }
  specialize (G 0%Z). rewrite Z.mul_0_l in G. exact G.
Qed.

End Labels.

(** ** Hit testing *)

Section HitTest.

Variable v : Viewer.

Let W := inject_Z (imageWidth v).
Let H := inject_Z (imageHeight v).

Lemma getTileAtPosition_outside (x y : Q) :
  x < 0 \/ y < 0 \/ W <= x \/ H <= y -> getTileAtPosition v x y = None.
Proof.
  intro O. unfold getTileAtPosition.
  assert (E : lt x 0 || lt y 0 || ge x W || ge y H = true).
  { rewrite !orb_true_iff, !lt_spec, !ge_spec. tauto. }
  subst W H. now rewrite E.
Qed.

Lemma getTileAtPosition_beyond (x y : Q) :
  (colCount v <= Math_floor (x / cellWidth v))%Z \/
  (rowCount v <= Math_floor (y / cellHeight v))%Z ->
  getTileAtPosition v x y = None.
Proof.
  intro B. unfold getTileAtPosition.
  destruct (_ || _ || _ || _); [reflexivity|].
  assert (E : (Math_floor (x / cellWidth v) >=? colCount v)%Z
              || (Math_floor (y / cellHeight v) >=? rowCount v)%Z = true).
  { rewrite orb_true_iff, !Z.geb_le. exact B. }
  now rewrite E.
Qed.

Lemma getTileAtPosition_hit (x y : Q) :
  0 <= x -> x < W -> 0 <= y -> y < H ->
  (Math_floor (x / cellWidth v) < colCount v)%Z ->
  (Math_floor (y / cellHeight v) < rowCount v)%Z ->
  getTileAtPosition v x y =
    Some (mkTile (Math_floor (y / cellHeight v) * colCount v
                  + Math_floor (x / cellWidth v))
                 (Math_floor (y / cellHeight v))
                 (Math_floor (x / cellWidth v))).
Proof.
  intros X0 XW Y0 YH C R. unfold getTileAtPosition.
  assert (E : lt x 0 || lt y 0 || ge x W || ge y H = false).
  { rewrite !orb_false_iff, !lt_false, !ge_false. tauto. }
  subst W H. rewrite E.
  assert (F : (Math_floor (x / cellWidth v) >=? colCount v)%Z
              || (Math_floor (y / cellHeight v) >=? rowCount v)%Z = false).
  { rewrite orb_false_iff, !Z.geb_leb, !Z.leb_gt. split; assumption. }
  rewrite F. reflexivity.
Qed.

(** What a positive hit tells. *)
Lemma getTileAtPosition_Some (x y : Q) (t : Tile) :
  getTileAtPosition v x y = Some t ->
  (0 <= x /\ x < W) /\ (0 <= y /\ y < H) /\
  col t = Math_floor (x / cellWidth v) /\
  row t = Math_floor (y / cellHeight v) /\
  index t = (row t * colCount v + col t)%Z /\
  (col t < colCount v)%Z /\ (row t < rowCount v)%Z.
Proof.
  unfold getTileAtPosition. fold W H.
  destruct (lt x 0 || lt y 0 || ge x W || ge y H) eqn:E; [discriminate|].
  rewrite !orb_false_iff, !lt_false, !ge_false in E.
  destruct ((_ >=? _)%Z || _) eqn:F; [discriminate|].
  rewrite orb_false_iff, !Z.geb_leb, !Z.leb_gt in F.
  intro S. inversion S; subst t; cbn [index row col].
  unfold rowColToIndex. tauto.
Qed.

(** A cell of positive size holds the points whose quotient has the
    cell's number as floor, and only those. *)
Lemma floor_cell (x size : Q) :
  0 < size ->
  inject_Z (Math_floor (x / size)) * size <= x /\
  x < inject_Z (Math_floor (x / size) + 1) * size.
Proof.
  intro P. destruct (floor_bounds (x / size)) as [L U].
  assert (N : ~ size == 0) by (intro Z; rewrite Z in P; discriminate).
  split.
  - apply (Qmult_le_r _ _ size P) in L.
    rewrite Qmult_comm with (x := x / size), Qmult_div_r in L; assumption.
  - apply (Qmult_lt_r _ _ size P) in U.
    rewrite Qmult_comm with (x := x / size), Qmult_div_r in U; assumption.
Qed.

Lemma cell_floor (x size : Q) (k : Z) :
  0 < size ->
  inject_Z k * size <= x -> x < inject_Z (k + 1) * size ->
  Math_floor (x / size) = k.
Proof.
  intros P L U. apply floor_unique.
  - apply Qle_shift_div_l; assumption.
  - apply Qlt_shift_div_r; assumption.
Qed.

Lemma floor_nonneg (x size : Q) :
  0 < size -> 0 <= x -> (0 <= Math_floor (x / size))%Z.
Proof.
  intros P X. change 0%Z with (Math_floor (inject_Z 0)).
  - apply Qfloor_resp_le. apply Qle_shift_div_l; [assumption|].
    now rewrite Qmult_0_l.
Qed.

End HitTest.

(** The hover pass of [draw] paints the cell of row [r] and column [c]
    when the hovered index is [r * colCount + c]. *)
Lemma draw_hovered_cell (v : Viewer) (r c : Z) :
  (1 <= colCount v)%Z -> (0 <= r)%Z -> (0 <= c < colCount v)%Z ->
  draw_hovered (set_hoveredTile (Some (rowColToIndex r c (colCount v))) v) =
    [ FillStyle hover_fill;
      FillRect (inject_Z c * cellWidth v) (inject_Z r * cellHeight v)
               (cellWidth v) (cellHeight v) ].
Proof.
  intros Hc Hr Rc.
  pose proof (@draw_hovered_rect
                (set_hoveredTile (Some (rowColToIndex r c (colCount v))) v)
                _ eq_refl) as D.
  cbv zeta in D. rewrite D.
  change (colCount (set_hoveredTile (Some (rowColToIndex r c (colCount v))) v))
    with (colCount v).
  rewrite index_round_trip by lia. reflexivity.
Qed.

(** C4.  In a grid of [cols >= 1] columns and [rows >= 1] rows every cell
    has an index [row * cols + col] in [[0, cols * rows)], no two cells
    share an index, every index in range belongs to a cell, and converting
    a cell to its index and back by [(floor(index / cols), index mod cols)]
    recovers the cell.  This is the addressing of the component, when
    its grid inputs are at least 1 and its grid has [colCount = cols] and
    [rowCount = rows]: every tile that
    [getTileAtPosition] answers is a cell of the grid and carries the
    index [row * colCount + col], which is in range; from the index of a
    cell, the hover pass of [draw] recovers its row and column and fills
    the rectangle of that cell, so also for every tile the hit test
    answered; and the label pass of [draw] numbers exactly these
    [cols * rows] tiles, row by row from zero. *)
Theorem tile_index_bijection (cols rows : Z) :
  (1 <= cols)%Z -> (1 <= rows)%Z ->
  (forall r c, (0 <= r < rows)%Z -> (0 <= c < cols)%Z ->
     (0 <= rowColToIndex r c cols < cols * rows)%Z /\
     indexToRowCol (rowColToIndex r c cols) cols = (r, c)) /\
  (forall r c r' c',
     (0 <= r < rows)%Z -> (0 <= c < cols)%Z ->
     (0 <= r' < rows)%Z -> (0 <= c' < cols)%Z ->
     rowColToIndex r c cols = rowColToIndex r' c' cols -> r = r' /\ c = c') /\
  (forall i, (0 <= i < cols * rows)%Z ->
     let rc := indexToRowCol i cols in
     (0 <= fst rc < rows)%Z /\ (0 <= snd rc < cols)%Z /\
     rowColToIndex (fst rc) (snd rc) cols = i) /\
  (forall v, (1 <= gridX (props v))%Z -> (1 <= gridY (props v))%Z ->
     colCount v = cols -> rowCount v = rows ->
     let cell r c :=
       [ FillStyle hover_fill;
         FillRect (inject_Z c * cellWidth v) (inject_Z r * cellHeight v)
                  (cellWidth v) (cellHeight v) ] in
     (* the hit test *)
     (forall x y t, getTileAtPosition v x y = Some t ->
        (0 <= row t < rows)%Z /\ (0 <= col t < cols)%Z /\
        index t = rowColToIndex (row t) (col t) cols /\
        (0 <= index t < cols * rows)%Z /\
        indexToRowCol (index t) cols = (row t, col t) /\
        draw_hovered (set_hoveredTile (Some (index t)) v)
          = cell (row t) (col t)) /\
     (* the hover pass *)
     (forall r c, (0 <= r < rows)%Z -> (0 <= c < cols)%Z ->
        draw_hovered (set_hoveredTile (Some (rowColToIndex r c cols)) v)
          = cell r c) /\
     (* the label pass *)
     (showNumbers (props v) = true ->
      let numbers :=
        map (fun t => fst (fst t)) (fill_texts (draw_numbers v)) in
      numbers = count_up 0 (Z.to_nat (cols * rows)) /\
      List.length numbers = Z.to_nat (cols * rows) /\
      NoDup numbers /\
      (forall i, In i numbers <-> (0 <= i < cols * rows)%Z))).
Proof.
  intros Hc Hr. split; [|split; [|split]].
  - intros r c Rr Rc. split; [split|].
    + apply rowColToIndex_nonneg; lia.
    + apply rowColToIndex_bound; assumption.
    + apply index_round_trip; lia.
  - intros r c r' c' Rr Rc Rr' Rc'.
    apply rowColToIndex_injective; lia.
  - intros i Ri. apply rowCol_round_trip; assumption.
  - intros v Gx Gy Ec Er cell. subst cell. cbv beta.
    assert (Hover : forall r c, (0 <= r < rows)%Z -> (0 <= c < cols)%Z ->
              draw_hovered (set_hoveredTile (Some (rowColToIndex r c cols)) v)
              = [ FillStyle hover_fill;
                  FillRect (inject_Z c * cellWidth v)
                           (inject_Z r * cellHeight v)
                           (cellWidth v) (cellHeight v) ]).
    { intros r c Rr Rc. rewrite <- Ec. apply draw_hovered_cell; lia. }
    split; [|split].
    + intros x y t S.
      destruct (getTileAtPosition_Some v x y S)
        as ((X0 & XW) & (Y0 & YH) & Ecol & Erow & Ei & C & R).
      assert (Hcw : 0 < cellWidth v).
      { apply cellWidth_pos; [|exact Gx].
        assert (L : inject_Z 0 < inject_Z (imageWidth v))
          by (eapply Qle_lt_trans; [exact X0|exact XW]).
        rewrite <- Zlt_Qlt in L. lia. }
      assert (Hch : 0 < cellHeight v).
      { apply cellHeight_pos; [|exact Gy].
        assert (L : inject_Z 0 < inject_Z (imageHeight v))
          by (eapply Qle_lt_trans; [exact Y0|exact YH]).
        rewrite <- Zlt_Qlt in L. lia. }
      pose proof (@floor_nonneg x _ Hcw X0) as C0. rewrite <- Ecol in C0.
      pose proof (@floor_nonneg y _ Hch Y0) as R0. rewrite <- Erow in R0.
      rewrite Ec in Ei, C. rewrite Er in R.
      assert (Rr : (0 <= row t < rows)%Z) by lia.
      assert (Rc : (0 <= col t < cols)%Z) by lia.
      assert (Ei' : index t = rowColToIndex (row t) (col t) cols)
        by exact Ei.
      split; [exact Rr|]. split; [exact Rc|]. split; [exact Ei'|].
      split; [rewrite Ei'; split;
              [apply rowColToIndex_nonneg; lia
              |apply rowColToIndex_bound; assumption]|].
      split; [rewrite Ei'; apply index_round_trip; lia|].
      rewrite Ei'. apply Hover; assumption.
    + exact Hover.
    + intros Hn numbers.
      assert (E : numbers = count_up 0 (Z.to_nat (cols * rows))).
      { subst numbers. rewrite draw_numbers_indices by (assumption || lia).
        unfold totalCells. now rewrite Ec, Er. }
      rewrite E. split; [reflexivity|]. split; [apply count_up_length|].
      split; [apply count_up_NoDup|].
      intro i. rewrite count_up_In. nia.
Qed.

Lemma tile_index_bijection_witness :
  (1 <= colCount sheet_100)%Z /\ (1 <= rowCount sheet_100)%Z /\
  getTileAtPosition sheet_100 25 40 = Some (mkTile 42 4 2) /\
  draw_hovered (set_hoveredTile (Some 42%Z) sheet_100)
    = [ FillStyle hover_fill; FillRect 20 40 10 10 ] /\
  indexToRowCol (rowColToIndex 4 2 10) 10 = (4%Z, 2%Z).
Proof.
  assert (L : (1 <= 10)%Z) by lia.
  assert (S : getTileAtPosition sheet_100 25 40 = Some (mkTile 42 4 2))
    by (vm_compute; reflexivity).
  destruct (@tile_index_bijection 10 10 L L) as (A & _ & _ & B).
  destruct (B sheet_100 L L eq_refl eq_refl) as (Hit & _ & _).
  destruct (Hit 25 40 (mkTile 42 4 2) S) as (_ & _ & _ & _ & _ & D).
  split; [exact L|]. split; [exact L|]. split; [exact S|].
  split; [exact D|].
  apply (A 4%Z 2%Z); lia.
Defined.

Lemma hitTest_image_space (v : Viewer) (canvas : HTMLCanvasElement)
    (clientX clientY : Q) :
  canvasRef v = Some canvas ->
  hitTest v clientX clientY =
    getTileAtPosition v
      ((clientX - rect_left (canvas_rect canvas) - offsetX v) / scale v)
      ((clientY - rect_top (canvas_rect canvas) - offsetY v) / scale v).
Proof. unfold hitTest, screenToImage. intros ->. reflexivity. Qed.

(** C1.  A pointer at [(clientX, clientY)] is at the screen point
    [(screenX, screenY)] of the canvas, the page position less the
    canvas corner, and over the image-space point
    [((screenX - offsetX) / scale, (screenY - offsetY) / scale)].  The hit
    test answers null when that point lies outside
    [[0, imageW) x [0, imageH)], or when [floor(x / cellWidth) >= colCount]
    or [floor(y / cellHeight) >= rowCount]; otherwise it answers the tile
    [{index: row * colCount + col, row: floor(y / cellHeight),
      col: floor(x / cellWidth)}].  A hit names the one cell whose
    half-open rectangle holds the point, so a point on the boundary
    [x = k * cellWidth] belongs to column [k]: with [cellWidth = 10],
    [x = 10] lies in column 1. *)
Theorem hit_test_spec (v : Viewer) (canvas : HTMLCanvasElement)
    (clientX clientY : Q) :
  canvasRef v = Some canvas ->
  0 < scale v -> 0 < cellWidth v -> 0 < cellHeight v ->
  (1 <= colCount v)%Z -> (1 <= rowCount v)%Z ->
  let screenX := clientX - rect_left (canvas_rect canvas) in
  let screenY := clientY - rect_top (canvas_rect canvas) in
  let x := (screenX - offsetX v) / scale v in
  let y := (screenY - offsetY v) / scale v in
  let imageW := inject_Z (imageWidth v) in
  let imageH := inject_Z (imageHeight v) in
  let c := Math_floor (x / cellWidth v) in
  let r := Math_floor (y / cellHeight v) in
  (* outside the image *)
  (x < 0 \/ y < 0 \/ imageW <= x \/ imageH <= y ->
     hitTest v clientX clientY = None) /\
  (* beyond the last full cell *)
  ((colCount v <= c)%Z \/ (rowCount v <= r)%Z ->
     hitTest v clientX clientY = None) /\
  (* otherwise *)
  (0 <= x /\ x < imageW -> 0 <= y /\ y < imageH ->
   (c < colCount v)%Z -> (r < rowCount v)%Z ->
     hitTest v clientX clientY = Some (mkTile (r * colCount v + c) r c)) /\
  (* a hit is one cell, the one that holds the point *)
  (forall t, hitTest v clientX clientY = Some t ->
     (0 <= col t < colCount v)%Z /\ (0 <= row t < rowCount v)%Z /\
     (0 <= index t < totalCells v)%Z /\
     (inject_Z (col t) * cellWidth v <= x /\
      x < inject_Z (col t + 1) * cellWidth v) /\
     (inject_Z (row t) * cellHeight v <= y /\
      y < inject_Z (row t + 1) * cellHeight v) /\
     (forall r' c',
        inject_Z c' * cellWidth v <= x /\ x < inject_Z (c' + 1) * cellWidth v ->
        inject_Z r' * cellHeight v <= y /\ y < inject_Z (r' + 1) * cellHeight v ->
        r' = row t /\ c' = col t)) /\
  (* on a boundary *)
  (forall k, x == inject_Z k * cellWidth v -> c = k) /\
  (cellWidth v == 10 -> x == 10 -> c = 1%Z).
Proof.
  intros Hcanvas Hs Hcw Hch Hcc Hrc screenX screenY x y imageW imageH c r.
  rewrite (hitTest_image_space v clientX clientY Hcanvas).
  fold screenX screenY x y.
  assert (Boundary : forall k, x == inject_Z k * cellWidth v -> c = k).
  { intros k E. subst c. apply cell_floor; [assumption| |].
    - rewrite E. apply Qle_refl.
    - rewrite E, inject_Z_plus_1. lra. }
  split; [|split; [|split; [|split; [|split]]]].
  - apply getTileAtPosition_outside.
  - apply getTileAtPosition_beyond.
  - intros [X0 XW] [Y0 YH] C R. apply getTileAtPosition_hit; assumption.
  - intros t S.
    destruct (getTileAtPosition_Some v x y S)
      as ((X0 & XW) & (Y0 & YH) & Ec & Er & Ei & C & R).
    pose proof (@floor_nonneg x _ Hcw X0) as C0.
    pose proof (@floor_nonneg y _ Hch Y0) as R0.
    fold c in Ec, C0. fold r in Er, R0.
    destruct (@floor_cell x _ Hcw) as [CL CU].
    destruct (@floor_cell y _ Hch) as [RL RU].
    fold c in CL, CU. fold r in RL, RU.
    rewrite Ec, Er. rewrite Ec, Er in Ei.
    split; [lia|]. split; [lia|].
    split; [rewrite Ei; unfold totalCells; nia|].
    split; [tauto|]. split; [tauto|].
    intros r' c' [CL' CU'] [RL' RU']. split; symmetry.
    + apply cell_floor; assumption.
    + apply cell_floor; assumption.
  - exact Boundary.
  - intros E10 Ex. apply Boundary. rewrite Ex, E10. reflexivity.
Qed.

Ltac by_evaluation :=
  vm_compute; first [ reflexivity | discriminate | intro; discriminate ].

Lemma hit_test_spec_witness :
  0 < scale sheet_100 /\ 0 < cellWidth sheet_100 /\
  (1 <= colCount sheet_100)%Z /\
  hitTest sheet_100 45 37 = Some (mkTile 1 0 1).
Proof.
  assert (Hs : 0 < scale sheet_100) by by_evaluation.
  assert (Hcw : 0 < cellWidth sheet_100) by by_evaluation.
  assert (Hch : 0 < cellHeight sheet_100) by by_evaluation.
  assert (Hcc : (1 <= colCount sheet_100)%Z) by by_evaluation.
  assert (Hrc : (1 <= rowCount sheet_100)%Z) by by_evaluation.
  destruct (@hit_test_spec sheet_100 (mkCanvas (mkRect 5 7 800 600) true)
              45 37 eq_refl Hs Hcw Hch Hcc Hrc) as (_ & _ & Hit & _).
  split; [exact Hs|]. split; [exact Hcw|]. split; [exact Hcc|].
  apply Hit.
  - split; by_evaluation.
  - split; by_evaluation.
  - by_evaluation.
  - by_evaluation.
Defined.

(** ** Zooming *)

Section Zoom.

Lemma MIN_SCALE_pos : 0 < MIN_SCALE.
Proof. reflexivity. Qed.

Lemma clamp_bounds (x : Q) :
  MIN_SCALE <= clamp x MIN_SCALE MAX_SCALE /\
  clamp x MIN_SCALE MAX_SCALE <= MAX_SCALE.
Proof.
  unfold clamp. split.
  - apply Q.le_max_l.
  - apply Q.max_lub; [unfold MIN_SCALE, MAX_SCALE; lra|apply Q.le_min_l].
Qed.

Lemma clamp_inside (x : Q) :
  MIN_SCALE <= x -> x <= MAX_SCALE -> clamp x MIN_SCALE MAX_SCALE == x.
Proof.
  intros L U. unfold clamp.
  rewrite Q.min_r by assumption. now rewrite Q.max_r.
Qed.

Lemma clamp_above (x : Q) :
  MAX_SCALE <= x -> clamp x MIN_SCALE MAX_SCALE == MAX_SCALE.
Proof.
  intros U. unfold clamp.
  rewrite Q.min_l by assumption. rewrite Q.max_r; [reflexivity|].
  unfold MIN_SCALE, MAX_SCALE. lra.
Qed.

Lemma clamp_below (x : Q) :
  x <= MIN_SCALE -> clamp x MIN_SCALE MAX_SCALE == MIN_SCALE.
Proof.
  intros L. unfold clamp.
  rewrite Q.min_r by (unfold MIN_SCALE, MAX_SCALE in *; lra).
  now rewrite Q.max_l.
Qed.

Variables v v' : Viewer.
Variables px py f : Q.
Hypothesis bounds : scale_in_bounds v.
Hypothesis zoomed : zoomAt px py f v v'.

Lemma zoomAt_scale_in_bounds : scale_in_bounds v'.
Proof.
  destruct zoomed as (Es & _). unfold scale_in_bounds.
  rewrite Es. apply clamp_bounds.
Qed.

Lemma zoomAt_anchored : anchored px py v v'.
Proof.
  pose proof zoomAt_scale_in_bounds as [L' _].
  destruct bounds as [L _]. destruct zoomed as (_ & Ex & Ey).
  pose proof MIN_SCALE_pos as P.
  assert (N : ~ scale v == 0) by lra.
  assert (N' : ~ scale v' == 0) by lra.
  unfold anchored, toImageSpace, toScreenSpace. cbn [fst snd].
  rewrite Ex, Ey. repeat split; field; auto.
Qed.

(** At a bound, a factor that would move past it changes nothing. *)
Lemma zoomAt_at_bound :
  (scale v == MAX_SCALE /\ 1 <= f) \/ (scale v == MIN_SCALE /\ f <= 1 /\ 0 <= f) ->
  scale v' / scale v == 1 /\ same_view v v'.
Proof.
  intro B. destruct bounds as [L U]. destruct zoomed as (Es & Ex & Ey).
  pose proof MIN_SCALE_pos as P.
  assert (N : ~ scale v == 0) by lra.
  assert (E : scale v' == scale v).
  { rewrite Es. destruct B as [[Eb F]|[Eb [F F0]]].
    - rewrite clamp_above; [now symmetry|]. rewrite <- Eb. nra.
    - rewrite clamp_below; [now symmetry|]. rewrite <- Eb. nra. }
  assert (R : scale v' / scale v == 1) by (rewrite E; field; assumption).
  split; [exact R|]. unfold same_view. rewrite Ex, Ey, R.
  repeat split; [exact E|ring|ring].
Qed.

End Zoom.

(** The three zoom handlers are [zoomAt]: the wheel at the pointer, the
    buttons at the middle of the container. *)
Lemma handleWheel_zoomAt (v : Viewer) (canvas : HTMLCanvasElement)
    (e : WheelEvent) :
  canvasRef v = Some canvas ->
  zoomAt (wheel_clientX e - rect_left (canvas_rect canvas))
         (wheel_clientY e - rect_top (canvas_rect canvas))
         (if gt (deltaY e) 0 then 9 # 10 else 11 # 10)
         v (fst (handleWheel e v)).
Proof.
  intro Hc. unfold handleWheel. rewrite Hc.
  unfold zoomAt. repeat split; reflexivity.
Qed.

Lemma zoomIn_zoomAt (v : Viewer) (container : HTMLDivElement) :
  containerRef v = Some container -> MIN_SCALE <= scale v ->
  zoomAt (inject_Z (clientWidth container) / 2)
         (inject_Z (clientHeight container) / 2)
         (5 # 4) v (fst (zoomIn v)).
Proof.
  intros Hc L. unfold zoomIn. rewrite Hc.
  unfold zoomAt. cbn [fst scale offsetX offsetY set_scale set_offsetX set_offsetY].
  split; [|split; reflexivity].
  unfold clamp, Math_min. symmetry. apply Q.max_r.
  apply Q.min_glb; unfold MIN_SCALE, MAX_SCALE in *; lra.
Qed.

Lemma zoomOut_zoomAt (v : Viewer) (container : HTMLDivElement) :
  containerRef v = Some container -> scale v <= MAX_SCALE ->
  zoomAt (inject_Z (clientWidth container) / 2)
         (inject_Z (clientHeight container) / 2)
         (4 # 5) v (fst (zoomOut v)).
Proof.
  intros Hc U. unfold zoomOut. rewrite Hc.
  unfold zoomAt. cbn [fst scale offsetX offsetY set_scale set_offsetX set_offsetY].
  split; [|split; reflexivity].
  unfold clamp, Math_max. rewrite Q.min_r; [reflexivity|].
  unfold MAX_SCALE in *. lra.
Qed.

(** C2.  From a scale within the bounds, a zoom anchored at the screen
    point [(px, py)] with factor [f] (the wheel at the pointer with 0.9
    or 1.1, the buttons at the middle of the container with 1.25 and
    0.8) sets the scale to [clamp(scale * f, MIN_SCALE, MAX_SCALE)] and
    each offset to [p - (p - offset) * (newScale / scale)]; the image
    point that was under [(px, py)] is under [(px, py)] afterwards; and
    at a bound, with a factor that would move past it, the ratio applied
    is 1 and scale and offsets stay as they were. *)
Theorem zoom_anchoring (v : Viewer) :
  scale_in_bounds v ->
  (forall canvas e, canvasRef v = Some canvas ->
     let px := wheel_clientX e - rect_left (canvas_rect canvas) in
     let py := wheel_clientY e - rect_top (canvas_rect canvas) in
     let f := if gt (deltaY e) 0 then 9 # 10 else 11 # 10 in
     let v' := fst (handleWheel e v) in
     zoomAt px py f v v' /\ anchored px py v v' /\
     (scale v == MAX_SCALE -> deltaY e <= 0 ->
        scale v' / scale v == 1 /\ same_view v v') /\
     (scale v == MIN_SCALE -> 0 < deltaY e ->
        scale v' / scale v == 1 /\ same_view v v')) /\
  (forall container, containerRef v = Some container ->
     let px := inject_Z (clientWidth container) / 2 in
     let py := inject_Z (clientHeight container) / 2 in
     let v' := fst (zoomIn v) in
     zoomAt px py (5 # 4) v v' /\ anchored px py v v' /\
     (scale v == MAX_SCALE ->
        scale v' / scale v == 1 /\ same_view v v')) /\
  (forall container, containerRef v = Some container ->
     let px := inject_Z (clientWidth container) / 2 in
     let py := inject_Z (clientHeight container) / 2 in
     let v' := fst (zoomOut v) in
     zoomAt px py (4 # 5) v v' /\ anchored px py v v' /\
     (scale v == MIN_SCALE ->
        scale v' / scale v == 1 /\ same_view v v')).
Proof.
  intro B. split; [|split].
  - intros canvas e Hc px py f v'.
    pose proof (handleWheel_zoomAt v e Hc) as Z. fold px py f v' in Z.
    split; [exact Z|]. split; [exact (zoomAt_anchored B Z)|].
    split; intros Eb D; apply (zoomAt_at_bound B Z).
    + left. split; [exact Eb|]. subst f.
      apply gt_false in D. rewrite D. lra.
    + right. split; [exact Eb|]. subst f.
      apply gt_spec in D. rewrite D. lra.
  - intros container Hc px py v'.
    pose proof (zoomIn_zoomAt v Hc (proj1 B)) as Z. fold px py v' in Z.
    split; [exact Z|]. split; [exact (zoomAt_anchored B Z)|].
    intro Eb. apply (zoomAt_at_bound B Z). left. split; [exact Eb|lra].
  - intros container Hc px py v'.
    pose proof (zoomOut_zoomAt v Hc (proj2 B)) as Z. fold px py v' in Z.
    split; [exact Z|]. split; [exact (zoomAt_anchored B Z)|].
    intro Eb. apply (zoomAt_at_bound B Z). right. split; [exact Eb|lra].
Qed.

Lemma zoom_anchoring_witness :
  scale_in_bounds sheet_100 /\
  anchored (45 - 5) (37 - 7) sheet_100
    (fst (handleWheel (mkWheel 45 37 (-1)) sheet_100)).
Proof.
  assert (B : scale_in_bounds sheet_100) by (split; by_evaluation).
  destruct (zoom_anchoring B) as (Wh & _).
  split; [exact B|].
  destruct (Wh (mkCanvas (mkRect 5 7 800 600) true) (mkWheel 45 37 (-1))
               eq_refl) as (_ & A & _).
  exact A.
Defined.

(** ** The scale bounds *)

Section ScaleBounds.

Variable v : Viewer.

Lemma scale_handleMouseDown e : scale (fst (handleMouseDown e v)) = scale v.
Proof. unfold handleMouseDown. destruct (_ || _); reflexivity. Qed.

Lemma scale_handleMouseMove e : scale (fst (handleMouseMove e v)) = scale v.
Proof.
  unfold handleMouseMove. destruct (isPanning v); [reflexivity|].
  destruct (negb _); reflexivity.
Qed.

Lemma scale_handleMouseUp e : scale (fst (handleMouseUp e v)) = scale v.
Proof.
  unfold handleMouseUp. destruct (isPanning v); [reflexivity|].
  destruct (_ && _); [|reflexivity].
  destruct (getTileAtPosition _ _ _); reflexivity.
Qed.

Lemma scale_handleMouseLeave : scale (fst (handleMouseLeave v)) = scale v.
Proof.
  unfold handleMouseLeave. cbn [hoveredTile set_isPanning].
  destruct (hoveredTile v); reflexivity.
Qed.

(** The wheel leaves a scale within the bounds whatever the scale was. *)
Lemma handleWheel_establishes e canvas :
  canvasRef v = Some canvas -> scale_in_bounds (fst (handleWheel e v)).
Proof.
  intro Hc. destruct (handleWheel_zoomAt v e Hc) as (Es & _).
  unfold scale_in_bounds. rewrite Es. apply clamp_bounds.
Qed.

Lemma divide_nonzero (a : Q) (n : Z) :
  n <> 0%Z -> divide a (inject_Z n) = Finite (a / inject_Z n).
Proof.
  intro N. unfold divide.
  destruct (Qeq_bool (inject_Z n) 0) eqn:E; [|reflexivity].
  apply Qeq_bool_iff in E. exfalso. apply N.
  unfold Qeq in E. cbn in E. lia.
Qed.

(** On an image with extent the reset is the fit of the design. *)
Lemma resetView_fitted container img :
  containerRef v = Some container -> image v = Some img ->
  naturalWidth img <> 0%Z -> naturalHeight img <> 0%Z ->
  let fit := fit_scale (inject_Z (clientWidth container))
                       (inject_Z (clientHeight container))
                       (inject_Z (naturalWidth img))
                       (inject_Z (naturalHeight img)) 40 in
  resetView v =
    set_offsetY ((inject_Z (clientHeight container)
                  - inject_Z (naturalHeight img) * fit) / 2)
      (set_offsetX ((inject_Z (clientWidth container)
                     - inject_Z (naturalWidth img) * fit) / 2)
         (set_scale fit v)).
Proof.
  intros Hc Hi NW NH. unfold resetView. rewrite Hc, Hi.
  cbv zeta. rewrite !divide_nonzero by assumption. reflexivity.
Qed.

Lemma resetView_scale container img :
  containerRef v = Some container -> image v = Some img ->
  naturalWidth img <> 0%Z -> naturalHeight img <> 0%Z ->
  scale (resetView v) =
    fit_scale (inject_Z (clientWidth container))
              (inject_Z (clientHeight container))
              (inject_Z (naturalWidth img))
              (inject_Z (naturalHeight img)) 40.
Proof.
  intros Hc Hi NW NH. rewrite (resetView_fitted Hc Hi NW NH). reflexivity.
Qed.

Lemma resetView_skips :
  containerRef v = None \/ image v = None -> resetView v = v.
Proof.
  unfold resetView. intros [E|E]; rewrite E; [reflexivity|].
  destruct (containerRef v); reflexivity.
Qed.

Lemma fit_scale_le_1 cw ch iw ih pad : fit_scale cw ch iw ih pad <= 1.
Proof. unfold fit_scale. apply Q.le_min_r. Qed.

Hypothesis bounds : scale_in_bounds v.

Lemma step_scale_in_bounds (i : Input) :
  fits i = false -> scale_in_bounds (fst (step i v)).
Proof.
  intro F. unfold scale_in_bounds in *.
  destruct i; cbn [step]; try discriminate F.
  - (* wheel *)
    unfold handleWheel. destruct (canvasRef v) as [canvas|] eqn:Hc;
      [|exact bounds].
    pose proof (handleWheel_establishes e Hc) as B.
    unfold handleWheel in B. rewrite Hc in B. exact B.
  - rewrite scale_handleMouseDown. exact bounds.
  - rewrite scale_handleMouseMove. exact bounds.
  - rewrite scale_handleMouseUp. exact bounds.
  - rewrite scale_handleMouseLeave. exact bounds.
  - (* zoom in *)
    destruct (containerRef v) as [container|] eqn:Hc.
    + apply (zoomAt_scale_in_bounds (zoomIn_zoomAt v Hc (proj1 bounds))).
    + unfold zoomIn. rewrite Hc. exact bounds.
  - (* zoom out *)
    destruct (containerRef v) as [container|] eqn:Hc.
    + apply (zoomAt_scale_in_bounds (zoomOut_zoomAt v Hc (proj2 bounds))).
    + unfold zoomOut. rewrite Hc. exact bounds.
  - exact bounds.
  - destruct (String.eqb _ _); exact bounds.
  - destruct (grid_sources_same _ _); exact bounds.
  - destruct (selectedTile (props v)), sel; exact bounds.
Qed.

End ScaleBounds.

(** The upper bound alone survives the reset. *)
Lemma resetView_le_MAX (v : Viewer) :
  scale v <= MAX_SCALE -> scale (resetView v) <= MAX_SCALE.
Proof.
  intro U. unfold resetView.
  destruct (containerRef v) as [container|]; [|exact U].
  destruct (image v) as [img|]; [|exact U].
  cbv zeta.
  destruct (Math_min_quotient _ (Finite 1)) as [fitted| | |] eqn:E;
    try exact U.
  cbn [scale set_offsetY set_offsetX set_scale].
  assert (L : fitted <= 1).
  { destruct (Math_min_quotient (divide _ _) (divide _ _)) as [x| | |];
      cbn in E; try discriminate E; inversion E.
    - apply Q.le_min_r.
    - apply Qle_refl. }
  unfold MAX_SCALE. lra.
Qed.

Lemma step_scale_le_MAX (i : Input) (v : Viewer) :
  scale v <= MAX_SCALE -> scale (fst (step i v)) <= MAX_SCALE.
Proof.
  intro U. destruct i; cbn [step].
  - unfold handleWheel. destruct (canvasRef v) as [canvas|] eqn:Hc;
      [|exact U].
    pose proof (@handleWheel_establishes v e canvas Hc) as [_ B].
    unfold handleWheel in B. rewrite Hc in B. exact B.
  - rewrite scale_handleMouseDown. exact U.
  - rewrite scale_handleMouseMove. exact U.
  - rewrite scale_handleMouseUp. exact U.
  - rewrite scale_handleMouseLeave. exact U.
  - unfold zoomIn. destruct (containerRef v); [|exact U].
    cbn [fst scale set_scale]. apply Q.le_min_l.
  - unfold zoomOut. destruct (containerRef v); [|exact U].
    cbn [fst scale set_scale]. unfold Math_max, MIN_SCALE, MAX_SCALE in *.
    apply Q.max_lub; lra.
  - apply resetView_le_MAX. exact U.
  - exact U.
  - cbn [img_onload fst]. apply resetView_le_MAX. exact U.
  - destruct (String.eqb _ _); exact U.
  - destruct (grid_sources_same _ _); exact U.
  - destruct (selectedTile (props v)), sel; exact U.
Qed.

Lemma page_run_scale_le_MAX (events : list Page.Event) (v : Viewer) :
  scale v <= MAX_SCALE -> scale (fst (Page.run events v)) <= MAX_SCALE.
Proof.
  revert v. induction events as [|e events IH]; intros v U; [exact U|].
  cbn [Page.run].
  assert (U1 : scale (fst (Page.step e v)) <= MAX_SCALE).
  { destruct e as [i|container canvas]; cbn [Page.step].
    - apply step_scale_le_MAX. exact U.
    - exact U. }
  destruct (Page.step e v) as [v1 out1]. cbn [fst] in U1.
  specialize (IH v1 U1). destruct (Page.run events v1) as [v2 out2].
  exact IH.
Qed.

Lemma setup_scale_in_bounds p dpr container canvas :
  scale_in_bounds (setup p dpr container canvas).
Proof. split; by_evaluation. Qed.

Lemma reachable_run p dpr container canvas (inputs : list Input) :
  reachable (fst (run inputs (setup p dpr container canvas))).
Proof. unfold reachable. do 5 eexists. reflexivity. Qed.

(** Without a fit, every state of a run keeps the scale within bounds. *)
Lemma run_scale_in_bounds (inputs : list Input) (v : Viewer) :
  scale_in_bounds v -> forallb (fun i => negb (fits i)) inputs = true ->
  scale_in_bounds (fst (run inputs v)).
Proof.
  revert v. induction inputs as [|i inputs IH]; intros v B F.
  - exact B.
  - cbn [forallb] in F. apply andb_true_iff in F. destruct F as [Fi F].
    apply negb_true_iff in Fi.
    pose proof (step_scale_in_bounds B i Fi) as B1.
    cbn [run]. destruct (step i v) as [v1 out1]. cbn [fst] in B1.
    specialize (IH v1 B1 F).
    destruct (run inputs v1) as [v2 out2]. exact IH.
Qed.

(** C5, as the component has it.  The scale is within
    [[MIN_SCALE, MAX_SCALE] = [0.1, 10]] when the component is set up, and
    wheel zoom, button zoom-in, button zoom-out, pan and every other input
    but the fit-to-container reset keep it there.  The reset (on the
    reset button and when an image has loaded), for an image of width
    and height at least 1, sets the scale to
    [min((containerWidth - 40) / imageWidth,
         (containerHeight - 40) / imageHeight, 1)], which is at most 1 and
    so at most [MAX_SCALE], and is within the bounds exactly when this
    minimum is at least [MIN_SCALE]: the reset does not clamp from
    below.  The upper bound holds throughout: in every state reached
    from the set-up by inputs and changes of layout, with images of
    width and height at least 1, the scale is at most [MAX_SCALE]. *)
Theorem scale_bounds_by_operation :
  (forall p dpr container canvas,
     scale_in_bounds (setup p dpr container canvas)) /\
  (forall v i, scale_in_bounds v -> fits i = false ->
     scale_in_bounds (fst (step i v))) /\
  (forall inputs v, scale_in_bounds v ->
     forallb (fun i => negb (fits i)) inputs = true ->
     scale_in_bounds (fst (run inputs v))) /\
  (forall v container img,
     containerRef v = Some container ->
     (1 <= naturalWidth img)%Z -> (1 <= naturalHeight img)%Z ->
     let fit := fit_scale (inject_Z (clientWidth container))
                          (inject_Z (clientHeight container))
                          (inject_Z (naturalWidth img))
                          (inject_Z (naturalHeight img)) 40 in
     (image v = Some img -> scale (fst (step ClickResetView v)) = fit) /\
     scale (fst (step (ImageLoaded img) v)) = fit /\
     fit <= 1 /\ fit <= MAX_SCALE /\
     (scale_in_bounds (fst (step (ImageLoaded img) v)) <-> MIN_SCALE <= fit)) /\
  (forall p dpr container canvas events,
     forallb Observations.event_loads_proper_image events = true ->
     scale (fst (Page.run events (setup p dpr container canvas)))
       <= MAX_SCALE).
Proof.
  split; [|split; [|split; [|split]]].
  - apply setup_scale_in_bounds.
  - intros v i B F. apply step_scale_in_bounds; assumption.
  - intros inputs v B F. apply run_scale_in_bounds; assumption.
  - intros v container img Hc HW HH fit.
    assert (NW : naturalWidth img <> 0%Z) by lia.
    assert (NH : naturalHeight img <> 0%Z) by lia.
    assert (L1 : fit <= 1) by apply fit_scale_le_1.
    assert (E : scale (fst (step (ImageLoaded img) v)) = fit).
    { cbn [step img_onload fst].
      apply (@resetView_scale (set_imageLoaded true (set_image (Some img) v))
               container img); [exact Hc|reflexivity|exact NW|exact NH]. }
    split; [|split; [|split; [|split]]].
    + intro Hi. cbn [step fst]. apply resetView_scale; assumption.
    + exact E.
    + exact L1.
    + unfold MAX_SCALE. lra.
    + unfold scale_in_bounds. rewrite E. unfold MAX_SCALE. split.
      * intros [L _]. exact L.
      * intro L. split; [exact L|lra].
  - intros p dpr container canvas events _.
    apply page_run_scale_le_MAX. apply setup_scale_in_bounds.
Qed.

Lemma scale_bounds_by_operation_witness :
  scale_in_bounds sheet_100 /\
  scale_in_bounds (fst (step ClickZoomIn sheet_100)).
Proof.
  assert (B : scale_in_bounds sheet_100) by (split; by_evaluation).
  destruct scale_bounds_by_operation as (_ & St & _).
  split; [exact B|]. apply (St sheet_100 ClickZoomIn B eq_refl).
Defined.

(** C5 as stated fails at the reset: when an 8192 x 8192 sheet has loaded
    in an 800 x 600 container, the scale is 35/512, about 0.068. *)
Lemma scale_bounds_counterexample :
  let v := fst (run large_sheet_session mounted) in
  reachable v /\ scale v == 35 # 512 /\ scale v < MIN_SCALE /\
  ~ scale_in_bounds v.
Proof.
  cbv zeta. split; [|split; [|split]].
  - unfold mounted. apply reachable_run.
  - lazy. reflexivity.
  - lazy. reflexivity.
  - intros [L _]. apply (Qle_not_lt _ _ L). lazy. reflexivity.
Qed.

(** ** The hover highlight *)

Section Hover.

Lemma paints_hover_app (f g : Frame) :
  paints_hover (f ++ g) = paints_hover f || paints_hover g.
Proof. unfold paints_hover. apply existsb_app. Qed.

Lemma paints_hover_flat_map {A} (body : A -> Frame) (l : list A) :
  (forall a, paints_hover (body a) = false) ->
  paints_hover (flat_map body l) = false.
Proof.
  intro B. induction l as [|a l IH]; [reflexivity|].
  cbn [flat_map]. now rewrite paints_hover_app, B, IH.
Qed.

Variable v : Viewer.

Lemma checkerboard_no_hover : paints_hover (draw_checkerboard v) = false.
Proof.
  unfold draw_checkerboard.
  apply paints_hover_flat_map. intro y.
  apply paints_hover_flat_map. intro x.
  destruct (_ =? _)%Z; reflexivity.
Qed.

Lemma grid_no_hover : paints_hover (draw_grid v) = false.
Proof.
  unfold draw_grid. rewrite !paints_hover_app.
  rewrite !paints_hover_flat_map by reflexivity. reflexivity.
Qed.

Lemma selected_no_hover : paints_hover (draw_selected v) = false.
Proof. unfold draw_selected. destruct (selectedTile _); reflexivity. Qed.

Lemma label_row_no_hover r cols i :
  paints_hover (fst (draw_label_row v r cols i)) = false.
Proof.
  revert i. induction cols as [|c cols IH]; intro i; [reflexivity|].
  cbn [draw_label_row]. specialize (IH (i + 1)%Z).
  destruct (draw_label_row v r cols (i + 1)) as [rest i'].
  cbn [fst] in *. rewrite paints_hover_app, IH.
  destruct (is_selected_index v i); reflexivity.
Qed.

Lemma label_rows_no_hover rows i :
  paints_hover (fst (draw_label_rows v rows i)) = false.
Proof.
  revert i. induction rows as [|r rows IH]; intro i; [reflexivity|].
  cbn [draw_label_rows].
  pose proof (label_row_no_hover r (for_range (colCount v) 1) i) as R.
  destruct (draw_label_row v r (for_range (colCount v) 1) i) as [ops i1].
  specialize (IH i1).
  destruct (draw_label_rows v rows i1) as [rest i2].
  cbn [fst] in *. now rewrite paints_hover_app, R, IH.
Qed.

Lemma numbers_no_hover : paints_hover (draw_numbers v) = false.
Proof.
  unfold draw_numbers. destruct (showNumbers _); [|reflexivity].
  rewrite paints_hover_app, label_rows_no_hover. reflexivity.
Qed.

Lemma hovered_paints_hover :
  paints_hover (draw_hovered v) =
    match hoveredTile v with Some _ => true | None => false end.
Proof. unfold draw_hovered. destruct (hoveredTile v); reflexivity. Qed.

Lemma draw_paints_hover :
  draws v ->
  paints_hover (draw v) =
    match hoveredTile v with Some _ => true | None => false end.
Proof.
  intros (canvas & img & container & Hc & Hx & Hi & Hd).
  unfold draw. rewrite Hc, Hi, Hd, Hx.
  rewrite !paints_hover_app.
  rewrite checkerboard_no_hover, grid_no_hover, selected_no_hover,
    numbers_no_hover, hovered_paints_hover.
  cbn. now rewrite orb_false_r.
Qed.

(** [draw] never reads [isPanning]. *)
Lemma label_row_ignores_isPanning (b : bool) r cols i :
  draw_label_row (set_isPanning b v) r cols i = draw_label_row v r cols i.
Proof.
  revert i. induction cols as [|c cols IH]; intro i; [reflexivity|].
  cbn [draw_label_row]. rewrite IH. reflexivity.
Qed.

Lemma label_rows_ignores_isPanning (b : bool) rows i :
  draw_label_rows (set_isPanning b v) rows i = draw_label_rows v rows i.
Proof.
  revert i. induction rows as [|r rows IH]; intro i; [reflexivity|].
  cbn [draw_label_rows].
  change (colCount (set_isPanning b v)) with (colCount v).
  rewrite label_row_ignores_isPanning.
  destruct (draw_label_row v r (for_range (colCount v) 1) i) as [ops i1].
  rewrite IH. reflexivity.
Qed.

Lemma draw_ignores_isPanning (b : bool) : draw (set_isPanning b v) = draw v.
Proof.
  unfold draw, draw_numbers.
  change (rowCount (set_isPanning b v)) with (rowCount v).
  rewrite label_rows_ignores_isPanning. reflexivity.
Qed.

Lemma pan_move_keeps_hover (e : MouseEvent) :
  isPanning v = true ->
  let v' := fst (handleMouseMove e v) in
  hoveredTile v' = hoveredTile v /\ isPanning v' = true /\
  snd (handleMouseMove e v) = [Draw (draw v')].
Proof.
  intro P. unfold handleMouseMove. rewrite P. cbn [fst snd].
  repeat split. exact P.
Qed.

End Hover.

(** C7, as the component has it.  The render pass paints the hover
    highlight exactly when a hovered tile is stored; it never reads
    [isPanning].  While a pan is in progress pointer movement leaves the
    stored hovered tile as it was and repaints. *)
Theorem hover_highlight_spec (v : Viewer) :
  draws v ->
  paints_hover (draw v) =
    match hoveredTile v with Some _ => true | None => false end /\
  (forall b, draw (set_isPanning b v) = draw v) /\
  (forall e, isPanning v = true ->
     let v' := fst (handleMouseMove e v) in
     hoveredTile v' = hoveredTile v /\ isPanning v' = true /\
     snd (handleMouseMove e v) = [Draw (draw v')]).
Proof.
  intro D. split; [|split].
  - apply draw_paints_hover. exact D.
  - intro b. apply draw_ignores_isPanning.
  - intros e P. apply pan_move_keeps_hover. exact P.
Qed.

Lemma hover_highlight_spec_witness :
  draws panning_over_tile /\
  isPanning panning_over_tile = true /\
  paints_hover (draw panning_over_tile) = true.
Proof.
  assert (D : draws panning_over_tile).
  { do 3 eexists. repeat split; reflexivity. }
  destruct (hover_highlight_spec D) as (P & _).
  split; [exact D|]. split; [reflexivity|]. exact P.
Defined.

(** C7 as stated fails: a pan that starts over a tile keeps the tile
    hovered, and the frame painted on the next pointer move holds the
    highlight. *)
Lemma hover_while_panning_counterexample :
  let v := fst (run hover_then_pan mounted) in
  reachable v /\ isPanning v = true /\ hoveredTile v = Some 0%Z /\
  paints_hover (draw v) = true /\
  map paints_hover (frames (snd (run hover_then_pan mounted)))
    = [false; true; true].
Proof.
  cbv zeta. split; [|split; [|split; [|split]]].
  - unfold mounted. apply reachable_run.
  - by_evaluation.
  - by_evaluation.
  - by_evaluation.
  - by_evaluation.
Qed.

(** ** Pointer presses and releases *)

Section Pointer.

Variable v : Viewer.
Variable e : MouseEvent.

Lemma handleMouseUp_panning :
  isPanning v = true -> handleMouseUp e v = (set_isPanning false v, []).
Proof. unfold handleMouseUp. intros ->. reflexivity. Qed.

Lemma handleMouseUp_idle_primary :
  isPanning v = false -> plain_primary e ->
  handleMouseUp e v =
    (v, match hitTest v (clientX e) (clientY e) with
        | Some tile => [Emit_tile_click tile]
        | None => []
        end).
Proof.
  intros P [B S]. unfold handleMouseUp, hitTest. rewrite P, B, S.
  cbn [Z.eqb negb andb].
  destruct (getTileAtPosition _ _ _); reflexivity.
Qed.

Lemma handleMouseUp_idle_other :
  isPanning v = false -> ~ plain_primary e -> handleMouseUp e v = (v, []).
Proof.
  intros P N. unfold handleMouseUp. rewrite P.
  destruct (Z.eqb_spec (button e) 0) as [B|B]; [|reflexivity].
  destruct (shiftKey e) eqn:S; [reflexivity|].
  exfalso. apply N. split; assumption.
Qed.

Lemma plain_primary_dec : plain_primary e \/ ~ plain_primary e.
Proof.
  unfold plain_primary.
  destruct (Z.eq_dec (button e) 0); destruct (shiftKey e); intuition congruence.
Qed.

Lemma handleMouseDown_pan :
  pan_intent e ->
  handleMouseDown e v =
    (set_lastMouseY (clientY e)
       (set_lastMouseX (clientX e) (set_isPanning true v)),
     [PreventDefault]).
Proof.
  intro I. unfold handleMouseDown.
  assert (E : (button e =? 1)%Z || ((button e =? 0)%Z && shiftKey e) = true).
  { destruct I as [B|[B S]]; rewrite B; [reflexivity|]. now rewrite S. }
  now rewrite E.
Qed.

Lemma handleMouseDown_other :
  ~ pan_intent e -> handleMouseDown e v = (v, []).
Proof.
  intro N. unfold handleMouseDown.
  destruct (_ || _) eqn:E; [|reflexivity].
  exfalso. apply N. unfold pan_intent.
  apply orb_true_iff in E. destruct E as [E|E].
  - left. now apply Z.eqb_eq.
  - right. apply andb_true_iff in E. destruct E as [B S].
    split; [now apply Z.eqb_eq|exact S].
Qed.

Lemma pan_intent_dec : pan_intent e \/ ~ pan_intent e.
Proof.
  unfold pan_intent.
  destruct (Z.eq_dec (button e) 1); destruct (Z.eq_dec (button e) 0);
    destruct (shiftKey e); intuition congruence.
Qed.

End Pointer.

(** C8.  A release during a pan emits no tile selection and only ends the
    pan, whether or not the pointer moved.  A release of the primary
    button without Shift while idle performs the hit test and emits the
    tile [{index, row, col}] it answers, if it answers one, and nothing
    on a miss.  No release emits more than one selection. *)
Theorem mouse_up_spec (v : Viewer) (e : MouseEvent) :
  let v' := fst (handleMouseUp e v) in
  let out := snd (handleMouseUp e v) in
  (isPanning v = true ->
     out = [] /\ v' = set_isPanning false v /\ isPanning v' = false) /\
  (isPanning v = false -> plain_primary e ->
     v' = v /\
     (forall t, In t (emitted out) <->
                hitTest v (clientX e) (clientY e) = Some t) /\
     (hitTest v (clientX e) (clientY e) = None -> out = []) /\
     (forall t, hitTest v (clientX e) (clientY e) = Some t ->
                out = [Emit_tile_click t])) /\
  (isPanning v = false -> ~ plain_primary e -> out = [] /\ v' = v) /\
  (List.length (emitted out) <= 1)%nat.
Proof.
  cbv zeta.
  assert (Pan : isPanning v = true ->
                handleMouseUp e v = (set_isPanning false v, []))
    by apply handleMouseUp_panning.
  pose proof (@handleMouseUp_idle_primary v e) as Prim.
  pose proof (@handleMouseUp_idle_other v e) as Other.
  split; [|split; [|split]].
  - intro P. rewrite (Pan P). cbn [fst snd]. repeat split; reflexivity.
  - intros P Q. rewrite (Prim P Q). cbn [fst snd]. split; [reflexivity|].
    destruct (hitTest v (clientX e) (clientY e)) as [tile|].
    + split; [|split].
      * intro t. cbn. split.
        -- intros [E|[]]. now subst.
        -- intro E. left. now inversion E.
      * discriminate.
      * intros t E. now inversion E.
    + split; [|split].
      * intro t. cbn. split; [tauto|discriminate].
      * reflexivity.
      * discriminate.
  - intros P N. rewrite (Other P N). split; reflexivity.
  - destruct (isPanning v) eqn:P.
    + rewrite (Pan eq_refl). cbn. lia.
    + destruct (@plain_primary_dec e) as [Q|N].
      * rewrite (Prim eq_refl Q).
        destruct (hitTest v (clientX e) (clientY e)); cbn; lia.
      * rewrite (Other eq_refl N). cbn. lia.
Qed.

Lemma mouse_up_spec_witness :
  isPanning sheet_100 = false /\ plain_primary (mkMouse 0 false 45 37 false false false) /\
  snd (handleMouseUp (mkMouse 0 false 45 37 false false false) sheet_100)
    = [Emit_tile_click (mkTile 1 0 1)].
Proof.
  assert (Q : plain_primary (mkMouse 0 false 45 37 false false false)) by (split; reflexivity).
  destruct (@mouse_up_spec sheet_100 (mkMouse 0 false 45 37 false false false))
    as (_ & Idle & _).
  destruct (Idle eq_refl Q) as (_ & _ & _ & Hit).
  split; [reflexivity|]. split; [exact Q|].
  apply Hit. by_evaluation.
Defined.

(** C9, as the component has it.  From idle, a press starts a pan
    exactly when it is the auxiliary button (code 1), or the primary
    button (code 0) with Shift held; the secondary button and the other
    modifier keys play no part.  Such a press records the pointer
    position as the start of the gesture and changes nothing else; any
    other press changes nothing at all. *)
Theorem mouse_down_spec (v : Viewer) (e : MouseEvent) :
  isPanning v = false ->
  let v' := fst (handleMouseDown e v) in
  (isPanning v' = true <-> pan_intent e) /\
  (pan_intent e ->
     lastMouseX v' = clientX e /\ lastMouseY v' = clientY e /\
     v' = set_lastMouseY (clientY e)
            (set_lastMouseX (clientX e) (set_isPanning true v))) /\
  (~ pan_intent e -> handleMouseDown e v = (v, [])).
Proof.
  intros P v'. subst v'.
  split; [|split].
  - split.
    + intro T. destruct (@pan_intent_dec e) as [I|N]; [exact I|].
      rewrite (@handleMouseDown_other v e N) in T. cbn [fst] in T. congruence.
    + intro I. now rewrite (@handleMouseDown_pan v e I).
  - intro I. rewrite (@handleMouseDown_pan v e I). repeat split; reflexivity.
  - apply handleMouseDown_other.
Qed.

Lemma mouse_down_spec_witness :
  isPanning sheet_100 = false /\
  isPanning (fst (handleMouseDown (mkMouse 0 true 45 37 false false false) sheet_100)) = true /\
  lastMouseX (fst (handleMouseDown (mkMouse 0 true 45 37 false false false) sheet_100)) = 45.
Proof.
  destruct (@mouse_down_spec sheet_100 (mkMouse 0 true 45 37 false false false) eq_refl)
    as (Iff & Rec & _).
  assert (I : pan_intent (mkMouse 0 true 45 37 false false false))
    by (right; split; reflexivity).
  split; [reflexivity|]. split.
  - apply Iff. exact I.
  - apply (Rec I).
Defined.

(** C9 as stated fails in both directions.  From idle, a press of the
    secondary button and a press of the primary button with Ctrl held are
    pan-intent presses in the words of the design and change nothing; a
    press of the auxiliary button is none and starts a pan. *)
Lemma pan_intent_counterexample :
  isPanning sheet_100 = false /\
  (let e := mkMouse 2 false 45 37 false false false in
   stated_pan_intent e /\ handleMouseDown e sheet_100 = (sheet_100, []) /\
   isPanning (fst (handleMouseDown e sheet_100)) = false) /\
  (let e := mkMouse 0 false 45 37 true false false in
   stated_pan_intent e /\ handleMouseDown e sheet_100 = (sheet_100, []) /\
   isPanning (fst (handleMouseDown e sheet_100)) = false) /\
  (let e := mkMouse 1 false 45 37 false false false in
   ~ stated_pan_intent e /\
   isPanning (fst (handleMouseDown e sheet_100)) = true) /\
  ~ (forall v e, isPanning v = false ->
       (isPanning (fst (handleMouseDown e v)) = true
        <-> stated_pan_intent e)).
Proof.
  split; [reflexivity|]. split; [|split; [|split]].
  - cbv zeta. split; [left; reflexivity|]. split; reflexivity.
  - cbv zeta. split; [right; split; reflexivity|]. split; reflexivity.
  - cbv zeta. split; [|reflexivity].
    intros [B|[B _]]; discriminate B.
  - intro A.
    pose proof (proj2 (A sheet_100 (mkMouse 2 false 45 37 false false false)
                         eq_refl) (or_introl eq_refl)) as T.
    discriminate T.
Qed.

(** ** Loading an image *)

Section ImageLoad.

Import Browser.

Variable a : App.AppState.

Lemma handleImageLoad_selection url name :
  App.selectedTile (App.handleImageLoad url name a) = None.
Proof. reflexivity. Qed.

Lemma handleDrop_image file files :
  startsWith (file_type file) "image/" = true ->
  App.handleDrop (Some (file :: files)) a =
    App.handleImageLoad (createObjectURL file) (file_name file)
      (App.set_drag false 0 a).
Proof. unfold App.handleDrop. intros ->. reflexivity. Qed.

Lemma on_file_change_image file files :
  startsWith (file_type file) "image/" = true ->
  App.on_file_change (Some (file :: files)) a =
    App.handleImageLoad (createObjectURL file) (file_name file) a.
Proof.
  unfold App.on_file_change, ImageUploader.handleFileChange.
  intros ->. reflexivity.
Qed.

(** Without an image file in first place nothing is loaded. *)
Lemma handleDrop_no_image files :
  match files with
  | Some (file :: _) => startsWith (file_type file) "image/" = false
  | _ => True
  end ->
  App.handleDrop files a = App.set_drag false 0 a.
Proof.
  unfold App.handleDrop. destruct files as [[|file files]|]; try reflexivity.
  intros ->. reflexivity.
Qed.

Lemma on_file_change_no_image files :
  match files with
  | Some (file :: _) => startsWith (file_type file) "image/" = false
  | _ => True
  end ->
  App.on_file_change files a = a.
Proof.
  unfold App.on_file_change, ImageUploader.handleFileChange.
  destruct files as [[|file files]|]; try reflexivity.
  intros ->. reflexivity.
Qed.

End ImageLoad.

(** C10.  The load handler leaves no tile selected.  It runs, and so the
    selection is null afterwards, whenever an image is committed: when an
    image file is dropped on the page and when the upload control's file
    input changes to an image file.  A change of the grid inputs or of
    the grid mode leaves the selection as it was. *)
Theorem image_load_clears_selection (a : App.AppState) :
  (forall url name,
     App.selectedTile (App.handleImageLoad url name a) = None /\
     App.imageUrl (App.handleImageLoad url name a) = Some url) /\
  (forall file files,
     Browser.startsWith (Browser.file_type file) "image/" = true ->
     App.selectedTile (App.handleDrop (Some (file :: files)) a) = None /\
     App.imageUrl (App.handleDrop (Some (file :: files)) a)
       = Some (Browser.createObjectURL file)) /\
  (forall file files,
     Browser.startsWith (Browser.file_type file) "image/" = true ->
     App.selectedTile (App.on_file_change (Some (file :: files)) a) = None /\
     App.imageUrl (App.on_file_change (Some (file :: files)) a)
       = Some (Browser.createObjectURL file)) /\
  (forall parsed axis,
     App.selectedTile (App.on_grid_input parsed axis a) = App.selectedTile a) /\
  App.selectedTile (App.on_toggle_mode a) = App.selectedTile a.
Proof.
  split; [|split; [|split; [|split]]].
  - intros url name. split; reflexivity.
  - intros file files I. rewrite (@handleDrop_image a file files I).
    split; reflexivity.
  - intros file files I. rewrite (@on_file_change_image a file files I).
    split; reflexivity.
  - intros parsed axis. reflexivity.
  - reflexivity.
Qed.

Lemma image_load_clears_selection_witness :
  Browser.startsWith (Browser.file_type hero_png) "image/" = true /\
  App.selectedTile app_with_selection = Some (mkTile 1 0 1) /\
  App.selectedTile (App.handleDrop (Some [hero_png]) app_with_selection)
    = None /\
  App.selectedTile (App.on_toggle_mode app_with_selection)
    = Some (mkTile 1 0 1).
Proof.
  destruct (image_load_clears_selection app_with_selection)
    as (_ & Drop & _ & _ & Toggle).
  split; [reflexivity|]. split; [reflexivity|]. split.
  - apply (Drop hero_png [] eq_refl).
  - rewrite Toggle. reflexivity.
Defined.

(** A file that is not an image loads nothing and leaves the selection. *)
Example drop_of_text_file :
  App.handleDrop (Some [notes_txt]) app_with_selection = app_with_selection.
Proof. reflexivity. Qed.

(** The image name is the file name without its last extension. *)
Example imageName_hero :
  App.imageName (App.handleDrop (Some [hero_png]) app_with_selection)
    = "hero.walk"%string.
Proof. reflexivity. Qed.

(** The worked example of the design: a 256 x 256 sheet in COUNT mode
    16 x 16, hit at image-space (20, 5); then SIZE mode 32 x 32. *)
Example grid_256_count :
  cellWidth (sheet_256 Count 16 16) == 16 /\
  cellHeight (sheet_256 Count 16 16) == 16 /\
  totalCells (sheet_256 Count 16 16) = 256%Z /\
  getTileAtPosition (sheet_256 Count 16 16) 20 5 = Some (mkTile 1 0 1) /\
  totalCells (sheet_256 Size 32 32) = 64%Z.
Proof. repeat split. Qed.

(** The zoom-in button from scale 1 in an 800 x 600 container. *)
Example zoomIn_from_1 :
  scale (fst (zoomIn (sheet_256 Size 16 16))) == 5 # 4.
Proof. reflexivity. Qed.

(** * Further properties of the components *)

Import Observations.

(** ** Screen and image coordinates *)

(** The pointer position is recovered from its image-space point by the
    transform [draw] installs (translate by the offset, scale), moved to
    the canvas corner; and an image-space point is recovered from the
    screen point it is painted at. *)
Theorem screen_image_round_trip (v : Viewer) (canvas : HTMLCanvasElement) :
  canvasRef v = Some canvas -> ~ scale v == 0 ->
  (forall clientX clientY,
     let p := screenToImage v clientX clientY in
     let s := toScreenSpace v (px p) (py p) in
     fst s + rect_left (canvas_rect canvas) == clientX /\
     snd s + rect_top (canvas_rect canvas) == clientY) /\
  (forall x y,
     let s := toScreenSpace v x y in
     let p := screenToImage v (fst s + rect_left (canvas_rect canvas))
                              (snd s + rect_top (canvas_rect canvas)) in
     px p == x /\ py p == y) /\
  (forall img container,
     has_context2d canvas = true -> image v = Some img ->
     containerRef v = Some container ->
     exists before after,
       draw v = before
                ++ [CtxSave; CtxTranslate (offsetX v) (offsetY v);
                    CtxScale (scale v) (scale v)]
                ++ after).
Proof.
  intros Hc Hs. split; [|split].
  - intros clientX clientY. unfold screenToImage, toScreenSpace.
    rewrite Hc. cbn [px py fst snd]. split; field; exact Hs.
  - intros x y. unfold screenToImage, toScreenSpace.
    rewrite Hc. cbn [px py fst snd]. split; field; exact Hs.
  - intros img container Hx Hi Hd. unfold draw. rewrite Hc, Hi, Hd, Hx.
    eexists [_; _; _; _; _]. eexists. reflexivity.
Qed.

Lemma screen_image_round_trip_witness :
  ~ scale sheet_100 == 0 /\
  px (screenToImage sheet_100 45 37) * scale sheet_100
    + offsetX sheet_100 + 5 == 45.
Proof.
  assert (Hs : ~ scale sheet_100 == 0) by (intro E; discriminate E).
  destruct (@screen_image_round_trip sheet_100
              (mkCanvas (mkRect 5 7 800 600) true) eq_refl Hs) as (R & _).
  split; [exact Hs|]. exact (proj1 (R 45 37)).
Defined.

(** ** Panning *)

Section Panning.

Variable v : Viewer.
Hypothesis panning : isPanning v = true.

Lemma handleMouseMove_panning (e : MouseEvent) :
  handleMouseMove e v =
    (let v4 :=
       set_lastMouseY (clientY e)
         (set_lastMouseX (clientX e)
            (set_offsetY (offsetY v + (clientY e - lastMouseY v))
               (set_offsetX (offsetX v + (clientX e - lastMouseX v)) v))) in
     (v4, [Draw (draw v4)])).
Proof. unfold handleMouseMove. rewrite panning. reflexivity. Qed.

End Panning.

Lemma last_cons {A} (e d : A) (l : list A) :
  List.last (e :: l) d = List.last l e.
Proof.
  revert e d. induction l as [|m l IH]; intros e d; [reflexivity|].
  change (List.last (e :: m :: l) d) with (List.last (m :: l) d).
  now rewrite !IH.
Qed.

(** What a sequence of moves does to a pan in progress: the offsets
    follow the pointer, whatever path it takes. *)
Lemma pan_moves (moves : list MouseEvent) (v : Viewer) (last_e : MouseEvent) :
  isPanning v = true ->
  lastMouseX v = clientX last_e -> lastMouseY v = clientY last_e ->
  let r := run (map MouseMove moves) v in
  let final := List.last moves last_e in
  isPanning (fst r) = true /\
  offsetX (fst r) == offsetX v + (clientX final - clientX last_e) /\
  offsetY (fst r) == offsetY v + (clientY final - clientY last_e) /\
  lastMouseX (fst r) = clientX final /\
  lastMouseY (fst r) = clientY final /\
  scale (fst r) = scale v /\ hoveredTile (fst r) = hoveredTile v /\
  props (fst r) = props v /\ emitted (snd r) = [] /\
  List.length (frames (snd r)) = List.length moves.
Proof.
  revert v last_e. induction moves as [|e moves IH]; intros v last_e P LX LY.
  - cbn [map run fst snd List.last emitted frames flat_map List.length].
    split; [exact P|]. split; [ring|]. split; [ring|].
    split; [exact LX|]. split; [exact LY|]. repeat split.
  - cbn [map run].
    cbn [step]. rewrite (@handleMouseMove_panning v P e). cbv beta iota zeta.
    set (v1 := set_lastMouseY _ _).
    specialize (IH v1 e P eq_refl eq_refl).
    cbv zeta in IH.
    destruct (run (map MouseMove moves) v1) as [v2 out2].
    cbn [fst snd] in *.
    destruct IH as (I1 & I2 & I3 & I4 & I5 & I6 & I7 & I8 & I9 & I10).
    pose proof (last_cons e last_e moves) as F.
    rewrite F. subst v1.
    cbn [offsetX offsetY set_lastMouseY set_lastMouseX set_offsetY set_offsetX]
      in I2, I3.
    split; [exact I1|].
    split; [rewrite I2, LX; ring|].
    split; [rewrite I3, LY; ring|].
    split; [exact I4|]. split; [exact I5|]. split; [exact I6|].
    split; [exact I7|]. split; [exact I8|]. split; [exact I9|].
    cbn. f_equal. exact I10.
Qed.

Lemma run_app (l1 l2 : list Input) (v : Viewer) :
  run (l1 ++ l2) v =
    (fst (run l2 (fst (run l1 v))),
     snd (run l1 v) ++ snd (run l2 (fst (run l1 v)))).
Proof.
  revert v. induction l1 as [|i l1 IH]; intro v.
  - cbn. destruct (run l2 v); reflexivity.
  - cbn [app run]. destruct (step i v) as [v1 out1]. rewrite IH.
    destruct (run l1 v1) as [v2 out2]. cbn [fst snd].
    destruct (run l2 v2) as [v3 out3]. cbn [fst snd].
    now rewrite app_assoc.
Qed.

Lemma emitted_app (a b : list Effect) :
  emitted (a ++ b) = emitted a ++ emitted b.
Proof. unfold emitted. apply flat_map_app. Qed.

Lemma frames_app (a b : list Effect) : frames (a ++ b) = frames a ++ frames b.
Proof. unfold frames. apply flat_map_app. Qed.

(** A pan gesture (a pan-intent press, any pointer moves, a release)
    moves the offsets by the displacement of the pointer between press
    and last move, whatever the path; it leaves scale, hovered tile and
    props alone, emits no selection, repaints once per move and ends
    idle.  A press and release without a move changes nothing of the
    view. *)
Theorem pan_gesture_translates (v : Viewer) (press : MouseEvent)
    (moves : list MouseEvent) (release : MouseEvent) :
  pan_intent press ->
  let r := run (pan_gesture press moves release) v in
  let final := List.last moves press in
  offsetX (fst r) == offsetX v + (clientX final - clientX press) /\
  offsetY (fst r) == offsetY v + (clientY final - clientY press) /\
  scale (fst r) = scale v /\ isPanning (fst r) = false /\
  hoveredTile (fst r) = hoveredTile v /\ props (fst r) = props v /\
  emitted (snd r) = [] /\
  List.length (frames (snd r)) = List.length moves.
Proof.
  intros I. unfold pan_gesture. cbn [run step]. cbv zeta.
  rewrite (@handleMouseDown_pan v press I).
  set (v0 := set_lastMouseY _ _).
  rewrite run_app.
  destruct (@pan_moves moves v0 press eq_refl eq_refl eq_refl)
    as (M1 & M2 & M3 & M4 & M5 & M6 & M7 & M8 & M9 & M10).
  destruct (run (map MouseMove moves) v0) as [v1 out1].
  cbn [fst snd] in *.
  cbn [run step]. rewrite (@handleMouseUp_panning v1 release M1).
  cbn [fst snd].
  split; [exact M2|]. split; [exact M3|]. split; [exact M6|].
  split; [reflexivity|]. split; [exact M7|]. split; [exact M8|].
  split.
  - rewrite app_nil_r. cbn [app emitted flat_map]. exact M9.
  - rewrite app_nil_r. cbn [app frames flat_map]. exact M10.
Qed.

Lemma pan_gesture_translates_witness :
  pan_intent (mkMouse 0 true 45 37 false false false) /\
  offsetX (fst (run (pan_gesture (mkMouse 0 true 45 37 false false false)
                       [mkMouse 0 true 50 40 false false false; mkMouse 0 true 60 30 false false false]
                       (mkMouse 0 true 60 30 false false false)) sheet_100))
    == offsetX sheet_100 + (60 - 45).
Proof.
  assert (I : pan_intent (mkMouse 0 true 45 37 false false false))
    by (right; split; reflexivity).
  split; [exact I|].
  exact (proj1 (@pan_gesture_translates sheet_100 (mkMouse 0 true 45 37 false false false)
                  [mkMouse 0 true 50 40 false false false; mkMouse 0 true 60 30 false false false]
                  (mkMouse 0 true 60 30 false false false) I)).
Defined.

(** While panning the image follows the pointer: after a move, the
    image-space point under the pointer is the one that was under the
    pointer's previous position. *)
Theorem pan_keeps_grabbed_point (v : Viewer) (e : MouseEvent) :
  isPanning v = true ->
  let v' := fst (handleMouseMove e v) in
  let before := screenToImage v (lastMouseX v) (lastMouseY v) in
  let after := screenToImage v' (clientX e) (clientY e) in
  px after == px before /\ py after == py before.
Proof.
  intros P. cbv zeta. rewrite (@handleMouseMove_panning v P e).
  cbv zeta. cbn [fst]. unfold screenToImage.
  cbn [canvasRef scale offsetX offsetY set_lastMouseY set_lastMouseX
       set_offsetY set_offsetX].
  destruct (canvasRef v) as [canvas|]; cbn [px py];
    [|split; reflexivity].
  split.
  - assert (E : clientX e - rect_left (canvas_rect canvas)
                  - (offsetX v + (clientX e - lastMouseX v))
                == lastMouseX v - rect_left (canvas_rect canvas) - offsetX v)
      by ring.
    now rewrite E.
  - assert (E : clientY e - rect_top (canvas_rect canvas)
                  - (offsetY v + (clientY e - lastMouseY v))
                == lastMouseY v - rect_top (canvas_rect canvas) - offsetY v)
      by ring.
    now rewrite E.
Qed.

Lemma pan_keeps_grabbed_point_witness :
  isPanning panning_over_tile = true /\
  px (screenToImage (fst (handleMouseMove (mkMouse 0 true 50 60 false false false)
                            panning_over_tile)) 50 60)
    == px (screenToImage panning_over_tile 30 40).
Proof.
  split; [reflexivity|].
  exact (proj1 (@pan_keeps_grabbed_point panning_over_tile
                  (mkMouse 0 true 50 60 false false false) eq_refl)).
Defined.

(** ** Hovering *)

Lemma option_Z_eqb_eq (a b : option Z) : option_Z_eqb a b = true <-> a = b.
Proof.
  destruct a as [x|], b as [y|]; cbn; try (split; congruence).
  rewrite Z.eqb_eq. split; congruence.
Qed.

Lemma option_Z_eqb_refl (a : option Z) : option_Z_eqb a a = true.
Proof. now apply option_Z_eqb_eq. Qed.

Lemma hitTest_set_hoveredTile (v : Viewer) (h : option Z) (x y : Q) :
  hitTest (set_hoveredTile h v) x y = hitTest v x y.
Proof. reflexivity. Qed.

Lemma handleMouseMove_idle (v : Viewer) (e : MouseEvent) :
  isPanning v = false ->
  handleMouseMove e v =
    if option_Z_eqb (option_map index (hitTest v (clientX e) (clientY e)))
                    (hoveredTile v)
    then (v, [])
    else (let v1 := set_hoveredTile
                      (option_map index (hitTest v (clientX e) (clientY e))) v
          in (v1, [Draw (draw v1)])).
Proof.
  intro P. unfold handleMouseMove, hitTest. rewrite P.
  destruct (option_Z_eqb _ _); reflexivity.
Qed.

(** What an idle move stores. *)
Lemma handleMouseMove_idle_hovered (v : Viewer) (e : MouseEvent) :
  isPanning v = false ->
  let v' := fst (handleMouseMove e v) in
  hoveredTile v' = option_map index (hitTest v (clientX e) (clientY e)) /\
  v' = set_hoveredTile (hoveredTile v') v.
Proof.
  intro P. cbv zeta. rewrite (@handleMouseMove_idle v e P).
  destruct (option_Z_eqb _ (hoveredTile v)) eqn:E.
  - apply option_Z_eqb_eq in E. cbn [fst].
    split; [now symmetry|now destruct v].
  - cbv zeta. cbn [fst hoveredTile set_hoveredTile]. split; reflexivity.
Qed.

(** While idle, a pointer move stores the index of the tile under the
    pointer, or null when there is none; it repaints exactly when the
    stored value changes, and a second move to the same place does
    nothing. *)
Theorem hover_tracks_pointer (v : Viewer) (e : MouseEvent) :
  isPanning v = false ->
  let v' := fst (handleMouseMove e v) in
  let out := snd (handleMouseMove e v) in
  hoveredTile v' = option_map index (hitTest v (clientX e) (clientY e)) /\
  v' = set_hoveredTile (hoveredTile v') v /\
  (hoveredTile v' = hoveredTile v -> out = []) /\
  (hoveredTile v' <> hoveredTile v -> out = [Draw (draw v')]) /\
  handleMouseMove e v' = (v', []).
Proof.
  intro P. cbv zeta.
  pose proof (fun u => @handleMouseMove_idle u e) as Step.
  rewrite (Step v P).
  destruct (option_Z_eqb _ (hoveredTile v)) eqn:E.
  - apply option_Z_eqb_eq in E. cbn [fst snd].
    split; [now symmetry|]. split; [now destruct v|].
    split; [reflexivity|]. split; [congruence|].
    rewrite (Step v P). rewrite E. now rewrite option_Z_eqb_refl.
  - cbv zeta. cbn [fst snd hoveredTile set_hoveredTile].
    split; [reflexivity|]. split; [reflexivity|].
    split.
    + intro C. rewrite C, option_Z_eqb_refl in E. discriminate.
    + split; [reflexivity|].
      rewrite (Step (set_hoveredTile _ v) P). rewrite hitTest_set_hoveredTile.
      cbn [hoveredTile set_hoveredTile]. now rewrite option_Z_eqb_refl.
Qed.

Lemma hover_tracks_pointer_witness :
  isPanning sheet_100 = false /\
  hoveredTile (fst (handleMouseMove (mkMouse 0 false 45 37 false false false) sheet_100))
    = Some 1%Z.
Proof.
  split; [reflexivity|].
  rewrite (proj1 (@hover_tracks_pointer sheet_100 (mkMouse 0 false 45 37 false false false)
                    eq_refl)).
  by_evaluation.
Defined.

(** The highlight lies on the cell under the pointer: after an idle move
    over a tile, the hover rectangle that [draw] fills is the rectangle
    of that tile's row and column. *)
Theorem hover_rect_under_pointer (v : Viewer) (e : MouseEvent) (t : Tile) :
  isPanning v = false -> 0 < cellWidth v -> 0 < cellHeight v ->
  hitTest v (clientX e) (clientY e) = Some t ->
  draw_hovered (fst (handleMouseMove e v)) =
    [ FillStyle hover_fill;
      FillRect (inject_Z (col t) * cellWidth v)
               (inject_Z (row t) * cellHeight v)
               (cellWidth v) (cellHeight v) ].
Proof.
  intros P Hcw Hch Hit.
  destruct (@handleMouseMove_idle_hovered v e P) as (Hh & Hv).
  rewrite Hit in Hh. cbn [option_map] in Hh.
  rewrite Hv, Hh.
  unfold hitTest in Hit.
  destruct (getTileAtPosition_Some v _ _ Hit)
    as ((X0 & _) & (Y0 & _) & Ec & Er & Ei & C & R).
  pose proof (@floor_nonneg _ _ Hcw X0) as C0. rewrite <- Ec in C0.
  pose proof (@floor_nonneg _ _ Hch Y0) as R0. rewrite <- Er in R0.
  pose proof (@draw_hovered_rect (set_hoveredTile (Some (index t)) v)
                (index t) eq_refl) as D.
  cbv zeta in D. rewrite D.
  change (colCount (set_hoveredTile (Some (index t)) v)) with (colCount v).
  change (cellWidth (set_hoveredTile (Some (index t)) v)) with (cellWidth v).
  change (cellHeight (set_hoveredTile (Some (index t)) v)) with (cellHeight v).
  rewrite Ei.
  change (row t * colCount v + col t)%Z
    with (rowColToIndex (row t) (col t) (colCount v)).
  rewrite index_round_trip by lia. reflexivity.
Qed.

Lemma hover_rect_under_pointer_witness :
  0 < cellWidth sheet_100 /\
  hitTest sheet_100 45 37 = Some (mkTile 1 0 1) /\
  draw_hovered (fst (handleMouseMove (mkMouse 0 false 45 37 false false false) sheet_100)) =
    [ FillStyle hover_fill;
      FillRect (inject_Z 1 * cellWidth sheet_100)
               (inject_Z 0 * cellHeight sheet_100)
               (cellWidth sheet_100) (cellHeight sheet_100) ].
Proof.
  assert (Hcw : 0 < cellWidth sheet_100) by by_evaluation.
  assert (Hch : 0 < cellHeight sheet_100) by by_evaluation.
  assert (Hit : hitTest sheet_100 45 37 = Some (mkTile 1 0 1))
    by by_evaluation.
  split; [exact Hcw|]. split; [exact Hit|].
  exact (@hover_rect_under_pointer sheet_100 (mkMouse 0 false 45 37 false false false)
           (mkTile 1 0 1) eq_refl Hcw Hch Hit).
Defined.

(** Leaving the canvas ends a pan and clears the hovered tile, leaving
    everything else; it repaints only when a tile was hovered, and
    leaving again does nothing. *)
Theorem mouse_leave_clears (v : Viewer) :
  let v' := fst (handleMouseLeave v) in
  let out := snd (handleMouseLeave v) in
  v' = set_hoveredTile None (set_isPanning false v) /\
  isPanning v' = false /\ hoveredTile v' = None /\
  (hoveredTile v = None -> out = []) /\
  (hoveredTile v <> None -> out = [Draw (draw v')]) /\
  paints_hover (draw v') = false /\
  handleMouseLeave v' = (v', []).
Proof.
  cbv zeta.
  assert (L : handleMouseLeave v =
              match hoveredTile v with
              | Some _ =>
                  (set_hoveredTile None (set_isPanning false v),
                   [Draw (draw (set_hoveredTile None (set_isPanning false v)))])
              | None => (set_isPanning false v, [])
              end) by reflexivity.
  rewrite L. clear L.
  assert (N : forall u, paints_hover (draw (set_hoveredTile None u)) = false).
  { intro u. unfold draw. cbn [canvasRef image containerRef set_hoveredTile].
    destruct (canvasRef u) as [canvas|]; [|reflexivity].
    destruct (image u) as [img|]; [|reflexivity].
    destruct (containerRef u) as [container|]; [|reflexivity].
    destruct (has_context2d canvas); [|reflexivity].
    rewrite !paints_hover_app.
    rewrite checkerboard_no_hover, grid_no_hover, selected_no_hover,
      numbers_no_hover, hovered_paints_hover.
    reflexivity. }
  destruct (hoveredTile v) as [h|] eqn:Hh; cbn [fst snd].
  - split; [reflexivity|]. split; [reflexivity|]. split; [reflexivity|].
    split; [discriminate|]. split; [reflexivity|]. split; [apply N|].
    reflexivity.
  - assert (E : set_isPanning false v
                = set_hoveredTile None (set_isPanning false v)).
    { destruct v. cbn in Hh. subst. reflexivity. }
    split; [exact E|]. split; [reflexivity|]. split; [exact Hh|].
    split; [reflexivity|]. split; [congruence|]. split.
    + rewrite E. apply N.
    + unfold handleMouseLeave. cbn [hoveredTile set_isPanning].
      rewrite Hh. reflexivity.
Qed.

(** ** The fitted view *)

(** For an image with extent the reset centres the image in the container
    on both axes, never enlarges it beyond its natural size, shows it at
    natural size when it fits with the padding, and changes nothing when
    run again.  In a container of at least 40 pixels each way the scale
    is not negative and the padding is kept: the image's footprint, from
    the offset to the offset plus the scaled extent, stays 20 pixels
    clear of the container's edges on both axes. *)
Theorem reset_centers_and_fits (v : Viewer) (container : HTMLDivElement)
    (img : HTMLImageElement) :
  containerRef v = Some container -> image v = Some img ->
  (0 < naturalWidth img)%Z -> (0 < naturalHeight img)%Z ->
  let v' := resetView v in
  let W := inject_Z (naturalWidth img) in
  let H := inject_Z (naturalHeight img) in
  let cw := inject_Z (clientWidth container) in
  let ch := inject_Z (clientHeight container) in
  scale v' <= 1 /\
  offsetX v' + W * scale v' / 2 == cw / 2 /\
  offsetY v' + H * scale v' / 2 == ch / 2 /\
  ((40 <= clientWidth container)%Z -> (40 <= clientHeight container)%Z ->
     0 <= scale v' /\
     (20 <= offsetX v' /\ offsetX v' <= offsetX v' + W * scale v' /\
      offsetX v' + W * scale v' <= cw - 20) /\
     (20 <= offsetY v' /\ offsetY v' <= offsetY v' + H * scale v' /\
      offsetY v' + H * scale v' <= ch - 20)) /\
  (W + 40 <= cw -> H + 40 <= ch -> scale v' == 1) /\
  resetView v' = v'.
Proof.
  intros Hc Hi HW HH v' W H cw ch.
  assert (NW : naturalWidth img <> 0%Z) by lia.
  assert (NH : naturalHeight img <> 0%Z) by lia.
  assert (PW : 0 < W)
    by (subst W; change 0 with (inject_Z 0); now rewrite <- Zlt_Qlt).
  assert (PH : 0 < H)
    by (subst H; change 0 with (inject_Z 0); now rewrite <- Zlt_Qlt).
  pose proof (@resetView_fitted v container img Hc Hi NW NH) as F.
  cbv zeta in F. fold v' W H cw ch in F.
  set (fit := fit_scale cw ch W H 40) in *.
  assert (Es : scale v' = fit) by (rewrite F; reflexivity).
  assert (Ex : offsetX v' = (cw - W * fit) / 2) by (rewrite F; reflexivity).
  assert (Ey : offsetY v' = (ch - H * fit) / 2) by (rewrite F; reflexivity).
  assert (Idem : resetView v' = v').
  { assert (Hc' : containerRef v' = Some container) by (rewrite F; exact Hc).
    assert (Hi' : image v' = Some img) by (rewrite F; exact Hi).
    rewrite (@resetView_fitted v' container img Hc' Hi' NW NH).
    cbv zeta. fold W H cw ch fit. rewrite F. reflexivity. }
  rewrite Es, Ex, Ey. clear Es Ex Ey F.
  assert (L1 : fit <= 1) by apply fit_scale_le_1.
  assert (Lx : fit <= (cw - 40) / W).
  { unfold fit, fit_scale.
    eapply Qle_trans; [apply Q.le_min_l|apply Q.le_min_l]. }
  assert (Ly : fit <= (ch - 40) / H).
  { unfold fit, fit_scale.
    eapply Qle_trans; [apply Q.le_min_l|apply Q.le_min_r]. }
  assert (Bx : W * fit <= cw - 40).
  { apply (Qmult_le_l _ _ W PW) in Lx.
    rewrite Qmult_div_r in Lx; [assumption|lra]. }
  assert (By : H * fit <= ch - 40).
  { apply (Qmult_le_l _ _ H PH) in Ly.
    rewrite Qmult_div_r in Ly; [assumption|lra]. }
  assert (Hx : (cw - W * fit) / 2 == (1 # 2) * (cw - W * fit)) by field.
  assert (Hy : (ch - H * fit) / 2 == (1 # 2) * (ch - H * fit)) by field.
  split; [exact L1|].
  split; [field|]. split; [field|].
  split; [|split; [|exact Idem]].
  - intros Cw Ch.
    assert (Qw : 40 <= cw)
      by (subst cw; change 40 with (inject_Z 40); now rewrite <- Zle_Qle).
    assert (Qh : 40 <= ch)
      by (subst ch; change 40 with (inject_Z 40); now rewrite <- Zle_Qle).
    assert (P : 0 <= fit).
    { unfold fit, fit_scale. apply Q.min_glb; [apply Q.min_glb|lra].
      - apply Qle_shift_div_l; [exact PW|lra].
      - apply Qle_shift_div_l; [exact PH|lra]. }
    assert (Pw : 0 <= W * fit) by (apply Qmult_le_0_compat; lra).
    assert (Ph : 0 <= H * fit) by (apply Qmult_le_0_compat; lra).
    rewrite Hx, Hy.
    set (ws := W * fit) in *. set (hs := H * fit) in *.
    split; [exact P|]. split; repeat split; lra.
  - intros Fx Fy. unfold fit, fit_scale.
    apply Q.min_r. apply Q.min_glb.
    + apply Qle_shift_div_l; [exact PW|]. lra.
    + apply Qle_shift_div_l; [exact PH|]. lra.
Qed.

Lemma reset_centers_and_fits_witness :
  (0 < naturalWidth (mkImage 100 100))%Z /\
  (40 <= clientWidth (mkDiv 800 600 (mkRect 5 7 800 600)))%Z /\
  scale (resetView sheet_100) == 1 /\
  20 <= offsetX (resetView sheet_100).
Proof.
  assert (P : (0 < 100)%Z) by lia.
  assert (Cw : (40 <= 800)%Z) by lia.
  assert (Ch : (40 <= 600)%Z) by lia.
  destruct (@reset_centers_and_fits sheet_100
              (mkDiv 800 600 (mkRect 5 7 800 600)) (mkImage 100 100)
              eq_refl eq_refl P P) as (_ & _ & _ & Pad & One & _).
  split; [exact P|]. split; [exact Cw|]. split.
  - apply One; by_evaluation.
  - exact (proj1 (proj1 (proj2 (Pad Cw Ch)))).
Defined.

(** ** What the inputs leave alone *)

Ltac untouched :=
  cbv zeta; repeat split; intros;
  first [ reflexivity | assumption | discriminate ].

(** The reset writes scale and offsets and nothing else. *)
Lemma resetView_fields (v : Viewer) :
  containerRef (resetView v) = containerRef v /\
  canvasRef (resetView v) = canvasRef v /\
  devicePixelRatio (resetView v) = devicePixelRatio v /\
  image (resetView v) = image v /\
  props (resetView v) = props v /\
  imageLoaded (resetView v) = imageLoaded v /\
  hoveredTile (resetView v) = hoveredTile v /\
  isPanning (resetView v) = isPanning v.
Proof.
  unfold resetView.
  destruct (containerRef v) eqn:E; [|repeat split; assumption].
  destruct (image v) eqn:E'; [|repeat split; assumption].
  cbv zeta. destruct (Math_min_quotient _ (Finite 1));
    repeat split; assumption.
Qed.

Section FrameConditions.

Variable v : Viewer.

Lemma step_fields (i : Input) :
  let v' := fst (step i v) in
  containerRef v' = containerRef v /\ canvasRef v' = canvasRef v /\
  devicePixelRatio v' = devicePixelRatio v /\
  (loads i = false -> image v' = image v) /\
  (from_parent i = false -> props v' = props v) /\
  (is_release i = false -> emitted (snd (step i v)) = []).
Proof.
  destruct i; cbn [step loads from_parent is_release].
  - unfold handleWheel. destruct (canvasRef v) eqn:E; untouched.
  - unfold handleMouseDown. destruct (_ || _); untouched.
  - unfold handleMouseMove. destruct (isPanning v); [untouched|].
    destruct (negb _); untouched.
  - unfold handleMouseUp. destruct (isPanning v); [untouched|].
    destruct (_ && _); [|untouched].
    destruct (getTileAtPosition _ _ _); untouched.
  - unfold handleMouseLeave. cbn [hoveredTile set_isPanning].
    destruct (hoveredTile v); untouched.
  - unfold zoomIn. destruct (containerRef v) eqn:E; untouched.
  - unfold zoomOut. destruct (containerRef v) eqn:E; untouched.
  - destruct (resetView_fields v) as (R1 & R2 & R3 & R4 & R5 & _).
    cbn [fst snd]. untouched.
  - untouched.
  - unfold img_onload.
    destruct (resetView_fields
                (set_imageLoaded true (set_image (Some img) v)))
      as (R1 & R2 & R3 & R4 & R5 & _).
    cbn [fst snd]. cbv zeta. rewrite R1, R2, R3, R5.
    untouched.
  - destruct (String.eqb _ _); untouched.
  - destruct (grid_sources_same _ _); untouched.
  - destruct (selectedTile (props v)), sel; untouched.
Qed.

End FrameConditions.

Lemma run_fields (inputs : list Input) (v : Viewer) :
  let v' := fst (run inputs v) in
  containerRef v' = containerRef v /\ canvasRef v' = canvasRef v /\
  (forallb (fun i => negb (loads i)) inputs = true -> image v' = image v) /\
  (forallb (fun i => negb (from_parent i)) inputs = true ->
     props v' = props v).
Proof.
  revert v. induction inputs as [|i inputs IH]; intro v.
  - cbn. repeat split.
  - cbn [run forallb].
    destruct (@step_fields v i) as (S1 & S2 & _ & S4 & S5 & _).
    cbv zeta in S1, S2, S4, S5.
    destruct (step i v) as [v1 out1]. cbn [fst snd] in *.
    specialize (IH v1). cbv zeta in IH.
    destruct (run inputs v1) as [v2 out2]. cbn [fst snd] in *.
    destruct IH as (I1 & I2 & I3 & I4).
    split; [congruence|]. split; [congruence|]. split.
    + intro F. apply andb_true_iff in F. destruct F as [Fi F].
      apply negb_true_iff in Fi. rewrite (I3 F). apply S4. exact Fi.
    + intro F. apply andb_true_iff in F. destruct F as [Fi F].
      apply negb_true_iff in Fi. rewrite (I4 F). apply S5. exact Fi.
Qed.

(** The viewer only reads its props: whatever the pointer, the wheel and
    the buttons do, the props, and with them the selected tile, stay as
    the parent passed them, and the template refs stay as they are. *)
Theorem viewer_keeps_props (inputs : list Input) (v : Viewer) :
  forallb (fun i => negb (from_parent i)) inputs = true ->
  let v' := fst (run inputs v) in
  props v' = props v /\ selectedTile (props v') = selectedTile (props v) /\
  containerRef v' = containerRef v /\ canvasRef v' = canvasRef v.
Proof.
  intros F v'. destruct (run_fields inputs v) as (R1 & R2 & _ & R4).
  fold v' in R1, R2, R4. specialize (R4 F).
  split; [exact R4|]. split; [now rewrite R4|]. split; assumption.
Qed.

Lemma viewer_keeps_props_witness :
  forallb (fun i => negb (from_parent i)) hover_then_pan = true /\
  props (fst (run hover_then_pan mounted)) = props mounted.
Proof.
  assert (F : forallb (fun i => negb (from_parent i)) hover_then_pan = true)
    by reflexivity.
  split; [exact F|].
  exact (proj1 (@viewer_keeps_props hover_then_pan mounted F)).
Defined.

Lemma page_run_fields (events : list Page.Event) (v : Viewer) :
  let v' := fst (Page.run events v) in
  (forallb (fun e => negb (Page.loads e)) events = true ->
     image v' = image v) /\
  (forallb (fun e => negb (Page.lays_out e)) events = true ->
     containerRef v' = containerRef v /\ canvasRef v' = canvasRef v).
Proof.
  revert v. induction events as [|e events IH]; intro v.
  - cbn. repeat split.
  - cbn [Page.run forallb].
    assert (S : (Page.loads e = false ->
                 image (fst (Page.step e v)) = image v) /\
                (Page.lays_out e = false ->
                 containerRef (fst (Page.step e v)) = containerRef v /\
                 canvasRef (fst (Page.step e v)) = canvasRef v)).
    { destruct e as [i|container canvas]; cbn [Page.step Page.loads
                                                Page.lays_out].
      - destruct (@step_fields v i) as (S1 & S2 & _ & S4 & _).
        cbv zeta in S1, S2, S4. split.
        + intro L. apply S4. destruct i; try reflexivity. discriminate L.
        + intros _. split; assumption.
      - split; [reflexivity|discriminate]. }
    destruct S as [SL SR].
    destruct (Page.step e v) as [v1 out1]. cbn [fst] in SL, SR.
    specialize (IH v1). cbv zeta in IH.
    destruct (Page.run events v1) as [v2 out2]. cbn [fst] in *.
    destruct IH as [IL IR]. split.
    + intro F. apply andb_true_iff in F. destruct F as [Fe F].
      apply negb_true_iff in Fe. rewrite (IL F). apply SL. exact Fe.
    + intro F. apply andb_true_iff in F. destruct F as [Fe F].
      apply negb_true_iff in Fe. destruct (IR F) as [I1 I2].
      destruct (SR Fe) as [S1 S2]. split; congruence.
Qed.

(** The reset forgets pan and zoom.  Whatever pointer, wheel and button
    inputs and whatever changes of layout came before, as long as no new
    image was installed the reset produces the view fitted to the image
    and to the container as it is when the reset runs; if the layout did
    not change in between, that is the view the reset would have
    produced before them. *)
Theorem reset_forgets_pan_and_zoom (events : list Page.Event) (v : Viewer)
    (container : HTMLDivElement) (img : HTMLImageElement) :
  image v = Some img ->
  (1 <= naturalWidth img)%Z -> (1 <= naturalHeight img)%Z ->
  forallb (fun e => negb (Page.loads e)) events = true ->
  let now := fst (Page.run events v) in
  containerRef now = Some container ->
  let after := resetView now in
  let fit := fit_scale (inject_Z (clientWidth container))
                       (inject_Z (clientHeight container))
                       (inject_Z (naturalWidth img))
                       (inject_Z (naturalHeight img)) 40 in
  scale after = fit /\
  offsetX after = (inject_Z (clientWidth container)
                   - inject_Z (naturalWidth img) * fit) / 2 /\
  offsetY after = (inject_Z (clientHeight container)
                   - inject_Z (naturalHeight img) * fit) / 2 /\
  (forallb (fun e => negb (Page.lays_out e)) events = true ->
     scale after = scale (resetView v) /\
     offsetX after = offsetX (resetView v) /\
     offsetY after = offsetY (resetView v)).
Proof.
  intros Hi HW HH F now Hc after fit.
  assert (NW : naturalWidth img <> 0%Z) by lia.
  assert (NH : naturalHeight img <> 0%Z) by lia.
  destruct (page_run_fields events v) as (RI & RL).
  fold now in RI, RL. specialize (RI F). rewrite Hi in RI.
  pose proof (@resetView_fitted now container img Hc RI NW NH) as A.
  cbv zeta in A. fold fit after in A.
  split; [rewrite A; reflexivity|].
  split; [rewrite A; reflexivity|]. split; [rewrite A; reflexivity|].
  intro L. destruct (RL L) as [Rc _]. rewrite Hc in Rc. symmetry in Rc.
  pose proof (@resetView_fitted v container img Rc Hi NW NH) as B.
  cbv zeta in B. fold fit in B. rewrite A, B. repeat split.
Qed.

Lemma reset_forgets_pan_and_zoom_witness :
  (1 <= naturalWidth (mkImage 100 100))%Z /\
  forallb (fun e => negb (Page.loads e)) zoom_resize_zoom = true /\
  containerRef (fst (Page.run zoom_resize_zoom sheet_100))
    = Some (mkDiv 400 300 (mkRect 0 0 400 300)) /\
  offsetX (resetView (fst (Page.run zoom_resize_zoom sheet_100)))
    = (inject_Z 400
       - inject_Z 100 * fit_scale (inject_Z 400) (inject_Z 300)
                                  (inject_Z 100) (inject_Z 100) 40) / 2.
Proof.
  assert (P : (1 <= 100)%Z) by lia.
  assert (F : forallb (fun e => negb (Page.loads e)) zoom_resize_zoom = true)
    by reflexivity.
  assert (Hc : containerRef (fst (Page.run zoom_resize_zoom sheet_100))
               = Some (mkDiv 400 300 (mkRect 0 0 400 300)))
    by reflexivity.
  split; [exact P|]. split; [exact F|]. split; [exact Hc|].
  destruct (@reset_forgets_pan_and_zoom zoom_resize_zoom sheet_100
              (mkDiv 400 300 (mkRect 0 0 400 300)) (mkImage 100 100)
              eq_refl P P F Hc) as (_ & Ox & _).
  exact Ox.
Defined.

Lemma handleMouseUp_emits_at_most_one (v : Viewer) (e : MouseEvent) :
  (List.length (emitted (snd (handleMouseUp e v))) <= 1)%nat.
Proof.
  unfold handleMouseUp. destruct (isPanning v); [cbn; lia|].
  destruct (_ && _); [|cbn; lia].
  destruct (getTileAtPosition _ _ _); cbn; lia.
Qed.

(** Only releases select: over any inputs, there are at most as many
    tile selections emitted as there are pointer releases, and none
    when there is no release. *)
Theorem only_releases_emit (inputs : list Input) (v : Viewer) :
  (List.length (emitted (snd (run inputs v)))
   <= List.length (filter is_release inputs))%nat.
Proof.
  revert v. induction inputs as [|i inputs IH]; intro v.
  - cbn. lia.
  - cbn [run filter].
    pose proof (@step_fields v i) as S. cbv zeta in S.
    destruct S as (_ & _ & _ & _ & _ & S6).
    assert (U : is_release i = true ->
                (List.length (emitted (snd (step i v))) <= 1)%nat).
    { destruct i; try discriminate. intros _.
      apply handleMouseUp_emits_at_most_one. }
    destruct (step i v) as [v1 out1]. cbn [snd] in *.
    specialize (IH v1). destruct (run inputs v1) as [v2 out2].
    cbn [snd] in *. rewrite emitted_app, length_app.
    destruct (is_release i).
    + specialize (U eq_refl). cbn [List.length]. lia.
    + rewrite (S6 eq_refl). cbn [List.length]. lia.
Qed.

(** ** More on zooming *)

Lemma zoomAt_anchored_nonzero (v v' : Viewer) (px py f : Q) :
  ~ scale v == 0 -> zoomAt px py f v v' -> anchored px py v v'.
Proof.
  intros N (Es & Ex & Ey).
  assert (B : MIN_SCALE <= scale v')
    by (rewrite Es; apply clamp_bounds).
  pose proof MIN_SCALE_pos as P.
  assert (N' : ~ scale v' == 0) by lra.
  unfold anchored, toImageSpace, toScreenSpace. cbn [fst snd].
  rewrite Ex, Ey. repeat split; field; auto.
Qed.

(** The wheel works from any scale that is not zero, also one the reset
    left below [MIN_SCALE]: the scale lands within the bounds and the
    point under the pointer stays put.  From a scale so small that even
    the enlarged one is below [MIN_SCALE], a tick in either direction
    sets the scale to [MIN_SCALE]. *)
Theorem wheel_from_any_scale (v : Viewer) (canvas : HTMLCanvasElement)
    (e : WheelEvent) :
  canvasRef v = Some canvas -> ~ scale v == 0 ->
  let v' := fst (handleWheel e v) in
  scale_in_bounds v' /\
  anchored (wheel_clientX e - rect_left (canvas_rect canvas))
           (wheel_clientY e - rect_top (canvas_rect canvas)) v v' /\
  (0 < scale v -> scale v * (11 # 10) <= MIN_SCALE ->
     scale v' == MIN_SCALE) /\
  (MAX_SCALE <= scale v * (9 # 10) -> scale v' == MAX_SCALE).
Proof.
  intros Hc N v'.
  pose proof (handleWheel_zoomAt v e Hc) as Z. fold v' in Z.
  split; [exact (@handleWheel_establishes v e canvas Hc)|].
  split; [exact (zoomAt_anchored_nonzero N Z)|].
  destruct Z as (Es & _). split.
  - intros P L. rewrite Es. apply clamp_below.
    destruct (gt (deltaY e) 0); nra.
  - intros U. rewrite Es. apply clamp_above.
    unfold MAX_SCALE in *. destruct (gt (deltaY e) 0); nra.
Qed.

Lemma wheel_from_any_scale_witness :
  ~ scale (fst (run large_sheet_session mounted)) == 0 /\
  scale (fst (handleWheel (mkWheel 400 300 1)
                (fst (run large_sheet_session mounted)))) == MIN_SCALE.
Proof.
  assert (N : ~ scale (fst (run large_sheet_session mounted)) == 0).
  { intro E. lazy in E. discriminate E. }
  destruct (@wheel_from_any_scale (fst (run large_sheet_session mounted))
              (mkCanvas (mkRect 0 0 800 600) true) (mkWheel 400 300 1)
              eq_refl N) as (_ & _ & Low & _).
  split; [exact N|]. apply Low; lazy; [reflexivity|discriminate].
Defined.

Section ZoomButtons.

Variable v : Viewer.
Variable container : HTMLDivElement.
Hypothesis has_container : containerRef v = Some container.

Let centerX := inject_Z (clientWidth container) / 2.
Let centerY := inject_Z (clientHeight container) / 2.

Lemma zoomIn_view :
  let v' := fst (zoomIn v) in
  scale v' = Math_min MAX_SCALE (scale v * (5 # 4)) /\
  offsetX v' = centerX - (centerX - offsetX v) * (scale v' / scale v) /\
  offsetY v' = centerY - (centerY - offsetY v) * (scale v' / scale v) /\
  containerRef v' = Some container.
Proof.
  unfold zoomIn. rewrite has_container. cbv zeta. cbn [fst].
  repeat split. exact has_container.
Qed.

Lemma zoomOut_view :
  let v' := fst (zoomOut v) in
  scale v' = Math_max MIN_SCALE (scale v * (4 # 5)) /\
  offsetX v' = centerX - (centerX - offsetX v) * (scale v' / scale v) /\
  offsetY v' = centerY - (centerY - offsetY v) * (scale v' / scale v) /\
  containerRef v' = Some container.
Proof.
  unfold zoomOut. rewrite has_container. cbv zeta. cbn [fst].
  repeat split. exact has_container.
Qed.

End ZoomButtons.

(** The zoom buttons undo each other as long as neither clamps: the
    factors 1.25 and 0.8 multiply to one, so zoom-in then zoom-out (and
    zoom-out then zoom-in) restores scale and offsets. *)
Theorem zoom_buttons_inverse (v : Viewer) (container : HTMLDivElement) :
  containerRef v = Some container ->
  (MIN_SCALE <= scale v -> scale v * (5 # 4) <= MAX_SCALE ->
     same_view v (fst (zoomOut (fst (zoomIn v))))) /\
  (scale v <= MAX_SCALE -> MIN_SCALE <= scale v * (4 # 5) ->
     same_view v (fst (zoomIn (fst (zoomOut v))))).
Proof.
  intro Hc. pose proof MIN_SCALE_pos as P. split.
  - intros L U.
    destruct (@zoomIn_view v container Hc) as (S1 & X1 & Y1 & C1).
    cbv zeta in S1, X1, Y1, C1.
    destruct (@zoomOut_view (fst (zoomIn v)) container C1)
      as (S2 & X2 & Y2 & _).
    cbv zeta in S2, X2, Y2.
    set (v1 := fst (zoomIn v)) in *. set (v2 := fst (zoomOut v1)) in *.
    assert (E1 : scale v1 == scale v * (5 # 4)).
    { rewrite S1. unfold Math_min. now apply Q.min_r. }
    assert (E2 : scale v2 == scale v).
    { rewrite S2. unfold Math_max. rewrite E1. rewrite Q.max_r; [field|].
      lra. }
    assert (N : ~ scale v == 0) by lra.
    assert (N1 : ~ scale v1 == 0) by (rewrite E1; lra).
    unfold same_view. split; [exact E2|].
    rewrite X2, Y2, X1, Y1, E2. split; field; auto.
  - intros U L.
    destruct (@zoomOut_view v container Hc) as (S1 & X1 & Y1 & C1).
    cbv zeta in S1, X1, Y1, C1.
    destruct (@zoomIn_view (fst (zoomOut v)) container C1)
      as (S2 & X2 & Y2 & _).
    cbv zeta in S2, X2, Y2.
    set (v1 := fst (zoomOut v)) in *. set (v2 := fst (zoomIn v1)) in *.
    assert (E1 : scale v1 == scale v * (4 # 5)).
    { rewrite S1. unfold Math_max. now apply Q.max_r. }
    assert (E2 : scale v2 == scale v).
    { rewrite S2. unfold Math_min. rewrite E1. rewrite Q.min_r; [field|].
      lra. }
    assert (N1 : ~ scale v1 == 0) by (rewrite E1; lra).
    assert (N : ~ scale v == 0) by lra.
    unfold same_view. split; [exact E2|].
    rewrite X2, Y2, X1, Y1, E2. split; field; auto.
Qed.

Lemma zoom_buttons_inverse_witness :
  MIN_SCALE <= scale sheet_100 /\ scale sheet_100 * (5 # 4) <= MAX_SCALE /\
  same_view sheet_100 (fst (zoomOut (fst (zoomIn sheet_100)))).
Proof.
  assert (L : MIN_SCALE <= scale sheet_100) by by_evaluation.
  assert (U : scale sheet_100 * (5 # 4) <= MAX_SCALE) by by_evaluation.
  split; [exact L|]. split; [exact U|].
  exact (proj1 (@zoom_buttons_inverse sheet_100
                  (mkDiv 800 600 (mkRect 5 7 800 600)) eq_refl) L U).
Defined.

(** ** The grid over the image *)

Section Span.

Variable v : Viewer.

Lemma inject_Z_pos (n : Z) : (0 < n)%Z -> 0 < inject_Z n.
Proof. intro P. change 0 with (inject_Z 0). now rewrite <- Zlt_Qlt. Qed.

Lemma count_spans_width :
  gridMode (props v) = Count -> (1 <= gridX (props v))%Z ->
  inject_Z (colCount v) * cellWidth v == inject_Z (imageWidth v).
Proof.
  intros M Hx. unfold colCount, cellWidth. rewrite M.
  pose proof (@inject_Z_pos (gridX (props v)) ltac:(lia)) as P.
  field. lra.
Qed.

Lemma count_spans_height :
  gridMode (props v) = Count -> (1 <= gridY (props v))%Z ->
  inject_Z (rowCount v) * cellHeight v == inject_Z (imageHeight v).
Proof.
  intros M Hy. unfold rowCount, cellHeight. rewrite M.
  pose proof (@inject_Z_pos (gridY (props v)) ltac:(lia)) as P.
  field. lra.
Qed.

End Span.

(** SIZE mode along one axis, for an image extent [n] and a cell size
    [size >= 1]: the count [floor(n / size) || 1]. *)
Lemma size_count_spans (n size : Z) :
  (1 <= size)%Z -> (0 <= n)%Z ->
  let count := or_else (Math_floor (inject_Z n / inject_Z size)) 1 in
  ((size <= n)%Z ->
     (count * size <= n < (count + 1) * size)%Z) /\
  ((n < size)%Z -> count = 1%Z /\ (n < count * size)%Z).
Proof.
  intros Hs Hn. cbv zeta. rewrite floor_div.
  pose proof (Z.div_mod n size ltac:(lia)) as E.
  pose proof (Z.mod_pos_bound n size ltac:(lia)) as M.
  split.
  - intro L. assert (1 <= n / size)%Z.
    { apply Z.div_le_lower_bound; lia. }
    rewrite or_else_max by lia. rewrite Z.max_r by lia. nia.
  - intro L. rewrite Z.div_small by lia.
    change (or_else 0 1) with 1%Z. lia.
Qed.

(** How far the grid reaches.  In COUNT mode the cells span the image
    exactly.  In SIZE mode the full cells reach up to the image's edge and
    leave a remainder narrower than one cell, unless the image is smaller
    than one cell: then there is a single cell, larger than the image. *)
Theorem grid_spans_image (v : Viewer) :
  (1 <= gridX (props v))%Z -> (1 <= gridY (props v))%Z ->
  (0 <= imageWidth v)%Z -> (0 <= imageHeight v)%Z ->
  match gridMode (props v) with
  | Count =>
      inject_Z (colCount v) * cellWidth v == inject_Z (imageWidth v) /\
      inject_Z (rowCount v) * cellHeight v == inject_Z (imageHeight v)
  | Size =>
      ((gridX (props v) <= imageWidth v)%Z ->
         inject_Z (colCount v) * cellWidth v <= inject_Z (imageWidth v) /\
         inject_Z (imageWidth v) < inject_Z (colCount v + 1) * cellWidth v) /\
      ((imageWidth v < gridX (props v))%Z ->
         colCount v = 1%Z /\
         inject_Z (imageWidth v) < inject_Z (colCount v) * cellWidth v) /\
      ((gridY (props v) <= imageHeight v)%Z ->
         inject_Z (rowCount v) * cellHeight v <= inject_Z (imageHeight v) /\
         inject_Z (imageHeight v) < inject_Z (rowCount v + 1) * cellHeight v) /\
      ((imageHeight v < gridY (props v))%Z ->
         rowCount v = 1%Z /\
         inject_Z (imageHeight v) < inject_Z (rowCount v) * cellHeight v)
  end.
Proof.
  intros Hx Hy HW HH. destruct (gridMode (props v)) eqn:M.
  - unfold colCount, rowCount, cellWidth, cellHeight. rewrite M.
    destruct (size_count_spans Hx HW) as [WL WS].
    destruct (size_count_spans Hy HH) as [HL HS].
    cbv zeta in WL, WS, HL, HS.
    rewrite <- !inject_Z_mult, <- !Zle_Qle, <- !Zlt_Qlt.
    repeat split; intros; first [apply WL | apply WS | apply HL | apply HS];
      assumption.
  - split; [apply count_spans_width|apply count_spans_height]; assumption.
Qed.

Lemma grid_spans_image_witness :
  (1 <= gridX (props sheet_100))%Z /\ (0 <= imageWidth sheet_100)%Z /\
  inject_Z (colCount sheet_100) * cellWidth sheet_100
    <= inject_Z (imageWidth sheet_100).
Proof.
  assert (L : (1 <= gridX (props sheet_100))%Z) by by_evaluation.
  assert (N : (0 <= imageWidth sheet_100)%Z) by by_evaluation.
  pose proof (@grid_spans_image sheet_100 L L N N) as G.
  simpl gridMode in G. destruct G as (G & _).
  split; [exact L|]. split; [exact N|].
  apply G. by_evaluation.
Defined.

(** The grid pass strokes [colCount + 1] vertical lines at
    [x = i * cellWidth] from the top to the bottom of the image, then
    [rowCount + 1] horizontal lines at [y = j * cellHeight] across it, at
    a line width that is one screen pixel. *)
Theorem grid_lines (v : Viewer) :
  let verticals := map (vertical_line v)
                       (count_up 0 (Z.to_nat (colCount v + 1))) in
  let horizontals := map (horizontal_line v)
                         (count_up 0 (Z.to_nat (rowCount v + 1))) in
  draw_grid v =
    [ StrokeStyle grid_stroke; LineWidth (1 / scale v) ]
    ++ flat_map stroke_segment (verticals ++ horizontals) /\
  ((0 <= colCount v)%Z -> (0 <= rowCount v)%Z ->
     Z.of_nat (List.length (verticals ++ horizontals))
       = (colCount v + 1 + (rowCount v + 1))%Z) /\
  (~ scale v == 0 -> (1 / scale v) * scale v == 1).
Proof.
  cbv zeta. split; [|split].
  - unfold draw_grid. rewrite !for_range_count_up. f_equal.
    rewrite flat_map_app, !flat_map_concat_map, !map_map.
    reflexivity.
  - intros Hc Hr. rewrite length_app, !length_map, !count_up_length. lia.
  - intro N. field. exact N.
Qed.

(** ** The grid settings *)

(** An input to a grid field stores a value within [[1, 512]] in SIZE mode
    and [[1, 256]] in COUNT mode, on the axis it was typed in, and
    touches neither the other axis nor the mode.  A number within the
    range is stored as typed; what does not parse, and zero, become 1;
    numbers beyond the range become the nearest bound. *)
Theorem grid_input_clamps (parsed : option Z) (axis : GridSettings.Axis)
    (m : GridSettings.Models) :
  let m' := GridSettings.handleInput parsed axis m in
  let maxVal := match GridSettings.m_gridMode m with
                | Size => 512 | Count => 256 end%Z in
  let stored := match axis with
                | GridSettings.AxisX => GridSettings.m_gridX m'
                | GridSettings.AxisY => GridSettings.m_gridY m'
                end in
  (1 <= stored <= maxVal)%Z /\
  GridSettings.m_gridMode m' = GridSettings.m_gridMode m /\
  match axis with
  | GridSettings.AxisX => GridSettings.m_gridY m' = GridSettings.m_gridY m
  | GridSettings.AxisY => GridSettings.m_gridX m' = GridSettings.m_gridX m
  end /\
  (forall n, parsed = Some n -> (1 <= n <= maxVal)%Z -> stored = n) /\
  (parsed = None \/ parsed = Some 0%Z -> stored = 1%Z) /\
  (forall n, parsed = Some n -> (maxVal < n)%Z -> stored = maxVal) /\
  (forall n, parsed = Some n -> (n < 1)%Z -> stored = 1%Z).
Proof.
  cbv zeta. unfold GridSettings.handleInput.
  set (maxVal := match GridSettings.m_gridMode m with
                 | Size => 512 | Count => 256 end%Z).
  assert (Hm : (256 <= maxVal <= 512)%Z)
    by (subst maxVal; destruct (GridSettings.m_gridMode m); lia).
  set (value := match parsed with Some n => or_else n 1 | None => 1%Z end).
  assert (Stored :
    match axis with
    | GridSettings.AxisX =>
        GridSettings.m_gridX
          match axis with
          | GridSettings.AxisX =>
              GridSettings.mkModels (Z.max 1 (Z.min maxVal value))
                (GridSettings.m_gridY m) (GridSettings.m_gridMode m)
          | GridSettings.AxisY =>
              GridSettings.mkModels (GridSettings.m_gridX m)
                (Z.max 1 (Z.min maxVal value)) (GridSettings.m_gridMode m)
          end
    | GridSettings.AxisY =>
        GridSettings.m_gridY
          match axis with
          | GridSettings.AxisX =>
              GridSettings.mkModels (Z.max 1 (Z.min maxVal value))
                (GridSettings.m_gridY m) (GridSettings.m_gridMode m)
          | GridSettings.AxisY =>
              GridSettings.mkModels (GridSettings.m_gridX m)
                (Z.max 1 (Z.min maxVal value)) (GridSettings.m_gridMode m)
          end
    end = Z.max 1 (Z.min maxVal value)) by (destruct axis; reflexivity).
  rewrite Stored. clear Stored.
  split; [lia|]. split; [destruct axis; reflexivity|].
  split; [destruct axis; reflexivity|].
  split; [|split; [|split]].
  - intros n -> R. subst value. unfold or_else.
    destruct (Z.eqb_spec n 0); lia.
  - intros [->| ->]; subst value; cbn; lia.
  - intros n -> R. subst value. unfold or_else.
    destruct (Z.eqb_spec n 0); lia.
  - intros n -> R. subst value. unfold or_else.
    destruct (Z.eqb_spec n 0); lia.
Qed.

(** ** The application's state *)

Section AppInvariants.

Lemma or_else_nonempty (s : string) :
  App.or_else s "spritesheet" <> ""%string.
Proof.
  unfold App.or_else. destruct (String.eqb_spec s ""); [discriminate|assumption].
Qed.

Lemma on_grid_input_range parsed axis a :
  Session.grid_in_range a ->
  Session.grid_in_range (App.on_grid_input parsed axis a).
Proof.
  intros [Rx Ry].
  unfold Session.grid_in_range, App.on_grid_input, App.update_grid,
    GridSettings.handleInput.
  cbn [App.grid_models GridSettings.m_gridX GridSettings.m_gridY
       GridSettings.m_gridMode].
  destruct (App.gridMode a), axis;
    cbn [App.gridX App.gridY GridSettings.m_gridX GridSettings.m_gridY];
    lia.
Qed.

Lemma step_grid_in_range (i : Session.Input) (a : App.AppState) :
  Session.grid_in_range a -> Session.grid_in_range (Session.step i a).
Proof.
  intro R. destruct i; cbn [Session.step]; try exact R.
  - unfold App.handleDrop. destruct files as [[|file files]|]; try exact R.
    destruct (Browser.startsWith _ _); exact R.
  - unfold App.on_file_change, ImageUploader.handleFileChange.
    destruct files as [[|file files]|]; try exact R.
    destruct (Browser.startsWith _ _); exact R.
  - apply on_grid_input_range. exact R.
Qed.

Lemma step_imageName (i : Session.Input) (a : App.AppState) :
  App.imageName a <> ""%string ->
  App.imageName (Session.step i a) <> ""%string.
Proof.
  intro N. destruct i; cbn [Session.step]; try exact N.
  - unfold App.handleDrop. destruct files as [[|file files]|]; try exact N.
    destruct (Browser.startsWith _ _); [apply or_else_nonempty|exact N].
  - unfold App.on_file_change, ImageUploader.handleFileChange.
    destruct files as [[|file files]|]; try exact N.
    destruct (Browser.startsWith _ _); [apply or_else_nonempty|exact N].
Qed.

Lemma run_snoc (inputs : list Session.Input) (i : Session.Input) a :
  Session.run (inputs ++ [i]) a = Session.step i (Session.run inputs a).
Proof. unfold Session.run. now rewrite fold_left_app. Qed.

End AppInvariants.

(** In every state of the application the grid inputs are within
    [[1, 512]] and the image name is not empty; so the viewer is never
    given a grid input below 1.  The bound 512 is met in COUNT mode too:
    switching the mode does not clamp again. *)
Theorem app_state_invariant :
  (forall a, Session.reachable a ->
     Session.grid_in_range a /\ App.imageName a <> ""%string /\
     (forall p, App.viewer_props a = Some p ->
        (1 <= gridX p)%Z /\ (1 <= gridY p)%Z)) /\
  (exists a, Session.reachable a /\
     App.gridMode a = Count /\ App.gridX a = 512%Z).
Proof.
  split.
  - intros a [inputs ->].
    assert (I : Session.grid_in_range (Session.run inputs App.init) /\
                App.imageName (Session.run inputs App.init) <> ""%string).
    { induction inputs as [|i inputs IH] using rev_ind.
      - split; [split; cbn; lia|discriminate].
      - rewrite run_snoc. destruct IH as [R N]. split.
        + apply step_grid_in_range. exact R.
        + apply step_imageName. exact N. }
    destruct I as [R N]. split; [exact R|]. split; [exact N|].
    intros p. unfold App.viewer_props.
    destruct (App.imageUrl _) as [url|]; [|discriminate].
    destruct (String.eqb url ""); [discriminate|].
    intro E. inversion E. cbn [gridX gridY].
    destruct R as [Rx Ry]. lia.
  - exists (Session.run [Session.GridInput (Some 9999%Z) GridSettings.AxisX;
                         Session.ToggleMode] App.init).
    split; [eexists; reflexivity|]. split; reflexivity.
Qed.

Lemma app_state_invariant_witness :
  Session.reachable app_after_drop /\
  Session.grid_in_range app_after_drop.
Proof.
  assert (R : Session.reachable app_after_drop)
    by (exists [Session.Drop (Some [hero_png])]; reflexivity).
  split; [exact R|].
  exact (proj1 (proj1 app_state_invariant app_after_drop R)).
Defined.

(** ** The image name *)

Section ImageName.

Local Open Scope string_scope.

Lemma all_ext_chars_dot (b ext : string) :
  App.all_ext_chars (b ++ String "." ext) = false.
Proof.
  induction b as [|c b IH]; [reflexivity|].
  cbn [append App.all_ext_chars]. rewrite IH. apply andb_false_r.
Qed.

Lemma strip_extension_suffix (base ext : string) :
  ext <> "" -> App.all_ext_chars ext = true ->
  App.strip_extension (base ++ String "." ext) = base.
Proof.
  intros Hne Hext. induction base as [|c base IH].
  - cbn [append App.strip_extension]. rewrite Hext.
    destruct (String.eqb_spec ext ""); [contradiction|reflexivity].
  - cbn [append App.strip_extension].
    rewrite all_ext_chars_dot, andb_false_r. now rewrite IH.
Qed.

Lemma strip_extension_plain (name : string) :
  App.all_ext_chars name = true -> App.strip_extension name = name.
Proof.
  induction name as [|c name IH]; [reflexivity|].
  cbn [App.all_ext_chars App.strip_extension]. intro H.
  apply andb_true_iff in H. destruct H as [Hc Hn].
  assert (D : Ascii.eqb c "." = false).
  { unfold App.ext_char in Hc. apply negb_true_iff in Hc.
    apply orb_false_iff in Hc. tauto. }
  rewrite D. cbn [andb]. now rewrite IH.
Qed.

Lemma strip_extension_prefix (name : string) :
  String.prefix (App.strip_extension name) name = true.
Proof.
  induction name as [|c name IH]; [reflexivity|].
  cbn [App.strip_extension].
  destruct (_ && _ && _); [reflexivity|].
  cbn [String.prefix]. destruct (ascii_dec c c); [exact IH|congruence].
Qed.

End ImageName.

(** The name under which a loaded image is known is its file name
    without the last extension: [base.ext] gives [base], for any [base]
    and any extension of one or more characters other than [.] and [/].
    A name of such characters only is kept whole; the name kept is
    always a prefix of the file name; and a file name that is nothing
    but an extension gives [spritesheet]. *)
Theorem image_name_of_file :
  (forall base ext,
     ext <> ""%string -> App.all_ext_chars ext = true ->
     App.strip_extension (base ++ String "." ext) = base) /\
  (forall name,
     App.all_ext_chars name = true -> App.strip_extension name = name) /\
  (forall name, String.prefix (App.strip_extension name) name = true) /\
  (forall url base ext a,
     ext <> ""%string -> App.all_ext_chars ext = true ->
     App.imageName (App.handleImageLoad url (base ++ String "." ext) a)
       = if String.eqb base "" then "spritesheet"%string else base).
Proof.
  split; [|split; [|split]].
  - apply strip_extension_suffix.
  - apply strip_extension_plain.
  - apply strip_extension_prefix.
  - intros url base ext a Hne Hext. cbn [App.handleImageLoad App.imageName].
    rewrite strip_extension_suffix by assumption. reflexivity.
Qed.

Lemma image_name_of_file_witness :
  "png"%string <> ""%string /\ App.all_ext_chars "png" = true /\
  App.strip_extension ("hero.walk" ++ String "." "png") = "hero.walk"%string.
Proof.
  assert (Hne : "png"%string <> ""%string) by discriminate.
  split; [exact Hne|]. split; [reflexivity|].
  exact (proj1 image_name_of_file "hero.walk"%string "png"%string
           Hne eq_refl).
Defined.

(** ** Dragging a file over the page *)

Section Drag.

Lemma step_drag (i : Session.Input) (a : App.AppState) :
  Session.drag_consistent a ->
  Session.nested (App.dragCounter a) [i] = true ->
  Session.drag_consistent (Session.step i a) /\
  forall rest,
    Session.nested (App.dragCounter a) (i :: rest)
      = Session.nested (App.dragCounter (Session.step i a)) rest.
Proof.
  intros [C D] N. unfold Session.drag_consistent in *.
  destruct i; cbn [Session.step Session.nested] in *.
  - cbn. split; [|reflexivity]. split; [lia|]. split; [lia|reflexivity].
  - split; [|reflexivity]. split; assumption.
  - rewrite andb_true_r in N. apply Z.ltb_lt in N.
    unfold App.handleDragLeave, App.set_drag.
    cbn [App.dragCounter App.isDragging]. split.
    + split; [lia|]. destruct (Z.eqb_spec (App.dragCounter a - 1) 0).
      * split; [discriminate|lia].
      * rewrite D. lia.
    + intro rest. apply Z.ltb_lt in N. now rewrite N.
  - assert (E : App.dragCounter (App.handleDrop files a) = 0%Z
                /\ App.isDragging (App.handleDrop files a) = false).
    { unfold App.handleDrop. destruct files as [[|file files]|];
        try (split; reflexivity).
      destruct (Browser.startsWith _ _); split; reflexivity. }
    destruct E as [E0 Ef]. rewrite E0, Ef.
    split; [|reflexivity]. split; [lia|]. split; [discriminate|lia].
  - assert (E : App.dragCounter (App.on_file_change files a)
                  = App.dragCounter a
                /\ App.isDragging (App.on_file_change files a)
                   = App.isDragging a).
    { unfold App.on_file_change, ImageUploader.handleFileChange.
      destruct files as [[|file files]|]; try (split; reflexivity).
      destruct (Browser.startsWith _ _); split; reflexivity. }
    destruct E as [E0 Ef]. rewrite E0, Ef.
    split; [|reflexivity]. split; assumption.
  - split; [|reflexivity]. split; assumption.
  - split; [|reflexivity]. split; assumption.
  - split; [|reflexivity]. split; assumption.
  - split; [|reflexivity]. split; assumption.
Qed.

Lemma nested_head depth i rest :
  Session.nested depth (i :: rest) = true -> Session.nested depth [i] = true.
Proof.
  destruct i; cbn [Session.nested]; try reflexivity.
  intro H. apply andb_true_iff in H. destruct H as [H _].
  now rewrite H.
Qed.

End Drag.

(** The drag overlay: as long as the page gets no more leaves than
    enters (a drop starting the count afresh), the counter is never
    negative and the overlay is shown exactly while the counter is
    positive; so it is hidden once every enter has been matched by a
    leave, and after any drop. *)
Theorem drag_overlay_consistent (inputs : list Session.Input)
    (a : App.AppState) :
  Session.drag_consistent a ->
  Session.nested (App.dragCounter a) inputs = true ->
  let a' := Session.run inputs a in
  Session.drag_consistent a' /\
  (App.dragCounter a' = 0%Z -> App.isDragging a' = false) /\
  (forall files,
     App.isDragging (App.handleDrop files a') = false /\
     App.dragCounter (App.handleDrop files a') = 0%Z).
Proof.
  intros D N. cbv zeta.
  assert (I : Session.drag_consistent (Session.run inputs a)).
  { revert a D N. induction inputs as [|i inputs IH]; intros a D N;
      [exact D|].
    change (Session.run (i :: inputs) a)
      with (Session.run inputs (Session.step i a)).
    destruct (@step_drag i a D (nested_head _ _ _ N)) as [D1 N1].
    apply IH; [exact D1|]. now rewrite <- N1. }
  split; [exact I|]. split.
  - intro Z. destruct I as [_ I]. destruct (App.isDragging _);
      [|reflexivity]. destruct I as [I _]. specialize (I eq_refl). lia.
  - intro files. unfold App.handleDrop.
    destruct files as [[|file files]|]; try (split; reflexivity).
    destruct (Browser.startsWith _ _); split; reflexivity.
Qed.

Lemma drag_overlay_consistent_witness :
  Session.drag_consistent App.init /\
  Session.nested (App.dragCounter App.init)
    [Session.DragEnter; Session.DragEnter; Session.DragLeave;
     Session.DragLeave] = true /\
  App.isDragging
    (Session.run [Session.DragEnter; Session.DragEnter; Session.DragLeave;
                  Session.DragLeave] App.init) = false.
Proof.
  assert (D : Session.drag_consistent App.init).
  { split; [cbn; lia|]. split; [discriminate|cbn; lia]. }
  assert (N : Session.nested (App.dragCounter App.init)
                [Session.DragEnter; Session.DragEnter; Session.DragLeave;
                 Session.DragLeave] = true) by reflexivity.
  split; [exact D|]. split; [exact N|].
  destruct (@drag_overlay_consistent _ App.init D N) as (_ & Z & _).
  apply Z. reflexivity.
Defined.

(** ** Files that are not images *)

(** Only an image in first place is loaded.  A drop or a file choice
    that offers none leaves image, selection, name and grid as they
    are (the drop still ends the drag); the upload control emits at
    most one load and always clears its input. *)
Theorem only_images_load (files : option (list Browser.File))
    (a : App.AppState) :
  (Session.offers_image files = false ->
     App.handleDrop files a = App.set_drag false 0 a /\
     App.on_file_change files a = a /\
     ImageUploader.handleFileChange files = [ImageUploader.ClearInput]) /\
  (Session.offers_image files = true ->
     exists file rest,
       files = Some (file :: rest) /\
       ImageUploader.handleFileChange files =
         [ImageUploader.Emit_image_loaded (Browser.createObjectURL file)
            (Browser.file_name file); ImageUploader.ClearInput] /\
       App.imageUrl (App.on_file_change files a)
         = Some (Browser.createObjectURL file) /\
       App.imageUrl (App.handleDrop files a)
         = Some (Browser.createObjectURL file)).
Proof.
  unfold Session.offers_image, App.handleDrop, App.on_file_change,
    ImageUploader.handleFileChange.
  destruct files as [[|file rest]|].
  - split; [repeat split|discriminate].
  - destruct (Browser.startsWith _ _); split; try discriminate.
    + intros _. exists file, rest. repeat split.
    + repeat split.
  - split; [repeat split|discriminate].
Qed.

Lemma only_images_load_witness :
  Session.offers_image (Some [notes_txt]) = false /\
  App.on_file_change (Some [notes_txt]) app_with_selection
    = app_with_selection.
Proof.
  split; [reflexivity|].
  destruct (only_images_load (Some [notes_txt]) app_with_selection)
    as (No & _).
  exact (proj1 (proj2 (No eq_refl))).
Defined.

(** ** The checkerboard *)

Section SteppedLoops.

Variables n step : Z.
Hypothesis step_pos : (1 <= step)%Z.

Let m := ((n + step - 1) / step)%Z.

Lemma below_iff_steps (k : Z) : (step * k < n)%Z <-> (k < m)%Z.
Proof.
  subst m.
  pose proof (Z.div_mod (n + step - 1) step ltac:(lia)) as E.
  pose proof (Z.mod_pos_bound (n + step - 1) step ltac:(lia)) as M.
  split; intro H; nia.
Qed.

Lemma for_loop_steps (fuel : nat) (k : Z) :
  (Z.to_nat (m - k) <= fuel)%nat ->
  for_loop fuel (step * k) n step
    = map (fun i => (step * i)%Z) (count_up k (Z.to_nat (m - k))).
Proof.
  revert k. induction fuel as [|fuel IH]; intros k F.
  - replace (Z.to_nat (m - k)) with O by lia. reflexivity.
  - cbn [for_loop]. destruct (Z.ltb_spec (step * k) n) as [L|G].
    + apply below_iff_steps in L.
      replace (Z.to_nat (m - k)) with (S (Z.to_nat (m - (k + 1)))) by lia.
      cbn [count_up map]. f_equal.
      replace (step * k + step)%Z with (step * (k + 1))%Z by lia.
      apply IH. lia.
    + assert (m <= k)%Z.
      { destruct (Z.lt_ge_cases k m) as [C|C]; [|exact C].
        apply below_iff_steps in C. lia. }
      replace (Z.to_nat (m - k)) with O by lia. reflexivity.
Qed.

Lemma for_range_steps :
  for_range n step
    = map (fun i => (step * i)%Z) (count_up 0 (steps_to_cover n step)).
Proof.
  unfold for_range, steps_to_cover. fold m.
  pose proof (@for_loop_steps (Z.to_nat n) 0) as L.
  rewrite Z.mul_0_r, Z.sub_0_r in L. apply L.
  destruct (Z.le_gt_cases m 0) as [C|C]; [lia|].
  assert (step * 0 < n)%Z by (apply below_iff_steps; lia).
  assert (m <= n)%Z; [|lia].
  subst m. apply Z.div_le_upper_bound; nia.
Qed.

End SteppedLoops.

Lemma styled_rects_app (cur : string) (f g : Frame) :
  styled_rects cur (f ++ g)
    = styled_rects cur f ++ styled_rects (style_after cur f) g.
Proof.
  revert cur. induction f as [|op f IH]; intro cur; [reflexivity|].
  destruct op; cbn [app styled_rects style_after]; rewrite IH; reflexivity.
Qed.

(** One row of squares, as the inner loop paints it. *)
Lemma checkerboard_row (cur : string) (j : Z) (columns : list Z) :
  styled_rects cur
    (flat_map (fun x =>
       [ FillStyle (if (rem (x / checkSize + checkSize * j / checkSize) 2
                        =? 0)%Z
                    then checker_light else background);
         FillRect (inject_Z x) (inject_Z (checkSize * j))
                  (inject_Z checkSize) (inject_Z checkSize) ])
       (map (fun i => (checkSize * i)%Z) columns))
  = map (fun i => check_square i j) columns.
Proof.
  revert cur. induction columns as [|i columns IH]; intro cur;
    [reflexivity|].
  cbn [map flat_map app styled_rects]. rewrite IH. f_equal.
  unfold check_square.
  rewrite !(Z.mul_comm checkSize), !Z.div_mul by (unfold checkSize; lia).
  reflexivity.
Qed.

Lemma checkerboard_rows (cur : string) (columns rows : list Z) :
  styled_rects cur
    (flat_map (fun y =>
       flat_map (fun x =>
         [ FillStyle (if (rem (x / checkSize + y / checkSize) 2 =? 0)%Z
                      then checker_light else background);
           FillRect (inject_Z x) (inject_Z y)
                    (inject_Z checkSize) (inject_Z checkSize) ])
         (map (fun i => (checkSize * i)%Z) columns))
       (map (fun j => (checkSize * j)%Z) rows))
  = flat_map (fun j => map (fun i => check_square i j) columns) rows.
Proof.
  revert cur. induction rows as [|j rows IH]; intro cur; [reflexivity|].
  cbn [map flat_map]. rewrite styled_rects_app, IH. f_equal.
  apply checkerboard_row.
Qed.

(** The checkerboard is made of squares of side 10 that cover the
    image: square [(i, j)] has its corner at [(10 i, 10 j)], for every
    [i] below [ceil(width / 10)] and [j] below [ceil(height / 10)], row
    by row; it is light when [i + j] is even and dark when odd, so
    squares that share an edge differ; and every point of the image lies
    in the square of [floor(x / 10)] and [floor(y / 10)]. *)
Theorem checkerboard_squares (v : Viewer) (cur : string) :
  let cols := steps_to_cover (imageWidth v) checkSize in
  let rows := steps_to_cover (imageHeight v) checkSize in
  styled_rects cur (draw_checkerboard v)
    = flat_map (fun j => map (fun i => check_square i j) (count_up 0 cols))
               (count_up 0 rows) /\
  (forall i j, fst (check_square i j) <> fst (check_square (i + 1) j) /\
               fst (check_square i j) <> fst (check_square i (j + 1))) /\
  (forall x y : Q,
     0 <= x -> x < inject_Z (imageWidth v) ->
     0 <= y -> y < inject_Z (imageHeight v) ->
     let i := Math_floor (x / 10) in
     let j := Math_floor (y / 10) in
     In (check_square i j) (styled_rects cur (draw_checkerboard v)) /\
     inject_Z (checkSize * i) <= x /\
     x < inject_Z (checkSize * i) + inject_Z checkSize /\
     inject_Z (checkSize * j) <= y /\
     y < inject_Z (checkSize * j) + inject_Z checkSize).
Proof.
  cbv zeta.
  assert (Cells :
    styled_rects cur (draw_checkerboard v)
    = flat_map (fun j => map (fun i => check_square i j)
                  (count_up 0 (steps_to_cover (imageWidth v) checkSize)))
        (count_up 0 (steps_to_cover (imageHeight v) checkSize))).
  { unfold draw_checkerboard.
    rewrite !for_range_steps by (unfold checkSize; lia).
    apply checkerboard_rows. }
  split; [exact Cells|]. split.
  - intros i j. unfold check_square, rem. cbn [fst].
    assert (A : forall k, Z.rem (k + 1) 2 = 0%Z -> Z.rem k 2 = 0%Z -> False).
    { intros k H1 H2.
      pose proof (Z.rem_bound_abs k 2 ltac:(lia)).
      pose proof (Z.quot_rem' k 2). pose proof (Z.quot_rem' (k + 1) 2). lia. }
    assert (B : forall k, Z.rem (k + 1) 2 <> 0%Z -> Z.rem k 2 <> 0%Z -> False).
    { intros k H1 H2.
      pose proof (Z.rem_bound_abs k 2 ltac:(lia)).
      pose proof (Z.rem_bound_abs (k + 1) 2 ltac:(lia)).
      pose proof (Z.quot_rem' k 2). pose proof (Z.quot_rem' (k + 1) 2). lia. }
    replace (i + (j + 1))%Z with (i + j + 1)%Z by lia.
    replace (i + 1 + j)%Z with (i + j + 1)%Z by lia.
    destruct (Z.eqb_spec (Z.rem (i + j) 2) 0) as [E|E];
      destruct (Z.eqb_spec (Z.rem (i + j + 1) 2) 0) as [E'|E'];
      try (split; discriminate);
      exfalso; [exact (A _ E' E)|exact (B _ E' E)].
  - intros x y X0 XW Y0 YH.
    assert (P10 : 0 < 10) by reflexivity.
    pose proof (@floor_nonneg x 10 P10 X0) as I0.
    pose proof (@floor_nonneg y 10 P10 Y0) as J0.
    destruct (@floor_cell x 10 P10) as [XL XU].
    destruct (@floor_cell y 10 P10) as [YL YU].
    set (i := Math_floor (x / 10)) in *. set (j := Math_floor (y / 10)) in *.
    assert (Ii : (checkSize * i < imageWidth v)%Z).
    { rewrite Zlt_Qlt. eapply Qle_lt_trans; [|exact XW].
      unfold checkSize. rewrite inject_Z_mult, Qmult_comm. exact XL. }
    assert (Jj : (checkSize * j < imageHeight v)%Z).
    { rewrite Zlt_Qlt. eapply Qle_lt_trans; [|exact YH].
      unfold checkSize. rewrite inject_Z_mult, Qmult_comm. exact YL. }
    apply (@below_iff_steps (imageWidth v) checkSize) in Ii;
      [|unfold checkSize; lia].
    apply (@below_iff_steps (imageHeight v) checkSize) in Jj;
      [|unfold checkSize; lia].
    split.
    + rewrite Cells. apply in_flat_map. exists j. split.
      * apply count_up_In. unfold steps_to_cover. lia.
      * apply (in_map (fun i' => check_square i' j)).
        apply count_up_In. unfold steps_to_cover. lia.
    + unfold checkSize. rewrite !inject_Z_mult, !inject_Z_plus_1 in *.
      change (inject_Z 10) with 10.
      rewrite (Qmult_comm 10 (inject_Z i)), (Qmult_comm 10 (inject_Z j)).
      repeat split; lra.
Qed.

(** ** The colour of the labels *)

Section LabelColours.

Variable v : Viewer.

Let colour (i : Z) : string * Z :=
  (if is_selected_index v i then label_selected else label_fill, i).

Lemma styled_texts_app (cur : string) (f g : Frame) :
  styled_texts cur (f ++ g)
    = styled_texts cur f ++ styled_texts (style_after cur f) g.
Proof.
  revert cur. induction f as [|op f IH]; intro cur; [reflexivity|].
  destruct op; cbn [app styled_texts style_after]; rewrite IH; reflexivity.
Qed.

Lemma label_row_colours (cur : string) (r : Z) (cols : list Z) (i : Z) :
  styled_texts cur (fst (draw_label_row v r cols i))
    = map colour (count_up i (List.length cols)) /\
  snd (draw_label_row v r cols i) = (i + Z.of_nat (List.length cols))%Z.
Proof.
  revert cur i. induction cols as [|c cols IH]; intros cur i.
  - cbn. split; [reflexivity|lia].
  - cbn [draw_label_row List.length count_up map].
    specialize (IH (if is_selected_index v i
                    then label_selected else label_fill) (i + 1)%Z).
    destruct (draw_label_row v r cols (i + 1)) as [rest i'].
    cbn [fst snd] in *. destruct IH as [IHt IHs].
    split; [|lia]. cbn [app styled_texts]. now rewrite IHt.
Qed.

Lemma label_rows_colours (cur : string) (rows : list Z) (i : Z) :
  styled_texts cur (fst (draw_label_rows v rows i))
    = map colour
        (count_up i (List.length rows
                     * List.length (for_range (colCount v) 1))).
Proof.
  revert cur i. induction rows as [|r rows IH]; intros cur i;
    [reflexivity|].
  cbn [draw_label_rows List.length Nat.mul].
  destruct (label_row_colours cur r (for_range (colCount v) 1) i)
    as [Rt Rs].
  destruct (draw_label_row v r (for_range (colCount v) 1) i) as [ops i1].
  cbn [fst snd] in Rt, Rs. subst i1.
  specialize (IH (style_after cur ops)
                 (i + Z.of_nat (List.length (for_range (colCount v) 1)))%Z).
  destruct (draw_label_rows v rows _) as [rest i2].
  cbn [fst] in *.
  rewrite styled_texts_app, Rt, IH, count_up_app, map_app. reflexivity.
Qed.

End LabelColours.

(** With labels on, the cells are numbered from zero, row by row, and a
    label is written in the bright colour exactly when its number is the
    index of the selected tile: at most one label is bright, and none
    when nothing is selected or the selection's index is out of
    range. *)
Theorem label_colours (v : Viewer) (cur : string) :
  showNumbers (props v) = true ->
  (0 <= colCount v)%Z -> (0 <= rowCount v)%Z ->
  styled_texts cur (draw_numbers v)
    = map (fun i => (if is_selected_index v i
                     then label_selected else label_fill, i))
          (count_up 0 (Z.to_nat (totalCells v))) /\
  (forall i, In (label_selected, i) (styled_texts cur (draw_numbers v)) <->
             (0 <= i < totalCells v)%Z /\
             exists t, selectedTile (props v) = Some t /\ index t = i) /\
  (selectedTile (props v) = None ->
   forall i, ~ In (label_selected, i) (styled_texts cur (draw_numbers v))).
Proof.
  intros Hn Hc Hr.
  assert (E : styled_texts cur (draw_numbers v)
    = map (fun i => (if is_selected_index v i
                     then label_selected else label_fill, i))
          (count_up 0 (Z.to_nat (totalCells v)))).
  { unfold draw_numbers. rewrite Hn. cbn [app styled_texts].
    rewrite label_rows_colours. rewrite !for_range_count_up.
    rewrite !count_up_length. unfold totalCells. do 2 f_equal. nia. }
  assert (Iff : forall i,
    In (label_selected, i) (styled_texts cur (draw_numbers v)) <->
    (0 <= i < totalCells v)%Z /\
    exists t, selectedTile (props v) = Some t /\ index t = i).
  { intro i. rewrite E, in_map_iff. split.
    - intros (k & Ek & Ik). apply count_up_In in Ik.
      inversion Ek as [[Es Ei]]. subst k. split; [lia|].
      unfold is_selected_index in Es.
      destruct (selectedTile (props v)) as [t|]; [|discriminate Es].
      destruct (Z.eqb_spec (index t) i); [|discriminate Es].
      exists t. split; [reflexivity|assumption].
    - intros (R & t & St & It). exists i. split.
      + unfold is_selected_index. rewrite St.
        destruct (Z.eqb_spec (index t) i); [reflexivity|contradiction].
      + apply count_up_In. lia. }
  split; [exact E|]. split; [exact Iff|].
  intros N i I. apply Iff in I. destruct I as (_ & t & St & _). congruence.
Qed.

Lemma label_colours_witness :
  showNumbers (props numbered_sheet) = true /\
  (0 <= colCount numbered_sheet)%Z /\
  In (label_selected, 1%Z) (styled_texts "" (draw_numbers numbered_sheet)).
Proof.
  assert (Hc : (0 <= colCount numbered_sheet)%Z) by by_evaluation.
  assert (Hr : (0 <= rowCount numbered_sheet)%Z) by by_evaluation.
  destruct (@label_colours numbered_sheet ""%string eq_refl Hc Hr)
    as (_ & Iff & _).
  split; [reflexivity|]. split; [exact Hc|].
  apply Iff. split; [split; by_evaluation|].
  exists (mkTile 1 0 1). split; reflexivity.
Defined.

(** ** From a click to the selection highlight *)

Lemma step_GridChanged_state (x y : Z) (m : GridMode) (numbers : bool)
    (sel : option Tile) (v : Viewer) :
  fst (step (GridChanged x y m numbers sel) v)
  = set_props (mkProps (imageUrl (props v)) x y m numbers sel) v.
Proof.
  cbn [step]. cbv zeta.
  destruct (grid_sources_same _ _); reflexivity.
Qed.

(** A click selects the cell it lands in: when an idle release of the
    primary button emits a tile, the application stores that tile, and
    once it has passed it back as the selected tile, the selection pass
    of [draw] fills and outlines one rectangle, of the size of a cell,
    which holds the image-space point that was clicked. *)
Theorem selection_covers_click (v : Viewer) (e : MouseEvent) (t : Tile)
    (a : App.AppState) :
  0 < cellWidth v -> 0 < cellHeight v ->
  isPanning v = false -> plain_primary e ->
  emitted (snd (handleMouseUp e v)) = [t] ->
  let a' := App.handleTileClick t a in
  let v' := fst (step (GridChanged (gridX (props v)) (gridY (props v))
                         (gridMode (props v)) (showNumbers (props v))
                         (App.selectedTile a')) v) in
  let p := screenToImage v (clientX e) (clientY e) in
  let X := inject_Z (col t) * cellWidth v in
  let Y := inject_Z (row t) * cellHeight v in
  App.selectedTile a' = Some t /\
  draw_selected v' =
    [ FillStyle selected_fill;
      FillRect X Y (cellWidth v) (cellHeight v);
      StrokeStyle selected_stroke;
      LineWidth (2 / scale v);
      StrokeRect X Y (cellWidth v) (cellHeight v) ] /\
  (X <= px p /\ px p < X + cellWidth v) /\
  (Y <= py p /\ py p < Y + cellHeight v).
Proof.
  intros Hcw Hch P Q Em. cbv zeta.
  rewrite (@handleMouseUp_idle_primary v e P Q) in Em. cbn [snd] in Em.
  unfold hitTest in Em.
  destruct (getTileAtPosition v _ _) as [t'|] eqn:Hit;
    [|discriminate Em].
  cbn in Em. inversion Em. subst t'.
  destruct (getTileAtPosition_Some v _ _ Hit)
    as (_ & _ & Ec & Er & _).
  destruct (@floor_cell (px (screenToImage v (clientX e) (clientY e)))
              _ Hcw) as [XL XU].
  destruct (@floor_cell (py (screenToImage v (clientX e) (clientY e)))
              _ Hch) as [YL YU].
  rewrite <- Ec in XL, XU. rewrite <- Er in YL, YU.
  rewrite inject_Z_plus_1 in XU, YU.
  split; [reflexivity|].
  split; [rewrite step_GridChanged_state; reflexivity|].
  split; split; lra.
Qed.

Lemma selection_covers_click_witness :
  0 < cellWidth sheet_100 /\ plain_primary (mkMouse 0 false 45 37 false false false) /\
  emitted (snd (handleMouseUp (mkMouse 0 false 45 37 false false false) sheet_100))
    = [mkTile 1 0 1] /\
  inject_Z 1 * cellWidth sheet_100
    <= px (screenToImage sheet_100 45 37).
Proof.
  assert (Hcw : 0 < cellWidth sheet_100) by by_evaluation.
  assert (Hch : 0 < cellHeight sheet_100) by by_evaluation.
  assert (Q : plain_primary (mkMouse 0 false 45 37 false false false)) by (split; reflexivity).
  assert (Em : emitted (snd (handleMouseUp (mkMouse 0 false 45 37 false false false)
                               sheet_100)) = [mkTile 1 0 1])
    by by_evaluation.
  split; [exact Hcw|]. split; [exact Q|]. split; [exact Em|].
  destruct (@selection_covers_click sheet_100 (mkMouse 0 false 45 37 false false false)
              (mkTile 1 0 1) App.init Hcw Hch eq_refl Q Em)
    as (_ & _ & (L & _) & _).
  exact L.
Defined.

(** ** Replacing the image *)

(** When the parent passes an image url that differs from the one the
    viewer has, and the image, which has a width and a height of at
    least one pixel, has loaded, the viewer has asked for the url once,
    shows the new image in the view fitted to it and has painted one
    frame; the hovered tile and a pan in progress are carried over from
    the old image unchanged. *)
Theorem image_replacement_refits (v : Viewer) (container : HTMLDivElement)
    (url : string) (img : HTMLImageElement) :
  containerRef v = Some container ->
  url <> imageUrl (props v) ->
  (1 <= naturalWidth img)%Z -> (1 <= naturalHeight img)%Z ->
  let r := run [ImageUrlChanged url; ImageLoaded img] v in
  let v' := fst r in
  image v' = Some img /\ imageLoaded v' = true /\
  imageUrl (props v') = url /\
  scale v' = fit_scale (inject_Z (clientWidth container))
                       (inject_Z (clientHeight container))
                       (inject_Z (naturalWidth img))
                       (inject_Z (naturalHeight img)) 40 /\
  snd r = [RequestImage url; Draw (draw v')] /\
  hoveredTile v' = hoveredTile v /\ isPanning v' = isPanning v /\
  selectedTile (props v') = selectedTile (props v).
Proof.
  intros Hc Hu HW HH. cbv zeta.
  assert (NW : naturalWidth img <> 0%Z) by lia.
  assert (NH : naturalHeight img <> 0%Z) by lia.
  apply String.eqb_neq in Hu.
  cbn [run step]. cbv zeta. rewrite Hu.
  cbn [watch_imageUrl loadImage img_onload fst snd app].
  set (v1 := set_imageLoaded true (set_image (Some img) _)).
  assert (C1 : containerRef v1 = Some container) by exact Hc.
  assert (I1 : image v1 = Some img) by reflexivity.
  pose proof (@resetView_fitted v1 container img C1 I1 NW NH) as R.
  cbv zeta in R.
  split; [rewrite R; reflexivity|]. split; [rewrite R; reflexivity|].
  split; [rewrite R; reflexivity|]. split; [rewrite R; reflexivity|].
  split; [reflexivity|].
  split; [rewrite R; reflexivity|]. split; rewrite R; reflexivity.
Qed.

Lemma image_replacement_refits_witness :
  containerRef panning_over_tile
    = Some (mkDiv 800 600 (mkRect 5 7 800 600)) /\
  "blob:next"%string <> imageUrl (props panning_over_tile) /\
  (1 <= naturalWidth (mkImage 64 64))%Z /\
  hoveredTile (fst (run [ImageUrlChanged "blob:next";
                         ImageLoaded (mkImage 64 64)] panning_over_tile))
    = Some 0%Z.
Proof.
  assert (U : "blob:next"%string <> imageUrl (props panning_over_tile))
    by (apply String.eqb_neq; reflexivity).
  assert (P : (1 <= 64)%Z) by lia.
  split; [reflexivity|]. split; [exact U|]. split; [exact P|].
  destruct (@image_replacement_refits panning_over_tile
              (mkDiv 800 600 (mkRect 5 7 800 600)) "blob:next"%string
              (mkImage 64 64) eq_refl U P P) as (_ & _ & _ & _ & _ & H & _).
  rewrite H. reflexivity.
Defined.

(** ** Instances *)

Lemma mouse_leave_clears_witness :
  hoveredTile panning_over_tile <> None /\
  snd (handleMouseLeave panning_over_tile)
    = [Draw (draw (fst (handleMouseLeave panning_over_tile)))].
Proof.
  assert (N : hoveredTile panning_over_tile <> None) by discriminate.
  split; [exact N|].
  destruct (mouse_leave_clears panning_over_tile)
    as (_ & _ & _ & _ & D & _).
  exact (D N).
Defined.

Lemma grid_lines_witness :
  (0 <= colCount sheet_100)%Z /\ (0 <= rowCount sheet_100)%Z /\
  Z.of_nat (List.length
    (map (vertical_line sheet_100)
         (count_up 0 (Z.to_nat (colCount sheet_100 + 1)))
     ++ map (horizontal_line sheet_100)
            (count_up 0 (Z.to_nat (rowCount sheet_100 + 1)))))
  = (colCount sheet_100 + 1 + (rowCount sheet_100 + 1))%Z.
Proof.
  assert (Hc : (0 <= colCount sheet_100)%Z) by by_evaluation.
  assert (Hr : (0 <= rowCount sheet_100)%Z) by by_evaluation.
  split; [exact Hc|]. split; [exact Hr|].
  destruct (grid_lines sheet_100) as (_ & N & _).
  exact (N Hc Hr).
Defined.

Lemma grid_input_clamps_witness :
  (512 < 9999)%Z /\
  GridSettings.m_gridX
    (GridSettings.handleInput (Some 9999%Z) GridSettings.AxisX
       (GridSettings.mkModels 16 16 Size)) = 512%Z.
Proof.
  assert (L : (512 < 9999)%Z) by lia.
  split; [exact L|].
  destruct (grid_input_clamps (Some 9999%Z) GridSettings.AxisX
              (GridSettings.mkModels 16 16 Size))
    as (_ & _ & _ & _ & _ & Hi & _).
  exact (Hi 9999%Z eq_refl L).
Defined.

Lemma checkerboard_squares_witness :
  0 <= 25 /\ 25 < inject_Z (imageWidth sheet_100) /\
  In (check_square 2 0)
     (styled_rects "" (draw_checkerboard sheet_100)).
Proof.
  assert (X0 : 0 <= 25) by by_evaluation.
  assert (XW : 25 < inject_Z (imageWidth sheet_100)) by by_evaluation.
  assert (Y0 : 0 <= 5) by by_evaluation.
  assert (YH : 5 < inject_Z (imageHeight sheet_100)) by by_evaluation.
  split; [exact X0|]. split; [exact XW|].
  destruct (checkerboard_squares sheet_100 ""%string) as (_ & _ & Cover).
  exact (proj1 (Cover 25 5 X0 XW Y0 YH)).
Defined.
